(** * Segmented file uploader of the 0G storage SDK: a shallow embedding

    The development follows the compiled JavaScript of the uploader
    ([utils.js] and [Uploader.js]).  JavaScript numbers that hold integers
    are modelled by [Z].  Where the code divides ([GetSplitNum],
    [SegmentRange], [nextSgmentIndex]) the arithmetic is that of the
    language: every [+], [-], [*] and [/] is the exact rational result
    rounded to the nearest IEEE-754 double, ties to even ([JS.fl]).
    Network calls are modelled by explicit scripts (functions from the
    call number to the answer of the peer), sleeps and submissions by logs
    that the functions return next to their result. *)

From Stdlib Require Import ZArith QArith Qround List String Ascii Bool Lia.
From Stdlib Require Import DecimalString Sorted Permutation.
Import ListNotations.
Local Open Scope Z_scope.

(** ** JavaScript primitives used by the uploader *)

Module JS.

(** *** Numbers

    A finite number is a rational; the result of an arithmetic operation
    is the exact result rounded to the nearest double (53 significant
    bits, least exponent [-1074]), ties to the even significand.  Results
    beyond the largest double, which JavaScript turns into [Infinity], are
    outside the model, and so is a division by zero. *)

(** [p / q] rounded to the nearest integer, ties to even ([q > 0]). *)
Definition rne (p q : Z) : Z :=
  let f := p / q in
  let r := p mod q in
  match 2 * r ?= q with
  | Lt => f
  | Gt => f + 1
  | Eq => if Z.even f then f else f + 1
  end.

(** The binade of [n / d] for [n, d > 0]: the [m] with
    [2 ^ (m - 1) <= n / d < 2 ^ m]. *)
Definition mag (n d : Z) : Z :=
  if d <=? n then Z.log2 (n / d) + 1 else - Z.log2 ((d - 1) / n).

(** [n / d] rounded to a double, for [n, d > 0]: a multiple of [2 ^ e],
    [e] being the exponent of the last of the 53 bits, or [-1074] for a
    subnormal. *)
Definition flpos (n d : Z) : Q :=
  let e := Z.max (mag n d - 53) (-1074) in
  if 0 <=? e then inject_Z (rne n (d * 2 ^ e) * 2 ^ e)
  else Qmake (rne (n * 2 ^ (- e)) d) (Z.to_pos (2 ^ (- e))).

(** Rounding to the nearest double. *)
Definition fl (x : Q) : Q :=
  match Qnum x with
  | Z0 => 0%Q
  | Zpos n => flpos (Zpos n) (Zpos (Qden x))
  | Zneg n => Qopp (flpos (Zpos n) (Zpos (Qden x)))
  end.

(** [x + y], [x - y], [x * y] and [x / y] on numbers. *)
Definition fadd (x y : Q) : Q := fl (x + y).
Definition fsub (x y : Q) : Q := fl (x - y).
Definition fmul (x y : Q) : Q := fl (x * y).
Definition fdiv (x y : Q) : Q := fl (x / y).

(** [Math.floor] *)
Definition Math_floor (x : Q) : Z := Qfloor x.

(** The integer a number holds, for a number whose value is integral (as
    the sum of two integers is, rounded or not). *)
Definition integer (x : Q) : Z := Qfloor x.

(** [a / b] as the exact quotient of two integers. *)
Definition div (a b : Z) : Q := (inject_Z a / inject_Z b)%Q.

(** [hay.includes(needle)] on strings: [needle] occurs as a substring. *)
Fixpoint includes (needle hay : string) : bool :=
  if String.prefix needle hay then true
  else match hay with
       | EmptyString => false
       | String _ hay' => includes needle hay'
       end.

(** [arr.slice(0, e)] on a typed array: a negative end counts from the
    end of the array, and the end is clamped to the length. *)
Definition slice0 {A : Type} (l : list A) (e : Z) : list A :=
  let len := Z.of_nat (List.length l) in
  let relEnd := if e <? 0 then Z.max (len + e) 0 else Z.min e len in
  firstn (Z.to_nat relEnd) l.

(** The payload an RPC error may carry in its [data] property. *)
Inductive ErrData : Type :=
| DString (s : string)
| DObject (message : option string).

(** An [Error] instance: its message and optional [data]. *)
Record Error : Type := mkError { message : string; data : option ErrData }.

(** [new Error(msg)] *)
Definition newError (msg : string) : Error := mkError msg None.

(** A thrown value: an [Error] instance or anything else. *)
Inductive Thrown : Type :=
| VError (e : Error)
| VOther (s : string).

(** [String(e)] for a thrown value, [Error]s printing as [Error: msg]. *)
Definition toString (t : Thrown) : string :=
  match t with
  | VError e => ("Error: " ++ message e)%string
  | VOther s => s
  end.

(** A number inside a template literal. *)
Definition showZ (z : Z) : string := NilZero.string_of_int (Z.to_int z).

End JS.

(** ** Protocol constants

    [constant.js] is not part of the sources at hand: the three constants it
    exports are parameters of the development. *)

Record Constants : Type := {
  DEFAULT_CHUNK_SIZE : Z;
  DEFAULT_SEGMENT_MAX_CHUNKS : Z;
  DEFAULT_SEGMENT_SIZE : Z
}.

(** The values of the deployed protocol: 256-byte chunks, 1024 chunks per
    segment. *)
Definition protocolConstants : Constants :=
  {| DEFAULT_CHUNK_SIZE := 256;
     DEFAULT_SEGMENT_MAX_CHUNKS := 1024;
     DEFAULT_SEGMENT_SIZE := 256 * 1024 |}.

(** ** Data exchanged with the ledger and the storage nodes *)

Module RetryOpts.
(** The fields are optional: [None] is [undefined]. *)
Record t : Type := mk {
  Retries : option Z;
  Interval : option Z;
  MaxGasPrice : option Z;
  TooManyDataRetries : option Z
}.
End RetryOpts.

Module TxReceipt.
(** [status] is [null] or a number. *)
Record t : Type := mk { hash : string; status : option Z }.
End TxReceipt.

Module ShardConfig.
Record t : Type := mk { shardId : Z; numShard : Z }.
End ShardConfig.

Module FileInfo.
Record Tx : Type := mkTx { seq : Z; startEntryIndex : Z; size : Z }.
Record t : Type := mk { tx : Tx; finalized : bool }.
End FileInfo.

Module UploadOption.
Record t : Type := mk { taskSize : Z; expectedReplica : Z }.
End UploadOption.

Module UploadTask.
Record t : Type := mk {
  clientIndex : nat;
  taskSize : Z;
  segIndex : Z;
  numShard : Z;
  txSeq : Z
}.
End UploadTask.

Module SegWithProof.
Record t : Type := mk {
  root : string;
  data : string;
  index : Z;
  proof : list string;
  fileSize : Z
}.
End SegWithProof.

Module MerkleTree.
Record t : Type := mk { rootHash : string; proofAt : Z -> list string }.
End MerkleTree.

(** What [iter.next()] and [iter.current()] give for one window of the
    file: the bytes read, or a failure with its (possibly null) error. *)
Inductive ReadResult : Type :=
| ReadOk (segment : list Byte.byte)
| ReadFail (err : option JS.Thrown).

Module ZgFile.
(** [iterateWithOffsetAndBatch offset batch] stands for the first window
    of [file.iterateWithOffsetAndBatch(offset, batch, true)]. *)
Record t : Type := mk {
  numChunks : Z;
  size : Z;
  iterateWithOffsetAndBatch : Z -> Z -> ReadResult
}.
End ZgFile.

(** The answer of a node to one [uploadSegmentsByTxSeq] call. *)
Inductive UploadAnswer : Type :=
| UploadResolves (res : option Z)
| UploadRejects (t : JS.Thrown).

Module StorageNode.
(** [uploadSegmentsByTxSeq k segments txSeq] is the answer to the [k]-th
    call (counted from 0) the task makes. *)
Record t : Type := mk {
  url : string;
  uploadSegmentsByTxSeq : nat -> list SegWithProof.t -> Z -> UploadAnswer
}.
End StorageNode.

(** What one [send] on the flow contract leads to: the call (or [wait])
    rejects, [wait] resolves to [null], or the transaction is mined and the
    provider then answers the receipt polls, in order. *)
Inductive SendOutcome : Type :=
| SendThrows (t : JS.Thrown)
| WaitNull
| Mined (hash : string) (provider : nat -> option TxReceipt.t).

(** ** utils.js *)

Module Utils.

(** [Math.floor((total - 1) / unit + 1)] *)
Definition GetSplitNum (total unit : Z) : Z :=
  JS.Math_floor (JS.fadd (JS.fdiv (JS.fsub (inject_Z total) 1) (inject_Z unit)) 1).

(** [SegmentRange(startChunkIndex, fileSize)] *)
Definition SegmentRange (c : Constants) (startChunkIndex fileSize : Z) : Z * Z :=
  let totalChunks := GetSplitNum fileSize (DEFAULT_CHUNK_SIZE c) in
  let startSegmentIndex :=
    JS.Math_floor (JS.fdiv (inject_Z startChunkIndex)
                     (inject_Z (DEFAULT_SEGMENT_MAX_CHUNKS c))) in
  let endChunkIndex :=
    JS.fsub (JS.fadd (inject_Z startChunkIndex) (inject_Z totalChunks)) 1 in
  let endSegmentIndex :=
    JS.Math_floor (JS.fdiv endChunkIndex (inject_Z (DEFAULT_SEGMENT_MAX_CHUNKS c))) in
  (startSegmentIndex, endSegmentIndex).

(** [x === undefined || x === 0] *)
Definition undefinedOrZero (x : option Z) : bool :=
  match x with None => true | Some v => v =? 0 end.

(** The options [waitForReceipt] works with: its default object when
    [opts] is undefined, and the defaults written into the fields that
    are undefined or zero. *)
Definition receiptOpts (opts : option RetryOpts.t) : RetryOpts.t :=
  let o := match opts with
           | None => RetryOpts.mk (Some 10) (Some 5) (Some 0) None
           | Some o => o
           end in
  let o := if undefinedOrZero (RetryOpts.Retries o)
           then RetryOpts.mk (Some 10) (RetryOpts.Interval o)
                  (RetryOpts.MaxGasPrice o) (RetryOpts.TooManyDataRetries o)
           else o in
  if undefinedOrZero (RetryOpts.Interval o)
  then RetryOpts.mk (RetryOpts.Retries o) (Some 5)
         (RetryOpts.MaxGasPrice o) (RetryOpts.TooManyDataRetries o)
  else o.

(** The caller's object after the call: the writes of [waitForReceipt]
    land in it when it is defined. *)
Definition receiptOptsWritten (opts : option RetryOpts.t) : option RetryOpts.t :=
  match opts with
  | None => None
  | Some _ => Some (receiptOpts opts)
  end.

(** [receipt !== null && receipt.status == 1] *)
Definition accepted (receipt : option TxReceipt.t) : bool :=
  match receipt with
  | Some r => match TxReceipt.status r with Some s => s =? 1 | None => false end
  | None => false
  end.

(** The outcome of a polling loop: the receipt returned (or [null]), the
    number of [getTransactionReceipt] calls and the delays slept, in
    milliseconds. *)
Record Polled (D : Type) : Type := mkPolled {
  receipt : option TxReceipt.t;
  polls : nat;
  delays : list D
}.
Arguments mkPolled {D}.
Arguments receipt {D}.
Arguments polls {D}.
Arguments delays {D}.

(** One more poll and one more delay in front of an outcome. *)
Definition polledAfter {D : Type} (d : D) (p : Polled D) : Polled D :=
  mkPolled (receipt p) (S (polls p)) (d :: delays p).

(** The loop [while (nTries < Retries) { ...; nTries++ }]: [remaining]
    is the number of iterations left, [nTries] the polls made so far. *)
Fixpoint pollLoop {D : Type} (provider : nat -> option TxReceipt.t) (delay : D)
    (remaining nTries : nat) : Polled D :=
  match remaining with
  | O => mkPolled None O []
  | S remaining' =>
      let receipt := provider nTries in
      if accepted receipt then mkPolled receipt 1%nat []
      else polledAfter delay (pollLoop provider delay remaining' (S nTries))
  end.

(** A defined number, for the fields [receiptOpts] has filled. *)
Definition num (x : option Z) : Z := match x with Some v => v | None => 0 end.

(** [waitForReceipt(provider, txHash, opts)] *)
Definition waitForReceipt (provider : nat -> option TxReceipt.t)
    (opts : option RetryOpts.t) : Polled Z :=
  let o := receiptOpts opts in
  pollLoop provider (num (RetryOpts.Interval o) * 1000)
    (Z.to_nat (num (RetryOpts.Retries o))) O.

(** [e instanceof Error && e.message.includes('timeout')] *)
Definition isTimeout (e : JS.Thrown) : bool :=
  match e with
  | JS.VError err => JS.includes "timeout" (JS.message err)
  | JS.VOther _ => false
  end.

(** The [try] block of [txWithGasAdjustment]: the receipt, or the value
    thrown; with it the caller's [retryOpts] after the call. *)
Definition trySend (o : SendOutcome) (retryOpts : option RetryOpts.t)
  : (TxReceipt.t + JS.Thrown) * option RetryOpts.t :=
  match o with
  | SendThrows t => (inr t, retryOpts)
  | WaitNull => (inr (JS.VError (JS.newError "Send transaction timeout")), retryOpts)
  | Mined _ provider =>
      match receipt (waitForReceipt provider retryOpts) with
      | Some r => (inl r, receiptOptsWritten retryOpts)
      | None =>
          (inr (JS.VError (JS.newError "Get transaction receipt timeout")),
           receiptOptsWritten retryOpts)
      end
  end.

(** The pair [[receipt, err]] returned, and the gas prices of the
    submissions made, in order. *)
Record TxRun : Type := mkTxRun {
  txReceipt : option TxReceipt.t;
  txErr : option JS.Thrown;
  sent : list Z
}.

Definition sentAt (price : Z) (r : option TxRun) : option TxRun :=
  match r with
  | Some run => Some (mkTxRun (txReceipt run) (txErr run) (price :: sent run))
  | None => None
  end.

(** The loop [while (current_gas_price <= maxGasPrice)].  [chain k price]
    is what the [k]-th submission, made at gas price [price], leads to.
    The loop need not terminate: [fuel] bounds the number of iterations,
    and [None] is returned when it runs out. *)
Fixpoint gasLoop (fuel : nat) (chain : nat -> Z -> SendOutcome)
    (retryOpts : option RetryOpts.t) (maxGasPrice current_gas_price : Z)
    (k : nat) (err : option JS.Thrown) : option TxRun :=
  if current_gas_price <=? maxGasPrice then
    match fuel with
    | O => None
    | S fuel' =>
        match trySend (chain k current_gas_price) retryOpts with
        | (inl receipt, _) =>
            Some (mkTxRun (Some receipt) None [current_gas_price])
        | (inr e, retryOpts') =>
            if isTimeout e then
              sentAt current_gas_price
                (gasLoop fuel' chain retryOpts' maxGasPrice
                   (Z.quot (11 * current_gas_price) 10) (S k) (Some e))
            else Some (mkTxRun None (Some e) [current_gas_price])
        end
    end
  else Some (mkTxRun None err []).

(** [retryOpts !== undefined && retryOpts.MaxGasPrice > 0] selects the
    caller's maximum; otherwise the maximum is the starting price. *)
Definition maxGasPriceOf (gasPrice : Z) (retryOpts : option RetryOpts.t) : Z :=
  match retryOpts with
  | Some o =>
      match RetryOpts.MaxGasPrice o with
      | Some m => if 0 <? m then m else gasPrice
      | None => gasPrice
      end
  | None => gasPrice
  end.

(** [txWithGasAdjustment(contract, provider, method, params, txOpts,
    retryOpts)], [gasPrice] being [txOpts.gasPrice]. *)
Definition txWithGasAdjustment (fuel : nat) (chain : nat -> Z -> SendOutcome)
    (gasPrice : Z) (retryOpts : option RetryOpts.t) : option TxRun :=
  gasLoop fuel chain retryOpts (maxGasPriceOf gasPrice retryOpts) gasPrice O None.

(** The file-system queries [checkExist] makes: [existsSync], and
    [lstatSync(p).isDirectory()] for an existing path. *)
Record FileSystem : Type := mkFileSystem {
  existsSync : string -> bool;
  isDirectory : string -> bool
}.

(** [checkExist(inputPath)], [dirname] being [path.dirname]. *)
Definition checkExist (fs : FileSystem) (dirname : string -> string)
    (inputPath : string) : bool :=
  let dirName := dirname inputPath in
  if negb (existsSync fs dirName) then true
  else if existsSync fs inputPath && isDirectory fs inputPath then true
  else if negb (existsSync fs inputPath) then false
  else true.

(** The caller's [retryOpts] object when the loop of [txWithGasAdjustment]
    is left: every [waitForReceipt] call of the loop has written its
    defaults into it.  Same iterations as [gasLoop]. *)
Fixpoint gasLoopOpts (fuel : nat) (chain : nat -> Z -> SendOutcome)
    (retryOpts : option RetryOpts.t) (maxGasPrice current_gas_price : Z)
    (k : nat) : option RetryOpts.t :=
  if current_gas_price <=? maxGasPrice then
    match fuel with
    | O => retryOpts
    | S fuel' =>
        match trySend (chain k current_gas_price) retryOpts with
        | (inl _, retryOpts') => retryOpts'
        | (inr e, retryOpts') =>
            if isTimeout e then
              gasLoopOpts fuel' chain retryOpts' maxGasPrice
                (Z.quot (11 * current_gas_price) 10) (S k)
            else retryOpts'
        end
    end
  else retryOpts.

(** The caller's [retryOpts] after [txWithGasAdjustment]. *)
Definition retryOptsAfterTx (fuel : nat) (chain : nat -> Z -> SendOutcome)
    (gasPrice : Z) (retryOpts : option RetryOpts.t) : option RetryOpts.t :=
  gasLoopOpts fuel chain retryOpts (maxGasPriceOf gasPrice retryOpts) gasPrice O.

End Utils.

(** ** Uploader.js *)

Module Uploader.

(** The gas price [submitTransaction] puts into [txOpts]: the uploader's
    own when positive, else the one the provider suggests. *)
Definition startGasPrice (gasPrice : Z) (suggestedGasPrice : option Z) : option Z :=
  if 0 <? gasPrice then Some gasPrice else suggestedGasPrice.

(** ['Failed to submit transaction: ' + txErr] *)
Definition submitError (txErr : option JS.Thrown) : JS.Thrown :=
  JS.VError (JS.newError
    ("Failed to submit transaction: " ++
     match txErr with Some t => JS.toString t | None => "null" end)).

(** [submitTransaction(submission, opts, retryOpts)].  The storage fee
    only travels in [txOpts.value] and is left out. *)
Definition submitTransaction (fuel : nat) (gasPrice : Z)
    (suggestedGasPrice : option Z) (chain : nat -> Z -> SendOutcome)
    (retryOpts : option RetryOpts.t) : option Utils.TxRun :=
  match startGasPrice gasPrice suggestedGasPrice with
  | None =>
      Some (Utils.mkTxRun None
        (Some (JS.VError (JS.newError
           "Failed to get suggested gas price, set your own gas price"))) [])
  | Some price =>
      match Utils.txWithGasAdjustment fuel chain price retryOpts with
      | None => None
      | Some run =>
          match Utils.txReceipt run, Utils.txErr run with
          | Some r, None => Some (Utils.mkTxRun (Some r) None (Utils.sent run))
          | _, e => Some (Utils.mkTxRun None (Some (submitError e)) (Utils.sent run))
          end
      end
  end.

(** The method [waitForReceipt(txHash, opts)] of the uploader: defaults
    only for an undefined [opts]; with an undefined [Retries] the loop
    test is false, with an undefined [Interval] the delay is [NaN]
    ([None]). *)
Definition waitForReceipt (provider : nat -> option TxReceipt.t)
    (opts : option RetryOpts.t) : Utils.Polled (option Z) :=
  let o := match opts with
           | None => RetryOpts.mk (Some 10) (Some 5) (Some 0) None
           | Some o => o
           end in
  Utils.pollLoop provider (option_map (fun i => i * 1000) (RetryOpts.Interval o))
    (match RetryOpts.Retries o with Some r => Z.to_nat r | None => O end) O.

(** [nextSgmentIndex(config, startIndex)]:
    [Math.floor((startIndex + numShard - 1 - shardId) / numShard)
     * numShard + shardId], the additions and subtractions from left to
    right. *)
Definition nextSgmentIndex (config : ShardConfig.t) (startIndex : Z) : Z :=
  let numShard := inject_Z (ShardConfig.numShard config) in
  let shardId := inject_Z (ShardConfig.shardId config) in
  if ShardConfig.numShard config <? 2 then startIndex
  else
    JS.integer
      (JS.fadd
         (JS.fmul
            (inject_Z
               (JS.Math_floor
                  (JS.fdiv
                     (JS.fsub (JS.fsub (JS.fadd (inject_Z startIndex) numShard) 1)
                        shardId)
                     numShard)))
            numShard)
         shardId).

(** *** Task planning *)

(** The loop [while (segIndex <= endSegmentIndex)] for one node.  Its
    step [numShard * taskSize] may be zero or negative, and the loop then
    never ends: [fuel] bounds the iterations, [None] is out of fuel. *)
Fixpoint nodeTasks (fuel : nat) (clientIndex : nat) (shardConfig : ShardConfig.t)
    (taskSize txSeq startSegmentIndex endSegmentIndex segIndex : Z)
  : option (list UploadTask.t) :=
  if segIndex <=? endSegmentIndex then
    match fuel with
    | O => None
    | S fuel' =>
        match nodeTasks fuel' clientIndex shardConfig taskSize txSeq
                startSegmentIndex endSegmentIndex
                (segIndex + ShardConfig.numShard shardConfig * taskSize) with
        | Some tasks =>
            Some (UploadTask.mk clientIndex taskSize
                    (segIndex - startSegmentIndex)
                    (ShardConfig.numShard shardConfig) txSeq :: tasks)
        | None => None
        end
    end
  else Some [].

(** [cInfo !== null && cInfo.finalized] *)
Definition alreadyFinalized (cInfo : option FileInfo.t) : bool :=
  match cInfo with Some i => FileInfo.finalized i | None => false end.

(** The loop over [clientIndex]: the per-node task lists [uploadTasks],
    in node order, empty lists left out.  [getFileInfo i] is the answer
    of [this.nodes[i].getFileInfo(tree.rootHash(), true)]. *)
Fixpoint perNodeTasks (fuel : nat) (getFileInfo : nat -> option FileInfo.t)
    (taskSize txSeq startSegmentIndex endSegmentIndex : Z)
    (clientIndex : nat) (shardConfigs : list ShardConfig.t)
  : option (list (list UploadTask.t)) :=
  match shardConfigs with
  | [] => Some []
  | shardConfig :: rest =>
      if alreadyFinalized (getFileInfo clientIndex) then
        perNodeTasks fuel getFileInfo taskSize txSeq startSegmentIndex
          endSegmentIndex (S clientIndex) rest
      else
        match nodeTasks fuel clientIndex shardConfig taskSize txSeq
                startSegmentIndex endSegmentIndex
                (nextSgmentIndex shardConfig startSegmentIndex) with
        | None => None
        | Some tasks =>
            match perNodeTasks fuel getFileInfo taskSize txSeq
                    startSegmentIndex endSegmentIndex (S clientIndex) rest with
            | None => None
            | Some uploadTasks =>
                Some (if (0 <? Z.of_nat (List.length tasks))
                      then tasks :: uploadTasks else uploadTasks)
            end
        end
  end.

(** [uploadTasks.sort((a, b) => a.length - b.length)]: a stable sort by
    ascending length. *)
Fixpoint insertByLength {A : Type} (l : list A) (sorted : list (list A))
  : list (list A) :=
  match sorted with
  | [] => [l]
  | h :: t =>
      if (List.length h <=? List.length l)%nat then h :: insertByLength l t
      else l :: h :: t
  end.

Definition sortByLength {A : Type} (ls : list (list A)) : list (list A) :=
  fold_left (fun sorted l => insertByLength l sorted) ls [].

(** The inner loop [for (i = 0; i < uploadTasks.length && taskIndex <
    uploadTasks[i].length; i += 1)]: it stops at the first list that has
    no element [taskIndex]. *)
Fixpoint round {A : Type} (taskIndex : nat) (uploadTasks : list (list A)) : list A :=
  match uploadTasks with
  | [] => []
  | l :: rest =>
      match nth_error l taskIndex with
      | Some task => task :: round taskIndex rest
      | None => []
      end
  end.

(** The outer loop [for (taskIndex = 0; taskIndex <
    uploadTasks[0].length; taskIndex += 1)]. *)
Definition roundRobin {A : Type} (uploadTasks : list (list A)) : list A :=
  match uploadTasks with
  | [] => []
  | first :: _ =>
      flat_map (fun taskIndex => round taskIndex uploadTasks)
               (seq 0 (List.length first))
  end.

(** [splitTasks(info, tree, opts)].  [shardConfigs] is what
    [getShardConfigs(this.nodes)] resolved to, [checkReplica] the imported
    replica test.  The result is [null] ([Some None]) or the flat task
    list. *)
Definition splitTasks (c : Constants) (fuel : nat)
    (checkReplica : list ShardConfig.t -> Z -> bool)
    (shardConfigs : option (list ShardConfig.t))
    (getFileInfo : nat -> option FileInfo.t)
    (info : FileInfo.t) (opts : UploadOption.t)
  : option (option (list UploadTask.t)) :=
  match shardConfigs with
  | None => Some None
  | Some shardConfigs =>
      if negb (checkReplica shardConfigs (UploadOption.expectedReplica opts))
      then Some None
      else
        let txSeq := FileInfo.seq (FileInfo.tx info) in
        let '(startSegmentIndex, endSegmentIndex) :=
          Utils.SegmentRange c (FileInfo.startEntryIndex (FileInfo.tx info))
            (FileInfo.size (FileInfo.tx info)) in
        match perNodeTasks fuel getFileInfo (UploadOption.taskSize opts) txSeq
                startSegmentIndex endSegmentIndex O shardConfigs with
        | None => None
        | Some uploadTasks => Some (Some (roundRobin (sortByLength uploadTasks)))
        end
  end.

(** *** Reading one segment *)

(** [startIndex + segment.length / DEFAULT_CHUNK_SIZE >= numChunks], on
    the exact quotient; [reachesEnd_in_doubles] relates it to the rounded
    one. *)
Definition reachesEnd (c : Constants) (startIndex : Z) (segment : list Byte.byte)
    (numChunks : Z) : bool :=
  Qle_bool (inject_Z numChunks)
    (inject_Z startIndex
     + JS.div (Z.of_nat (List.length segment)) (DEFAULT_CHUNK_SIZE c))%Q.

(** [getSegment(file, tree, segIndex)]: the triple [[allDataUploaded,
    segWithProof, err]].  [encodeBase64] is the encoder of [ethers]. *)
Definition getSegment (c : Constants) (encodeBase64 : list Byte.byte -> string)
    (file : ZgFile.t) (tree : MerkleTree.t) (segIndex : Z)
  : bool * option SegWithProof.t * option JS.Thrown :=
  let numChunks := ZgFile.numChunks file in
  let startSegIndex := segIndex * DEFAULT_SEGMENT_MAX_CHUNKS c in
  if numChunks <=? startSegIndex then (true, None, None)
  else
    match ZgFile.iterateWithOffsetAndBatch file
            (segIndex * DEFAULT_SEGMENT_SIZE c) (DEFAULT_SEGMENT_SIZE c) with
    | ReadFail err => (false, None, err)
    | ReadOk segment =>
        let startIndex := segIndex * DEFAULT_SEGMENT_MAX_CHUNKS c in
        let '(segment, allDataUploaded) :=
          if reachesEnd c startIndex segment numChunks then
            let expectedLen := DEFAULT_CHUNK_SIZE c * (numChunks - startIndex) in
            (JS.slice0 segment expectedLen, true)
          else (segment, false) in
        (allDataUploaded,
         Some (SegWithProof.mk (MerkleTree.rootHash tree) (encodeBase64 segment)
                 segIndex (MerkleTree.proofAt tree segIndex) (ZgFile.size file)),
         None)
    end.

(** *** Uploading one task *)

(** [isAlreadyUploadedError(error)] *)
Definition isAlreadyUploadedError (error : JS.Thrown) : bool :=
  match error with
  | JS.VError e =>
      match JS.data e with
      | Some (JS.DString d) =>
          JS.includes "already uploaded and finalized" d
          || (JS.includes "Invalid params" (JS.message e)
              && String.eqb d "already uploaded and finalized")
      | _ => false
      end
  | JS.VOther _ => false
  end.

(** [isRetryableError(error)] *)
Definition isRetryableError (error : JS.Thrown) : bool :=
  match error with
  | JS.VError e =>
      JS.includes "too many data writing" (JS.message e)
      || JS.includes "returned null for upload segments" (JS.message e)
      || match JS.data e with
         | Some (JS.DObject (Some m)) => JS.includes "too many data writing" m
         | _ => false
         end
  | JS.VOther _ => false
  end.

(** [error instanceof Error ? error.message : String(error)] *)
Definition errorMessage (error : JS.Thrown) : string :=
  match error with
  | JS.VError e => JS.message e
  | JS.VOther s => s
  end.

(** What [uploadTask] returns: the node's acknowledgement (or [0]), or
    an error value. *)
Inductive TaskResult : Type :=
| Returned (res : Z)
| ReturnedError (t : JS.Thrown).

(** The result with the number of [uploadSegmentsByTxSeq] calls made and
    the back-off sleeps, in milliseconds. *)
Record TaskRun : Type := mkTaskRun {
  result : TaskResult;
  attempts : nat;
  sleeps : list Z
}.

Definition retriedAfter (waitTime : Z) (r : option TaskRun) : option TaskRun :=
  match r with
  | Some run => Some (mkTaskRun (result run) (S (attempts run)) (waitTime :: sleeps run))
  | None => None
  end.

(** The first loop of [uploadTask]: up to [taskSize] segments, [numShard]
    apart; [n] is the number of iterations left. *)
Fixpoint collectSegments (c : Constants) (encodeBase64 : list Byte.byte -> string)
    (file : ZgFile.t) (tree : MerkleTree.t) (numShard : Z) (n : nat) (segIndex : Z)
  : JS.Thrown + list SegWithProof.t :=
  match n with
  | O => inr []
  | S n' =>
      let '(allDataUploaded, segWithProof, err) :=
        getSegment c encodeBase64 file tree segIndex in
      match err with
      | Some e => inl e
      | None =>
          let pushed := match segWithProof with Some s => [s] | None => [] end in
          if allDataUploaded then inr pushed
          else
            match collectSegments c encodeBase64 file tree numShard n'
                    (segIndex + numShard) with
            | inl e => inl e
            | inr segments => inr (pushed ++ segments)
            end
      end
  end.

(** [retryOpts?.TooManyDataRetries ?? 3] *)
Definition maxRetriesOf (retryOpts : option RetryOpts.t) : Z :=
  match retryOpts with
  | Some o => match RetryOpts.TooManyDataRetries o with Some n => n | None => 3 end
  | None => 3
  end.

(** [retryOpts?.Interval ?? 3] *)
Definition intervalOf (retryOpts : option RetryOpts.t) : Z :=
  match retryOpts with
  | Some o => match RetryOpts.Interval o with Some n => n | None => 3 end
  | None => 3
  end.

(** The loop [while (attempt < maxRetries)].  Every iteration returns or
    increments [attempt]; [fuel] bounds the iterations. *)
Fixpoint uploadLoop (fuel : nat) (node : StorageNode.t)
    (segments : list SegWithProof.t) (txSeq : Z)
    (retryOpts : option RetryOpts.t) (maxRetries attempt : Z) (calls : nat)
    (lastError : option JS.Thrown) : option TaskRun :=
  if attempt <? maxRetries then
    match fuel with
    | O => None
    | S fuel' =>
        let thrown :=
          match StorageNode.uploadSegmentsByTxSeq node calls segments txSeq with
          | UploadResolves (Some res) => inl res
          | UploadResolves None =>
              inr (JS.VError (JS.newError
                     ("Node " ++ StorageNode.url node
                      ++ " returned null for upload segments")))
          | UploadRejects t => inr t
          end in
        match thrown with
        | inl res => Some (mkTaskRun (Returned res) 1 [])
        | inr error =>
            if isAlreadyUploadedError error then
              Some (mkTaskRun (Returned 0) 1 [])
            else if isRetryableError error then
              if attempt <? maxRetries - 1 then
                let waitTime := intervalOf retryOpts * 1000 * (attempt + 1) in
                retriedAfter waitTime
                  (uploadLoop fuel' node segments txSeq retryOpts maxRetries
                     (attempt + 1) (S calls) (Some error))
              else
                Some (mkTaskRun
                  (ReturnedError (JS.VError (JS.newError
                     ("Failed after " ++ JS.showZ maxRetries ++ " attempts: "
                      ++ errorMessage error)))) 1 [])
            else Some (mkTaskRun (ReturnedError error) 1 [])
        end
    end
  else
    Some (mkTaskRun
      (ReturnedError
         match lastError with
         | Some e => e
         | None =>
             JS.VError (JS.newError
               ("Upload failed after " ++ JS.showZ maxRetries
                ++ " attempts to node " ++ StorageNode.url node))
         end) 0 []).

(** [uploadTask(file, tree, uploadTask, retryOpts)], [node] being
    [this.nodes[uploadTask.clientIndex]]. *)
Definition uploadTask (c : Constants) (encodeBase64 : list Byte.byte -> string)
    (node : StorageNode.t) (file : ZgFile.t) (tree : MerkleTree.t)
    (uploadTask : UploadTask.t) (retryOpts : option RetryOpts.t) : option TaskRun :=
  match collectSegments c encodeBase64 file tree (UploadTask.numShard uploadTask)
          (Z.to_nat (UploadTask.taskSize uploadTask))
          (UploadTask.segIndex uploadTask) with
  | inl err => Some (mkTaskRun (ReturnedError err) 0 [])
  | inr segments =>
      let maxRetries := maxRetriesOf retryOpts in
      uploadLoop (Z.to_nat maxRetries) node segments (UploadTask.txSeq uploadTask)
        retryOpts maxRetries 0 O None
  end.

(** *** Looking for the file on the nodes *)

(** The answer of a node to [getFileInfo(rootHash, false)]: it resolves
    to a record or to [null], or it rejects. *)
Inductive Lookup : Type :=
| LookupResolves (info : option FileInfo.t)
| LookupRejects.

(** [findExistingFileInfo(rootHash)] over the answers the nodes would
    give, in the order of [this.nodes]: the record found, and the number of
    nodes asked. *)
Fixpoint findExistingFileInfo (answers : list Lookup) : option FileInfo.t * nat :=
  match answers with
  | [] => (None, O)
  | LookupResolves (Some info) :: _ => (Some info, 1%nat)
  | _ :: rest =>
      let '(found, asked) := findExistingFileInfo rest in (found, S asked)
  end.

(** *** The sequence numbers in a receipt *)

(** What [this.flow.interface.parseLog(log)] does with a log: it throws,
    returns [null], or returns the event with its name and, for a [Submit]
    event, [Number(args.submissionIndex)]. *)
Inductive ParsedLog : Type :=
| ParseThrows
| ParseNull
| Parsed (name : string) (submissionIndex : Z).

Record Log : Type := mkLog {
  address : string;
  topics : list string;
  parseLog : ParsedLog
}.

(** [toLowerCase] on a character and on a string of ASCII characters,
    which is what an address is. *)
Definition lowerAscii (ch : ascii) : ascii :=
  let n := nat_of_ascii ch in
  if ((65 <=? n) && (n <=? 90))%nat then ascii_of_nat (n + 32) else ch.

Fixpoint toLowerCase (s : string) : string :=
  match s with
  | EmptyString => EmptyString
  | String ch rest => String (lowerAscii ch) (toLowerCase rest)
  end.

(** [processLogs(receipt)], [logs] being [receipt.logs], [flowAddress] what
    [this.flow.getAddress()] resolves to and [topicHash] the topic of the
    [Submit] event. *)
Fixpoint processLogs (flowAddress topicHash : string) (logs : list Log) : list Z :=
  match logs with
  | [] => []
  | log :: rest =>
      let txSeqs := processLogs flowAddress topicHash rest in
      if negb (String.eqb (toLowerCase (address log)) (toLowerCase flowAddress))
      then txSeqs
      else if match hd_error (topics log) with
              | Some topic => negb (String.eqb topic topicHash)
              | None => true
              end
      then txSeqs
      else
        match parseLog log with
        | Parsed name submissionIndex =>
            if String.eqb name "Submit" then submissionIndex :: txSeqs else txSeqs
        | _ => txSeqs
        end
  end.

(** *** Waiting for the log entry *)

(** The loop over the nodes inside one round of [waitForLogEntry]:
    [answers] is what [getFileInfoByTxSeq(txSeq)] resolves to on each node,
    in order; the result is the flag [ok] and the variable [info] when the
    loop is left. *)
Fixpoint scanNodes (finalityRequired : bool) (answers : list (option FileInfo.t))
    (info : option FileInfo.t) : bool * option FileInfo.t :=
  match answers with
  | [] => (true, info)
  | None :: _ => (false, None)
  | Some i :: rest =>
      if finalityRequired && negb (FileInfo.finalized i) then (false, Some i)
      else scanNodes finalityRequired rest (Some i)
  end.

(** The loop [while (true)] of [waitForLogEntry]: [rounds r] holds the
    answers of the nodes in round [r].  The loop has no bound: [fuel]
    limits the rounds, [None] is out of fuel.  The result is [info] and the
    number of rounds, each begun by a sleep of one second. *)
Fixpoint waitLoop (fuel : nat) (rounds : nat -> list (option FileInfo.t))
    (finalityRequired : bool) (round : nat) (info : option FileInfo.t)
  : option (option FileInfo.t * nat) :=
  match fuel with
  | O => None
  | S fuel' =>
      let '(ok, info') := scanNodes finalityRequired (rounds round) info in
      if ok then Some (info', S round)
      else waitLoop fuel' rounds finalityRequired (S round) info'
  end.

(** [waitForLogEntry(txSeq, finalityRequired)] *)
Definition waitForLogEntry (fuel : nat) (rounds : nat -> list (option FileInfo.t))
    (finalityRequired : bool) : option (option FileInfo.t * nat) :=
  waitLoop fuel rounds finalityRequired O None.

(** *** The whole upload *)

(** [processTasksInParallel(file, tree, tasks, retryOpts)]: one
    [uploadTask] per task, the results in the order of the tasks.
    [nodes i] is [this.nodes[i]]. *)
Definition processTasksInParallel (c : Constants)
    (encodeBase64 : list Byte.byte -> string) (nodes : nat -> StorageNode.t)
    (file : ZgFile.t) (tree : MerkleTree.t) (tasks : list UploadTask.t)
    (retryOpts : option RetryOpts.t) : list (option TaskRun) :=
  map (fun task =>
         uploadTask c encodeBase64 (nodes (UploadTask.clientIndex task)) file tree
           task retryOpts) tasks.

(** The first result that is an [Error] instance, as the loop over
    [results] finds it. *)
Fixpoint firstError (results : list TaskRun) : option JS.Thrown :=
  match results with
  | [] => None
  | run :: rest =>
      match result run with
      | ReturnedError (JS.VError e) => Some (JS.VError e)
      | _ => firstError rest
      end
  end.

(** All task runs, when each of them returned. *)
Fixpoint allRuns (results : list (option TaskRun)) : option (list TaskRun) :=
  match results with
  | [] => Some []
  | Some run :: rest =>
      match allRuns rest with Some runs => Some (run :: runs) | None => None end
  | None :: _ => None
  end.

(** What the ledger, the nodes and the file answer during one
    [uploadFile] call. *)
Record Network : Type := mkNetwork {
  (** [file.merkleTree()]: the tree and the error *)
  merkleTree : option MerkleTree.t * option JS.Thrown;
  (** the answers to [getFileInfo(rootHash, false)], node by node *)
  existing : list Lookup;
  (** [file.createSubmission(opts.tags)] gave a submission and no error *)
  submissionCreated : bool;
  (** [this.gasPrice] and the gas price the provider suggests *)
  ownGasPrice : Z;
  suggestedGasPrice : option Z;
  (** the outcome of submission [k] at a gas price *)
  chain : nat -> Z -> SendOutcome;
  (** [receipt.logs], the address of the flow contract, the [Submit] topic *)
  logsOf : TxReceipt.t -> list Log;
  flowAddress : string;
  submitTopic : string;
  (** the rounds of the wait for the log entry and of the wait for finality *)
  entryRounds : Z -> nat -> list (option FileInfo.t);
  finalityRounds : Z -> nat -> list (option FileInfo.t);
  (** [getShardConfigs(this.nodes)] and the imported [checkReplica] *)
  shardConfigs : option (list ShardConfig.t);
  checkReplica : list ShardConfig.t -> Z -> bool;
  (** the answers to [getFileInfo(rootHash, true)], by node index *)
  nodeFileInfo : nat -> option FileInfo.t;
  (** [this.nodes[i]], for the uploads *)
  nodes : nat -> StorageNode.t
}.

(** What an [uploadFile] call returned and did: the pair
    [[{txHash, rootHash}, err]], the gas prices of the submissions, the
    runs of the upload tasks, and the number of rounds of the final wait
    when it was made. *)
Record FileUpload : Type := mkFileUpload {
  txHash : string;
  rootHash : string;
  err : option JS.Thrown;
  submitted : list Z;
  taskRuns : list TaskRun;
  finalityWait : option nat
}.

(** How the promise of [uploadFile] settles: it resolves to its pair, or
    rejects with the [TypeError] of reading [hash] from a null receipt. *)
Inductive Settled : Type :=
| Fulfilled (upload : FileUpload)
| RejectedTypeError.

(** [uploadFile(file, opts, retryOpts)], [skipTx] being [opts.skipTx].
    [None] when one of its loops runs out of fuel. *)
Definition uploadFile (c : Constants) (encodeBase64 : list Byte.byte -> string)
    (fuel : nat) (net : Network) (file : ZgFile.t) (skipTx : bool)
    (opts : UploadOption.t) (retryOpts : option RetryOpts.t) : option Settled :=
  match merkleTree net with
  | (Some tree, None) =>
      let rootHash := MerkleTree.rootHash tree in
      let afterSubmission (txHash : string) (submitted : list Z)
          (info : option FileInfo.t) (retryOpts : option RetryOpts.t) :=
        match info with
        | None =>
            Some (Fulfilled (mkFileUpload txHash rootHash
                    (Some (JS.VError (JS.newError "Failed to get log entry")))
                    submitted [] None))
        | Some info =>
            match splitTasks c fuel (checkReplica net) (shardConfigs net)
                    (nodeFileInfo net) info opts with
            | None => None
            | Some None =>
                Some (Fulfilled (mkFileUpload txHash rootHash
                        (Some (JS.VError (JS.newError "Failed to get upload tasks")))
                        submitted [] None))
            | Some (Some []) =>
                Some (Fulfilled (mkFileUpload txHash rootHash None submitted [] None))
            | Some (Some tasks) =>
                match allRuns (processTasksInParallel c encodeBase64 (nodes net)
                                 file tree tasks retryOpts) with
                | None => None
                | Some results =>
                    match firstError results with
                    | Some e =>
                        Some (Fulfilled (mkFileUpload txHash rootHash (Some e)
                                           submitted results None))
                    | None =>
                        match waitForLogEntry fuel
                                (finalityRounds net (FileInfo.seq (FileInfo.tx info)))
                                true with
                        | None => None
                        | Some (_, rounds) =>
                            Some (Fulfilled (mkFileUpload txHash rootHash None
                                               submitted results (Some rounds)))
                        end
                    end
                end
            end
        end in
      let info := fst (findExistingFileInfo (existing net)) in
      if negb skipTx || match info with None => true | Some _ => false end then
        if negb (submissionCreated net) then
          Some (Fulfilled (mkFileUpload EmptyString rootHash
                  (Some (JS.VError (JS.newError "Failed to create submission")))
                  [] [] None))
        else
          match submitTransaction fuel (ownGasPrice net) (suggestedGasPrice net)
                  (chain net) retryOpts with
          | None => None
          | Some run =>
              match Utils.txErr run, Utils.txReceipt run with
              | Some txErr, _ =>
                  Some (Fulfilled (mkFileUpload EmptyString rootHash (Some txErr)
                                     (Utils.sent run) [] None))
              | None, None => Some RejectedTypeError
              | None, Some receipt =>
                  match processLogs (flowAddress net) (submitTopic net)
                          (logsOf net receipt) with
                  | [] =>
                      Some (Fulfilled (mkFileUpload EmptyString rootHash
                              (Some (JS.VError (JS.newError "Failed to get txSeqs")))
                              (Utils.sent run) [] None))
                  | txSeq :: _ =>
                      match waitForLogEntry fuel (entryRounds net txSeq) false with
                      | None => None
                      | Some (info, _) =>
                          (* the caller's retry options as the submission
                             left them: the tasks receive the same object *)
                          let written :=
                            match startGasPrice (ownGasPrice net)
                                    (suggestedGasPrice net) with
                            | Some price =>
                                Utils.retryOptsAfterTx fuel (chain net) price retryOpts
                            | None => retryOpts
                            end in
                          afterSubmission (TxReceipt.hash receipt) (Utils.sent run)
                            info written
                      end
                  end
              end
          end
      else afterSubmission EmptyString [] info retryOpts
  | _ =>
      Some (Fulfilled (mkFileUpload EmptyString EmptyString
              (Some (JS.VError (JS.newError "Failed to create Merkle tree")))
              [] [] None))
  end.

End Uploader.

(** * Vocabulary of the statements and example scenarios *)

(** The provider that answers [null] wherever the given one answers a
    receipt whose status is not 1. *)
Definition missingWhenReverted (provider : nat -> option TxReceipt.t)
  : nat -> option TxReceipt.t :=
  fun k => if Utils.accepted (provider k) then provider k else None.

(** A field of the caller's retry options, [undefined] when the options
    themselves are. *)
Definition optField (f : RetryOpts.t -> option Z) (opts : option RetryOpts.t) : option Z :=
  match opts with Some o => f o | None => None end.

(** [(BigInt(11) * BigInt(price)) / BigInt(10)] *)
Definition escalate (price : Z) : Z := Z.quot (11 * price) 10.

(** The gas price of submission number [k] when the first one is made at
    [gasPrice]. *)
Definition priceAt (gasPrice : Z) (k : nat) : Z := Nat.iter k escalate gasPrice.

(** What submission [k], made at [price], yields under the caller's retry
    options: a receipt or the value thrown. *)
Definition attempt (chain : nat -> Z -> SendOutcome) (retryOpts : option RetryOpts.t)
    (k : nat) (price : Z) : TxReceipt.t + JS.Thrown :=
  fst (Utils.trySend (chain k price) retryOpts).

(** Submission [k] at [price] fails with an error classified as a timeout. *)
Definition timesOut (chain : nat -> Z -> SendOutcome) (retryOpts : option RetryOpts.t)
    (k : nat) (price : Z) : Prop :=
  exists e, attempt chain retryOpts k price = inr e /\ Utils.isTimeout e = true.

(** The error of submission [k], if it failed. *)
Definition errorOf (chain : nat -> Z -> SendOutcome) (retryOpts : option RetryOpts.t)
    (k : nat) (price : Z) : option JS.Thrown :=
  match attempt chain retryOpts k price with inr e => Some e | inl _ => None end.

(** The caller supplied a maximum gas price: [retryOpts] is defined and
    its [MaxGasPrice] is positive. *)
Definition suppliedMax (retryOpts : option RetryOpts.t) : option Z :=
  match optField RetryOpts.MaxGasPrice retryOpts with
  | Some m => if 0 <? m then Some m else None
  | None => None
  end.

(** The reading of C2 under which every timeout is followed by a retry at
    the escalated price unless a supplied maximum forbids it. *)
Definition retries_every_timeout_within_supplied_max : Prop :=
  forall (chain : nat -> Z -> SendOutcome) (gasPrice : Z)
         (retryOpts : option RetryOpts.t) (fuel : nat) (run : Utils.TxRun) (k : nat),
    Utils.txWithGasAdjustment fuel chain gasPrice retryOpts = Some run ->
    nth_error (Utils.sent run) k = Some (priceAt gasPrice k) ->
    timesOut chain retryOpts k (priceAt gasPrice k) ->
    (forall m, suppliedMax retryOpts = Some m -> priceAt gasPrice (S k) <= m) ->
    nth_error (Utils.sent run) (S k) = Some (priceAt gasPrice (S k)).

(** The value the [try] block of [uploadTask] throws on an answer of the
    node, if it throws. *)
Definition thrownOn (node : StorageNode.t) (answer : UploadAnswer) : option JS.Thrown :=
  match answer with
  | UploadResolves (Some _) => None
  | UploadResolves None =>
      Some (JS.VError (JS.newError
              ("Node " ++ StorageNode.url node ++ " returned null for upload segments")))
  | UploadRejects t => Some t
  end.

(** The three-way classification of the [catch] block, in its order. *)
Inductive ErrorClass : Type := AlreadyUploaded | Retryable | NonRetryable.

Definition classify (error : JS.Thrown) : ErrorClass :=
  if Uploader.isAlreadyUploadedError error then AlreadyUploaded
  else if Uploader.isRetryableError error then Retryable
  else NonRetryable.

(** The answer makes the attempt fail with a retryable error. *)
Definition failsRetryably (node : StorageNode.t) (answer : UploadAnswer) : Prop :=
  exists e, thrownOn node answer = Some e /\ classify e = Retryable.

(** *** A small upload scenario:
    chunks of 2 bytes, segments of 2 chunks; a one-chunk file read as a
    padded 4-byte window; a node that reports congestion, then acknowledges
    with [null], then accepts. *)

Definition tinyConstants : Constants := Build_Constants 2 2 4.

Definition tinyFile : ZgFile.t :=
  ZgFile.mk 1 2 (fun _ _ => ReadOk [Byte.x61; Byte.x62; Byte.x00; Byte.x00]).

Definition tinyTree : MerkleTree.t := MerkleTree.mk "0xroot" (fun _ => []).

Definition tinyTask : UploadTask.t := UploadTask.mk 0 1 0 1 7.

Definition tinySegments : list SegWithProof.t :=
  [SegWithProof.mk "0xroot" "ab" 0 [] 2].

Definition busyTwiceNode : StorageNode.t :=
  StorageNode.mk "http://node0"
    (fun k _ _ =>
       match k with
       | O => UploadRejects (JS.VError (JS.newError "too many data writing"))
       | S O => UploadResolves None
       | _ => UploadResolves (Some 1)
       end).

Definition finalizedNode : StorageNode.t :=
  StorageNode.mk "http://node1"
    (fun _ _ _ =>
       UploadRejects (JS.VError (JS.mkError "Invalid params"
                                   (Some (JS.DString "already uploaded and finalized"))))).

(** C4 as stated, for every retry option. *)
Definition already_uploaded_gives_one_attempt : Prop :=
  forall (c : Constants) (encodeBase64 : list Byte.byte -> string)
         (node : StorageNode.t) (file : ZgFile.t) (tree : MerkleTree.t)
         (task : UploadTask.t) (retryOpts : option RetryOpts.t),
    (forall k segments txSeq,
        exists e, StorageNode.uploadSegmentsByTxSeq node k segments txSeq = UploadRejects e
                  /\ Uploader.isAlreadyUploadedError e = true) ->
    exists res,
      Uploader.uploadTask c encodeBase64 node file tree task retryOpts
      = Some (Uploader.mkTaskRun (Uploader.Returned res) 1 []).

(** *** A two-node planning scenario:
    two nodes sharing the segments by parity ([numShard = 2], shard ids 0
    and 1), a file of three segments (segment indices 0 to 2), one segment
    per task. *)

Definition twoShards : list ShardConfig.t := [ShardConfig.mk 0 2; ShardConfig.mk 1 2].

Definition threeSegmentsInfo : FileInfo.t :=
  FileInfo.mk (FileInfo.mkTx 7 0 (3 * 1024 * 256)) false.

Definition oneSegmentTasks : UploadOption.t := UploadOption.mk 1 1.

Definition anyReplica : list ShardConfig.t -> Z -> bool := fun _ _ => true.

(** The task of node [clientIndex] for the segment [segIndex]. *)
Definition taskFor (clientIndex : nat) (segIndex : Z) : UploadTask.t :=
  UploadTask.mk clientIndex 1 segIndex 2 7.

(** Node 1 answers the lookup with a finalized record, node 0 with none. *)
Definition secondFinalized : nat -> option FileInfo.t :=
  fun i => match i with
           | S O => Some (FileInfo.mk (FileInfo.mkTx 7 0 (3 * 1024 * 256)) true)
           | _ => None
           end.

(** Lists in ascending order of length, as [sortByLength] leaves them. *)
Definition ascendingLength {A : Type} : list (list A) -> Prop :=
  StronglySorted (fun a b => (List.length a <= List.length b)%nat).

(** The back-off sleeps of [n] retries that follow attempt number
    [attempt] (counted from 0): the interval, in milliseconds, times the
    number of the failed attempt. *)
Definition backoff (interval attempt : Z) (n : nat) : list Z :=
  map (fun j => interval * 1000 * (attempt + 1 + Z.of_nat j)) (seq 0 n).

(** The error [uploadTask] builds when its retries are used up. *)
Definition failedAfter (maxRetries : Z) (error : JS.Thrown) : JS.Thrown :=
  JS.VError (JS.newError
    ("Failed after " ++ JS.showZ maxRetries ++ " attempts: "
     ++ Uploader.errorMessage error)).

(** A node that reports congestion once and then rejects the segments
    for good. *)
Definition refusingNode : StorageNode.t :=
  StorageNode.mk "http://node2"
    (fun k _ _ =>
       match k with
       | O => UploadRejects (JS.VError (JS.newError "too many data writing"))
       | _ => UploadRejects (JS.VError (JS.newError "segment proof is invalid"))
       end).

(** A node that reports congestion on every call. *)
Definition alwaysBusyNode : StorageNode.t :=
  StorageNode.mk "http://node3"
    (fun _ _ _ => UploadRejects (JS.VError (JS.newError "too many data writing"))).

(** A file whose second window cannot be read: three chunks, so two
    segments under [tinyConstants]. *)
Definition brokenFile : ZgFile.t :=
  ZgFile.mk 3 6
    (fun offset _ =>
       if offset =? 0 then ReadOk [Byte.x61; Byte.x62; Byte.x63; Byte.x64]
       else ReadFail (Some (JS.VError (JS.newError "read failed")))).

(** A task of two segments, one shard. *)
Definition twoSegmentTask : UploadTask.t := UploadTask.mk 0 2 0 1 7.

(** The number of iterations of the per-node loop that starts at segment
    [first] and advances by [step] up to [endSegmentIndex]. *)
Definition taskCount (first endSegmentIndex step : Z) : nat :=
  if first <=? endSegmentIndex then Z.to_nat ((endSegmentIndex - first) / step + 1)
  else O.

(** The task the per-node loop pushes in its iteration [k]. *)
Definition plannedTask (clientIndex : nat) (shardConfig : ShardConfig.t)
    (taskSize txSeq startSegmentIndex first : Z) (k : nat) : UploadTask.t :=
  UploadTask.mk clientIndex taskSize
    (first + Z.of_nat k * (ShardConfig.numShard shardConfig * taskSize)
     - startSegmentIndex)
    (ShardConfig.numShard shardConfig) txSeq.

(** The task, planned from [startSegmentIndex], uploads the segment with
    the absolute index [s]: [uploadTask] reads [taskSize] segments, each
    [numShard] after the other, from the task's index. *)
Definition covers (startSegmentIndex : Z) (t : UploadTask.t) (s : Z) : Prop :=
  exists j, 0 <= j < UploadTask.taskSize t
    /\ s = startSegmentIndex + UploadTask.segIndex t + j * UploadTask.numShard t.

(** The answer is a record: the node has the file. *)
Definition foundRecord (a : Uploader.Lookup) : bool :=
  match a with
  | Uploader.LookupResolves (Some _) => true
  | _ => false
  end.

(** Every node answered the round with a log entry, finalized when
    finality is required. *)
Definition roundComplete (finalityRequired : bool)
    (answers : list (option FileInfo.t)) : bool :=
  forallb (fun a => match a with
                    | Some i => negb (finalityRequired && negb (FileInfo.finalized i))
                    | None => false
                    end) answers.

(** The task run did not return an [Error] instance. *)
Definition notAnError (run : Uploader.TaskRun) : Prop :=
  forall e, Uploader.result run <> Uploader.ReturnedError (JS.VError e).

(** *** An upload scenario:
    the one-chunk file of the small scenario, a single node with a single
    shard that does not know the file yet; the first submission at gas
    price 100 is mined with a receipt of status 1 that carries one [Submit]
    log with sequence number 7; the node has the log entry from the first
    round on and reports it finalized in the final wait. *)

Definition demoReceipt : TxReceipt.t := TxReceipt.mk "0xabc" (Some 1).

Definition demoEntry (finalized : bool) : FileInfo.t :=
  FileInfo.mk (FileInfo.mkTx 7 0 2) finalized.

Definition demoNetwork (node : StorageNode.t) (existing : list Uploader.Lookup)
  : Uploader.Network :=
  Uploader.mkNetwork
    (Some tinyTree, None)
    existing
    true
    100 None
    (fun _ _ => Mined "0xabc" (fun _ => Some demoReceipt))
    (fun _ => [Uploader.mkLog "0xF10A" ["0x5b"%string] (Uploader.Parsed "Submit" 7)])
    "0xf10a" "0x5b"
    (fun _ _ => [Some (demoEntry false)])
    (fun _ _ => [Some (demoEntry true)])
    (Some [ShardConfig.mk 0 1])
    anyReplica
    (fun _ => None)
    (fun _ => node).

(** ** Numbers on a binary grid

    [within x lo hi t]: the number [x] lies between [lo / 2 ^ t] and
    [hi / 2 ^ t]; [holds x a]: it is the integer [a]. *)
Definition within (x : Q) (lo hi t : Z) : Prop :=
  lo * Zpos (Qden x) <= Qnum x * 2 ^ t /\ Qnum x * 2 ^ t <= hi * Zpos (Qden x).

Definition holds (x : Q) (a : Z) : Prop := within x a a 0.

(** The ceiling reading of [GetSplitNum] for every positive [total] and
    [unit]. *)
Definition ceiling_for_all_positive : Prop :=
  forall total unit : Z,
    1 <= total -> 1 <= unit ->
    Utils.GetSplitNum total unit = (total - 1) / unit + 1
    /\ total <= Utils.GetSplitNum total unit * unit
    /\ (Utils.GetSplitNum total unit - 1) * unit < total.

(** [nextSgmentIndex] as the smallest index of the shard that is not
    below [fromIndex], for every shard and every index. *)
Definition smallest_for_all_indices : Prop :=
  forall shardId numShard fromIndex : Z,
    let r := Uploader.nextSgmentIndex (ShardConfig.mk shardId numShard) fromIndex in
    (2 <= numShard -> 0 <= shardId < numShard -> 0 <= fromIndex ->
       r mod numShard = shardId
       /\ fromIndex <= r
       /\ (forall r', fromIndex <= r' -> r' mod numShard = shardId -> r <= r'))
    /\ (numShard < 2 -> r = fromIndex).

(** A start one segment later moves both ends of [SegmentRange] by one,
    for every start and every size. *)
Definition shift_for_all_starts : Prop :=
  forall (c : Constants) (startChunkIndex fileSize s e : Z),
    0 < DEFAULT_SEGMENT_MAX_CHUNKS c ->
    0 <= startChunkIndex -> 1 <= fileSize ->
    Utils.SegmentRange c startChunkIndex fileSize = (s, e) ->
    Utils.SegmentRange c (startChunkIndex + DEFAULT_SEGMENT_MAX_CHUNKS c) fileSize
    = (s + 1, e + 1).

(** Case analysis on every [match] of a hypothesis about [uploadFile]. *)
Ltac break_upload H :=
  repeat match type of H with
         | context [match ?x with _ => _ end] =>
             let E := fresh "E" in destruct x eqn:E; try discriminate H
         end.

(** * Properties *)

(** ** Arithmetic of the JavaScript primitives *)

Lemma rne_bounds (p q : Z) :
  0 < q ->
  (forall L, L * q <= p -> L <= JS.rne p q)
  /\ (forall H, p <= H * q -> JS.rne p q <= H).
Proof.
  intros Hq. unfold JS.rne.
  pose proof (Z.div_mod p q ltac:(lia)) as Hdm.
  pose proof (Z.mod_pos_bound p q Hq) as Hb.
  split.
  - intros L HL. assert (L <= p / q) by nia.
    destruct (2 * (p mod q) ?= q); [destruct (Z.even (p / q))| |]; lia.
  - intros H HH.
    destruct (Z.compare_spec (2 * (p mod q)) q) as [E|E|E].
    + assert (p / q < H) by nia. destruct (Z.even (p / q)); lia.
    + assert (p / q <= H) by nia. lia.
    + assert (p / q < H) by nia. lia.
Qed.

Lemma mag_lower (n d : Z) :
  0 < n -> 0 < d -> 1 <= JS.mag n d -> d * 2 ^ (JS.mag n d - 1) <= n.
Proof.
  intros Hn Hd. unfold JS.mag. destruct (Z.leb_spec d n) as [Hle|Hgt].
  - intros _. replace (Z.log2 (n / d) + 1 - 1) with (Z.log2 (n / d)) by lia.
    assert (0 < n / d) by (apply Z.div_str_pos; lia).
    pose proof (Z.log2_spec (n / d) ltac:(lia)) as [Hlo _].
    pose proof (Z.mul_div_le n d ltac:(lia)). nia.
  - pose proof (Z.log2_nonneg ((d - 1) / n)). lia.
Qed.

Lemma flpos_within (n d lo hi t : Z) :
  0 < n -> 0 < d -> 0 <= t <= 52 -> 0 <= lo -> hi < 2 ^ 53 ->
  lo * d <= n * 2 ^ t -> n * 2 ^ t <= hi * d ->
  within (JS.flpos n d) lo hi t.
Proof.
  intros Hn Hd Ht Hlo Hhi Hlow Hupp.
  assert (Ht2 : 0 < 2 ^ t) by (apply Z.pow_pos_nonneg; lia).
  unfold JS.flpos. set (e := Z.max (JS.mag n d - 53) (-1074)).
  assert (Haligned : e + t <= 0).
  { destruct (Z.le_gt_cases (e + t) 0) as [|Hpos]; [assumption|exfalso].
    assert (He : e = JS.mag n d - 53) by lia.
    pose proof (mag_lower n d Hn Hd ltac:(lia)) as Hm.
    replace (JS.mag n d - 1) with (e + 52) in Hm by lia.
    assert (H1 : d * (2 ^ (e + 52) * 2 ^ t) <= hi * d) by nia.
    rewrite <- Z.pow_add_r in H1 by lia.
    assert (H2 : 2 ^ 53 <= 2 ^ (e + 52 + t)) by (apply Z.pow_le_mono_r; lia).
    nia. }
  destruct (Z.leb_spec 0 e) as [He|He].
  - assert (e = 0) by lia. assert (t = 0) by lia. subst t.
    replace e with 0 in * by lia. clear Haligned.
    change (2 ^ 0) with 1 in *. rewrite !Z.mul_1_r in *.
    destruct (rne_bounds n d Hd) as [HL HH].
    unfold within. cbn [Qnum Qden inject_Z].
    specialize (HL lo Hlow). specialize (HH hi Hupp). lia.
  - assert (Hs : 0 <= - e - t) by lia.
    assert (He2 : 0 < 2 ^ (- e)) by (apply Z.pow_pos_nonneg; lia).
    assert (Hsplit : 2 ^ (- e) = 2 ^ (- e - t) * 2 ^ t).
    { rewrite <- Z.pow_add_r by lia. f_equal. lia. }
    assert (Hs2 : 0 < 2 ^ (- e - t)) by (apply Z.pow_pos_nonneg; lia).
    destruct (rne_bounds (n * 2 ^ (- e)) d Hd) as [HL HH].
    specialize (HL (lo * 2 ^ (- e - t))). specialize (HH (hi * 2 ^ (- e - t))).
    unfold within. cbn [Qnum Qden]. rewrite Z2Pos.id by lia.
    rewrite Hsplit in *. split.
    + assert (lo * 2 ^ (- e - t) <= JS.rne (n * (2 ^ (- e - t) * 2 ^ t)) d)
        by (apply HL; nia).
      nia.
    + assert (JS.rne (n * (2 ^ (- e - t) * 2 ^ t)) d <= hi * 2 ^ (- e - t))
        by (apply HH; nia).
      nia.
Qed.

(** Rounding does not cross a double: between two multiples of [2 ^ - t]
    below [2 ^ 53 / 2 ^ t], which are doubles, a number stays there when it
    is rounded. *)
Lemma fl_within (x : Q) (lo hi t : Z) :
  0 <= t <= 52 -> 0 <= lo -> hi < 2 ^ 53 ->
  within x lo hi t -> within (JS.fl x) lo hi t.
Proof.
  intros Ht Hlo Hhi [Hlow Hupp]. unfold JS.fl.
  assert (Ht2 : 0 < 2 ^ t) by (apply Z.pow_pos_nonneg; lia).
  destruct (Qnum x) as [|n|n] eqn:En.
  - unfold within. cbn. lia.
  - apply flpos_within; try lia.
  - exfalso. pose proof (Pos2Z.neg_is_neg n). nia.
Qed.

(** The doubles nearest to [1 / 10] and [1 / 3], and the integers past
    [2 ^ 53], where only the even ones (then the multiples of 4) are
    doubles. *)
Lemma fl_samples :
  JS.fl (1 # 10) = (7205759403792794 # 72057594037927936)%Q
  /\ JS.fl (1 # 3) = (6004799503160661 # 18014398509481984)%Q
  /\ JS.fl (inject_Z (2 ^ 53 + 1)) = inject_Z (2 ^ 53)
  /\ JS.fl (inject_Z (2 ^ 53 + 3)) = inject_Z (2 ^ 53 + 4)
  /\ JS.fl (inject_Z (2 ^ 54 + 2)) = inject_Z (2 ^ 54).
Proof. vm_compute. repeat split; reflexivity. Qed.

Lemma holds_eq (x : Q) (a : Z) : holds x a <-> Qnum x = a * Zpos (Qden x).
Proof. unfold holds, within. change (2 ^ 0) with 1. lia. Qed.

Lemma holds_inject (z : Z) : holds (inject_Z z) z.
Proof. apply holds_eq. cbn. lia. Qed.

Lemma holds_floor (x : Q) (a : Z) : holds x a -> JS.Math_floor x = a.
Proof.
  intros H. apply holds_eq in H. unfold JS.Math_floor. destruct x as [n d].
  cbn in *. subst n. apply Z.div_mul. lia.
Qed.

Lemma holds_integer (x : Q) (a : Z) : holds x a -> JS.integer x = a.
Proof. apply holds_floor. Qed.

(** Sums, differences and products of integers are exact below
    [2 ^ 53]. *)
Lemma holds_fadd (x y : Q) (a b : Z) :
  holds x a -> holds y b -> 0 <= a + b < 2 ^ 53 -> holds (JS.fadd x y) (a + b).
Proof.
  intros Hx Hy Hr. apply holds_eq in Hx, Hy. unfold holds, JS.fadd.
  apply fl_within; try lia.
  destruct x as [nx dx], y as [ny dy]. unfold within. cbn in *. subst nx ny.
  rewrite Pos2Z.inj_mul. lia.
Qed.

Lemma holds_fsub (x y : Q) (a b : Z) :
  holds x a -> holds y b -> 0 <= a - b < 2 ^ 53 -> holds (JS.fsub x y) (a - b).
Proof.
  intros Hx Hy Hr. apply holds_eq in Hx, Hy. unfold holds, JS.fsub.
  apply fl_within; try lia.
  destruct x as [nx dx], y as [ny dy]. unfold within. cbn in *. subst nx ny.
  rewrite Pos2Z.inj_mul. lia.
Qed.

Lemma holds_fmul (x y : Q) (a b : Z) :
  holds x a -> holds y b -> 0 <= a * b < 2 ^ 53 -> holds (JS.fmul x y) (a * b).
Proof.
  intros Hx Hy Hr. apply holds_eq in Hx, Hy. unfold holds, JS.fmul.
  apply fl_within; try lia.
  destruct x as [nx dx], y as [ny dy]. unfold within. cbn in *. subst nx ny.
  rewrite Pos2Z.inj_mul. lia.
Qed.

Lemma log2_up_lt_double (b : Z) : 1 <= b -> b <= 2 ^ Z.log2_up b < 2 * b.
Proof.
  intros Hb. destruct (Z.eq_dec b 1) as [->|Hne]; [cbn; lia|].
  pose proof (Z.log2_up_spec b ltac:(lia)) as [Hlo Hhi].
  assert (Hpos : 0 < Z.log2_up b) by (apply Z.log2_up_pos; lia).
  replace (Z.log2_up b) with (Z.succ (Z.pred (Z.log2_up b))) at 2 by lia.
  rewrite Z.pow_succ_r by lia. lia.
Qed.

Lemma log2_up_le_52 (b : Z) : 1 <= b -> b <= 2 ^ 52 -> 0 <= Z.log2_up b <= 52.
Proof.
  intros Hb Hle. split; [apply Z.log2_up_nonneg|].
  pose proof (log2_up_lt_double b Hb) as Hpow.
  destruct (Z.le_gt_cases (Z.log2_up b) 52) as [|Hgt]; [assumption|exfalso].
  assert (2 ^ 53 <= 2 ^ Z.log2_up b) by (apply Z.pow_le_mono_r; lia). lia.
Qed.

(** The rounded quotient of the integers [a] and [b] stays between
    [a / b] and the last multiple of [2 ^ - t] below [a / b + 1], for
    [t] the number of bits of [b]. *)
Lemma within_fdiv (x y : Q) (a b : Z) :
  holds x a -> holds y b -> 0 <= a -> 1 <= b -> a + b <= 2 ^ 52 ->
  let t := Z.log2_up b in
  within (JS.fdiv x y) (a / b * 2 ^ t) ((a / b + 1) * 2 ^ t - 1) t.
Proof.
  intros Hx Hy Ha Hb Hsum t. apply holds_eq in Hx, Hy.
  pose proof (log2_up_lt_double b Hb) as Hpow. fold t in Hpow.
  pose proof (log2_up_le_52 b Hb ltac:(lia)) as Ht. fold t in Ht.
  pose proof (Z.div_mod a b ltac:(lia)) as Hdm.
  pose proof (Z.mod_pos_bound a b ltac:(lia)) as Hmod.
  assert (Hk : 0 <= a / b) by (apply Z.div_pos; lia).
  unfold JS.fdiv. apply fl_within; try nia.
  destruct x as [nx dx], y as [ny dy]. cbn in Hx, Hy. subst nx ny.
  unfold within, Qdiv, Qmult, Qinv. cbn [Qnum Qden].
  destruct (b * Z.pos dy) as [|p|p] eqn:Ep;
    try (pose proof (Pos2Z.neg_is_neg p)); try nia.
  cbn [Qnum Qden]. rewrite !Pos2Z.inj_mul.
  assert (Hp : Z.pos p = b * Z.pos dy) by lia. rewrite Hp.
  pose proof (Pos2Z.is_pos dx). pose proof (Pos2Z.is_pos dy).
  set (X := Z.pos dx) in *. set (Y := Z.pos dy) in *.
  set (k := a / b) in *. set (T := 2 ^ t) in *.
  split.
  - assert (k * b <= a) by lia.
    replace (k * T * (X * (b * Y))) with ((k * b) * (T * X * Y)) by ring.
    replace (a * X * Y * T) with (a * (T * X * Y)) by ring.
    apply Z.mul_le_mono_nonneg_r; nia.
  - assert (a * T <= ((k + 1) * T - 1) * b) by nia.
    replace (a * X * Y * T) with ((a * T) * (X * Y)) by ring.
    replace (((k + 1) * T - 1) * (X * (b * Y)))
      with ((((k + 1) * T - 1) * b) * (X * Y)) by ring.
    apply Z.mul_le_mono_nonneg_r; nia.
Qed.

Lemma within_fadd (x y : Q) (lo hi t b : Z) :
  within x lo hi t -> holds y b -> 0 <= t <= 52 ->
  0 <= lo + b * 2 ^ t -> hi + b * 2 ^ t < 2 ^ 53 ->
  within (JS.fadd x y) (lo + b * 2 ^ t) (hi + b * 2 ^ t) t.
Proof.
  intros [Hlo Hhi] Hy Ht Hl Hh. apply holds_eq in Hy. unfold JS.fadd.
  apply fl_within; try lia.
  destruct x as [nx dx], y as [ny dy]. unfold within in *. cbn in *. subst ny.
  rewrite Pos2Z.inj_mul.
  pose proof (Pos2Z.is_pos dx). pose proof (Pos2Z.is_pos dy).
  set (X := Z.pos dx) in *. set (Y := Z.pos dy) in *. set (T := 2 ^ t) in *.
  split.
  - replace ((lo + b * T) * (X * Y)) with ((lo * X) * Y + b * T * X * Y) by ring.
    replace ((nx * Y + b * Y * X) * T) with ((nx * T) * Y + b * T * X * Y) by ring.
    apply Z.add_le_mono_r, Z.mul_le_mono_nonneg_r; lia.
  - replace ((hi + b * T) * (X * Y)) with ((hi * X) * Y + b * T * X * Y) by ring.
    replace ((nx * Y + b * Y * X) * T) with ((nx * T) * Y + b * T * X * Y) by ring.
    apply Z.add_le_mono_r, Z.mul_le_mono_nonneg_r; lia.
Qed.

Lemma within_floor (x : Q) (k t : Z) :
  0 <= t -> within x (k * 2 ^ t) ((k + 1) * 2 ^ t - 1) t -> JS.Math_floor x = k.
Proof.
  intros Ht [Hlo Hhi]. unfold JS.Math_floor. destruct x as [n d]. cbn in *.
  assert (HT : 0 < 2 ^ t) by (apply Z.pow_pos_nonneg; lia).
  pose proof (Pos2Z.is_pos d). set (D := Z.pos d) in *. set (T := 2 ^ t) in *.
  symmetry. apply Z.div_unique with (r := n - k * D); nia.
Qed.

Lemma rne_below_half (p q H : Z) :
  0 < q -> 2 * p < (2 * H + 1) * q -> JS.rne p q <= H.
Proof.
  intros Hq Hp. unfold JS.rne.
  pose proof (Z.div_mod p q ltac:(lia)) as Hdm.
  pose proof (Z.mod_pos_bound p q Hq) as Hb.
  destruct (Z.lt_ge_cases (p / q) H) as [Hlt|Hge].
  - destruct (2 * (p mod q) ?= q); [destruct (Z.even (p / q))| |]; lia.
  - assert (Hf : p / q = H) by nia.
    destruct (Z.compare_spec (2 * (p mod q)) q) as [E|E|E]; [nia | lia | nia].
Qed.

Lemma rne_exact (a d : Z) : 0 < d -> JS.rne (a * d) d = a.
Proof.
  intros Hd. unfold JS.rne. rewrite Z.div_mul, Z.mod_mul by lia.
  cbn [Z.mul]. destruct (Z.compare_spec 0 d); lia.
Qed.

Lemma mag_le_53 (n d : Z) : 0 < n -> 0 < d -> n < 2 ^ 53 * d -> JS.mag n d <= 53.
Proof.
  intros Hn Hd Hlt. unfold JS.mag. destruct (Z.leb_spec d n) as [Hle|Hgt].
  - assert (0 < n / d) by (apply Z.div_str_pos; lia).
    assert (n / d < 2 ^ 53) by (apply Z.div_lt_upper_bound; lia).
    assert (Z.log2 (n / d) < 53) by (apply Z.log2_lt_pow2; lia).
    lia.
  - pose proof (Z.log2_nonneg ((d - 1) / n)). lia.
Qed.

(** The floor of a rounded quotient of integers below [2 ^ 53] is the
    integer quotient: the quotient is at least [1 / b] below the next
    integer, more than half the distance between doubles there. *)
Lemma flpos_floor (n d a b : Z) :
  0 < n -> 0 < d -> 0 < a < 2 ^ 53 -> 1 <= b < 2 ^ 53 -> n * b = a * d ->
  Qfloor (JS.flpos n d) = a / b.
Proof.
  intros Hn Hd Ha Hb Hnd.
  pose proof (Z.div_mod a b ltac:(lia)) as Hdm.
  pose proof (Z.mod_pos_bound a b ltac:(lia)) as Hmod.
  assert (Hk : 0 <= a / b) by (apply Z.div_pos; lia).
  set (k := a / b) in *.
  assert (Hlt : n < 2 ^ 53 * d).
  { apply Z.mul_lt_mono_pos_r with b; [lia|]. rewrite Hnd. nia. }
  pose proof (mag_le_53 n d Hn Hd Hlt) as Hm53.
  unfold JS.flpos. set (e := Z.max (JS.mag n d - 53) (-1074)).
  destruct (Z.leb_spec 0 e) as [He|He].
  - assert (Hm : JS.mag n d = 53) by lia.
    assert (He0 : e = 0) by lia. rewrite He0. change (2 ^ 0) with 1.
    rewrite !Z.mul_1_r.
    pose proof (mag_lower n d Hn Hd ltac:(lia)) as Hlow. rewrite Hm in Hlow.
    change (2 ^ (53 - 1)) with (2 ^ 52) in Hlow.
    assert (Hb1 : b = 1).
    { assert (b * 2 ^ 52 * d <= a * d) by nia.
      assert (b * 2 ^ 52 <= a) by nia. lia. }
    subst b. rewrite Z.mul_1_r in Hnd. subst n.
    rewrite rne_exact by lia. rewrite Qfloor_Z. unfold k. symmetry. apply Z.div_1_r.
  - set (E := 2 ^ (- e)).
    assert (HE : 0 < E) by (apply Z.pow_pos_nonneg; lia).
    assert (HbE : b < 2 * E).
    { destruct (Z.max_spec (JS.mag n d - 53) (-1074)) as [[_ Hmax]|[_ Hmax]];
        fold e in Hmax.
      - assert (2 ^ 53 <= 2 ^ 1074) by (apply Z.pow_le_mono_r; lia).
        unfold E. rewrite Hmax. change (- (-1074)) with 1074. lia.
      - destruct (Z.le_gt_cases 1 (JS.mag n d)) as [Hm1|Hm0].
        + pose proof (mag_lower n d Hn Hd Hm1) as Hlow.
          set (P := 2 ^ (JS.mag n d - 1)) in *.
          assert (HP : 0 < P) by (apply Z.pow_pos_nonneg; lia).
          assert (HE2 : 2 * E = 2 ^ (1 - e)).
          { unfold E. rewrite <- Z.pow_succ_r by lia. f_equal. lia. }
          assert (HPE : P * (2 * E) = 2 ^ 53).
          { rewrite HE2. unfold P. rewrite <- Z.pow_add_r by lia. f_equal. lia. }
          assert (Hba : b * P <= a).
          { apply Z.mul_le_mono_pos_r with d; [lia|]. nia. }
          assert (b * P < P * (2 * E)) by (rewrite HPE; lia).
          nia.
        + assert (HE2 : 2 * E = 2 ^ (1 - e)).
          { unfold E. rewrite <- Z.pow_succ_r by lia. f_equal. lia. }
          assert (2 ^ 54 <= 2 * E) by (rewrite HE2; apply Z.pow_le_mono_r; lia).
          assert (2 ^ 53 < 2 ^ 54) by (apply Z.pow_lt_mono_r; lia).
          lia. }
    destruct (rne_bounds (n * E) d Hd) as [HL _].
    assert (Hlo : k * E <= JS.rne (n * E) d).
    { apply HL. assert (k * d <= n); [|nia].
      apply Z.mul_le_mono_pos_r with b; [lia|]. nia. }
    assert (Hhi : JS.rne (n * E) d <= (k + 1) * E - 1).
    { apply rne_below_half; [lia|].
      assert (Hgap : d <= ((k + 1) * d - n) * b) by nia.
      assert (Hpos : 0 < (k + 1) * d - n).
      { apply Z.mul_lt_mono_pos_r with b; [lia|]. nia. }
      assert (Hd2 : d < 2 * E * ((k + 1) * d - n)).
      { apply Z.mul_lt_mono_pos_r with b; [lia|].
        apply Z.lt_le_trans with (2 * E * d); [nia|].
        replace (2 * E * ((k + 1) * d - n) * b)
          with (2 * E * (((k + 1) * d - n) * b)) by ring.
        apply Z.mul_le_mono_nonneg_l; lia. }
      nia. }
    unfold Qfloor. rewrite Z2Pos.id by lia.
    symmetry. apply Z.div_unique with (r := JS.rne (n * E) d - k * E); lia.
Qed.

Lemma floor_fdiv (x y : Q) (a b : Z) :
  holds x a -> holds y b -> 0 <= a < 2 ^ 53 -> 1 <= b < 2 ^ 53 ->
  JS.Math_floor (JS.fdiv x y) = a / b.
Proof.
  intros Hx Hy Ha Hb. apply holds_eq in Hx, Hy.
  unfold JS.Math_floor, JS.fdiv, JS.fl.
  destruct x as [nx dx], y as [ny dy]. cbn [Qnum Qden] in Hx, Hy. subst nx ny.
  pose proof (Pos2Z.is_pos dx). pose proof (Pos2Z.is_pos dy).
  unfold Qdiv, Qmult, Qinv. cbn [Qnum Qden].
  destruct (b * Z.pos dy) as [|p|p] eqn:Ep;
    try (pose proof (Pos2Z.neg_is_neg p)); try nia.
  cbn [Qnum Qden].
  assert (Hp : Z.pos p = b * Z.pos dy) by lia.
  destruct (a * Z.pos dx * Z.pos dy) as [|q|q] eqn:Eq.
  - assert (a = 0) by nia. subst a. reflexivity.
  - rewrite <- Eq. apply flpos_floor; try lia; try nia.
  - pose proof (Pos2Z.neg_is_neg q). nia.
Qed.

Lemma GetSplitNum_div (total unit : Z) :
  1 <= total -> 1 <= unit -> total + 2 * unit <= 2 ^ 52 ->
  Utils.GetSplitNum total unit = (total - 1) / unit + 1.
Proof.
  intros Ht Hu Hs. unfold Utils.GetSplitNum.
  pose proof (log2_up_lt_double unit Hu) as Hpow.
  pose proof (log2_up_le_52 unit Hu ltac:(lia)) as Ht52.
  assert (Hsub : holds (JS.fsub (inject_Z total) 1) (total - 1)).
  { apply holds_fsub; [apply holds_inject | apply (holds_inject 1) | lia]. }
  pose proof (within_fdiv _ _ _ _ Hsub (holds_inject unit)
                ltac:(lia) Hu ltac:(lia)) as Hdiv.
  cbv zeta in Hdiv.
  set (t := Z.log2_up unit) in *.
  pose proof (Z.div_mod (total - 1) unit ltac:(lia)) as Hdm.
  pose proof (Z.mod_pos_bound (total - 1) unit ltac:(lia)) as Hmod.
  assert (Hk : 0 <= (total - 1) / unit) by (apply Z.div_pos; lia).
  set (k := (total - 1) / unit) in *.
  apply within_floor with (t := t); [lia|].
  replace ((k + 1) * 2 ^ t) with (k * 2 ^ t + 1 * 2 ^ t) by ring.
  replace ((k + 1 + 1) * 2 ^ t - 1) with ((k + 1) * 2 ^ t - 1 + 1 * 2 ^ t) by ring.
  apply within_fadd; [exact Hdiv | apply (holds_inject 1) | lia | |]; nia.
Qed.

Lemma GetSplitNum_range (total unit : Z) :
  1 <= total -> 1 <= unit -> total + 2 * unit <= 2 ^ 52 ->
  1 <= Utils.GetSplitNum total unit <= total.
Proof.
  intros Ht Hu Hs. rewrite GetSplitNum_div by assumption.
  pose proof (Z.div_pos (total - 1) unit ltac:(lia) ltac:(lia)).
  assert ((total - 1) / unit <= total - 1) by (apply Z.div_le_upper_bound; nia).
  lia.
Qed.

Lemma SegmentRange_div (c : Constants) (startChunkIndex fileSize : Z) :
  1 <= DEFAULT_CHUNK_SIZE c -> 1 <= DEFAULT_SEGMENT_MAX_CHUNKS c < 2 ^ 53 ->
  0 <= startChunkIndex -> 1 <= fileSize ->
  fileSize + 2 * DEFAULT_CHUNK_SIZE c <= 2 ^ 52 ->
  startChunkIndex + fileSize < 2 ^ 53 ->
  Utils.SegmentRange c startChunkIndex fileSize
  = (startChunkIndex / DEFAULT_SEGMENT_MAX_CHUNKS c,
     (startChunkIndex + Utils.GetSplitNum fileSize (DEFAULT_CHUNK_SIZE c) - 1)
     / DEFAULT_SEGMENT_MAX_CHUNKS c).
Proof.
  intros Hc Hm Hs Hf Hfc Hsum. unfold Utils.SegmentRange.
  pose proof (GetSplitNum_range fileSize (DEFAULT_CHUNK_SIZE c) Hf Hc Hfc) as Htc.
  set (tc := Utils.GetSplitNum fileSize (DEFAULT_CHUNK_SIZE c)) in *.
  f_equal.
  - apply floor_fdiv; try apply holds_inject; lia.
  - apply floor_fdiv; try apply holds_inject; try lia.
    apply holds_fsub; [|apply (holds_inject 1)|lia].
    apply holds_fadd; [apply holds_inject | apply holds_inject | lia].
Qed.

Lemma nextSgmentIndex_div (config : ShardConfig.t) (startIndex : Z) :
  2 <= ShardConfig.numShard config ->
  0 <= ShardConfig.shardId config < ShardConfig.numShard config ->
  0 <= startIndex ->
  startIndex + ShardConfig.numShard config < 2 ^ 53 ->
  Uploader.nextSgmentIndex config startIndex
  = (startIndex + ShardConfig.numShard config - 1 - ShardConfig.shardId config)
    / ShardConfig.numShard config * ShardConfig.numShard config
    + ShardConfig.shardId config.
Proof.
  intros Hn Hs Hi Hb. unfold Uploader.nextSgmentIndex.
  set (n := ShardConfig.numShard config) in *.
  set (sh := ShardConfig.shardId config) in *.
  destruct (Z.ltb_spec n 2) as [|_]; [lia|].
  assert (Hv : holds (JS.fsub (JS.fsub (JS.fadd (inject_Z startIndex) (inject_Z n)) 1)
                        (inject_Z sh))
                 (startIndex + n - 1 - sh)).
  { apply holds_fsub; [|apply holds_inject|lia].
    apply holds_fsub; [|apply (holds_inject 1)|lia].
    apply holds_fadd; [apply holds_inject | apply holds_inject | lia]. }
  rewrite (floor_fdiv _ _ _ _ Hv (holds_inject n)) by lia.
  pose proof (Z.div_mod (startIndex + n - 1 - sh) n ltac:(lia)) as Hdm.
  pose proof (Z.mod_pos_bound (startIndex + n - 1 - sh) n ltac:(lia)) as Hmod.
  assert (Hq : 0 <= (startIndex + n - 1 - sh) / n) by (apply Z.div_pos; lia).
  set (q := (startIndex + n - 1 - sh) / n) in *.
  apply holds_integer.
  apply holds_fadd; [|apply holds_inject|nia].
  apply holds_fmul; [apply holds_inject | apply holds_inject | nia].
Qed.

(** C7: for [total >= 1] and [unit >= 1] with
    [total + 2 * unit <= 2 ^ 52], [GetSplitNum total unit] is
    [floor((total-1)/unit) + 1]; it is the ceiling of [total/unit]:
    [GetSplitNum * unit >= total] and [(GetSplitNum - 1) * unit < total]. *)
Theorem GetSplitNum_ceiling (total unit : Z) :
  1 <= total -> 1 <= unit -> total + 2 * unit <= 2 ^ 52 ->
  Utils.GetSplitNum total unit = (total - 1) / unit + 1
  /\ total <= Utils.GetSplitNum total unit * unit
  /\ (Utils.GetSplitNum total unit - 1) * unit < total.
Proof.
  intros Ht Hu Hs. rewrite GetSplitNum_div by assumption.
  split; [reflexivity|].
  pose proof (Z.div_mod (total - 1) unit ltac:(lia)) as Hdm.
  pose proof (Z.mod_pos_bound (total - 1) unit ltac:(lia)) as Hb.
  nia.
Qed.

Lemma GetSplitNum_ceiling_witness :
  (1 <= 10 /\ 1 <= 3 /\ 10 + 2 * 3 <= 2 ^ 52)
  /\ Utils.GetSplitNum 10 3 = (10 - 1) / 3 + 1
  /\ 10 <= Utils.GetSplitNum 10 3 * 3
  /\ (Utils.GetSplitNum 10 3 - 1) * 3 < 10.
Proof.
  split; [cbn; lia | apply (GetSplitNum_ceiling 10 3); cbn; lia].
Defined.

(** With [total = unit = 2 ^ 53 - 1] the quotient [(total - 1) / unit]
    is rounded to [1 - 2 ^ - 53] and the sum with 1 to 2: the file is
    given two pieces where one suffices. *)
Lemma GetSplitNum_rounds_up :
  Utils.GetSplitNum (2 ^ 53 - 1) (2 ^ 53 - 1) = 2
  /\ ~ ceiling_for_all_positive.
Proof.
  assert (H : Utils.GetSplitNum (2 ^ 53 - 1) (2 ^ 53 - 1) = 2)
    by (vm_compute; reflexivity).
  split; [exact H|]. intros Hall.
  destruct (Hall (2 ^ 53 - 1) (2 ^ 53 - 1) ltac:(cbn; lia) ltac:(cbn; lia))
    as [Heq _].
  rewrite H in Heq. vm_compute in Heq. discriminate Heq.
Qed.

Lemma div_ge_iff (n s a b : Z) :
  0 < b ->
  (inject_Z n <= inject_Z s + JS.div a b)%Q <-> n * b <= s * b + a.
Proof.
  intros Hb. destruct b as [|b|b]; try lia.
  unfold JS.div, Qle, Qplus, Qdiv, Qmult, Qinv, inject_Z. cbn.
  rewrite ?Z.mul_1_r, ?Pos.mul_1_l. lia.
Qed.

(** ** SegmentIndexer *)

(** C6: for [numShard >= 2], [0 <= shardId < numShard] and
    [fromIndex >= 0] with [fromIndex + numShard < 2 ^ 53],
    [nextSgmentIndex] returns the smallest index that is at least
    [fromIndex] and congruent to [shardId] modulo [numShard]; for
    [numShard < 2] it returns [fromIndex] unchanged. *)
Theorem nextSgmentIndex_smallest (shardId numShard fromIndex : Z) :
  let r := Uploader.nextSgmentIndex (ShardConfig.mk shardId numShard) fromIndex in
  (2 <= numShard -> 0 <= shardId < numShard -> 0 <= fromIndex ->
   fromIndex + numShard < 2 ^ 53 ->
     r mod numShard = shardId
     /\ fromIndex <= r
     /\ (forall r', fromIndex <= r' -> r' mod numShard = shardId -> r <= r'))
  /\ (numShard < 2 -> r = fromIndex).
Proof.
  cbv zeta. split.
  - intros Hn Hs Hf Hb.
    rewrite nextSgmentIndex_div by assumption.
    cbn [ShardConfig.numShard ShardConfig.shardId].
    set (q := (fromIndex + numShard - 1 - shardId) / numShard).
    pose proof (Z.div_mod (fromIndex + numShard - 1 - shardId) numShard ltac:(lia)) as Hdm.
    pose proof (Z.mod_pos_bound (fromIndex + numShard - 1 - shardId) numShard ltac:(lia)) as Hm.
    fold q in Hdm.
    split; [|split].
    + rewrite Z.add_comm, Z.mod_add by lia. apply Z.mod_small; lia.
    + nia.
    + intros r' Hr' Hmod.
      pose proof (Z.div_mod r' numShard ltac:(lia)) as Hr.
      rewrite Hmod in Hr.
      assert (q <= r' / numShard); [|nia].
      apply Z.lt_succ_r. apply Z.mul_lt_mono_pos_l with numShard; nia.
  - intros Hn. unfold Uploader.nextSgmentIndex. cbn [ShardConfig.numShard].
    destruct (Z.ltb_spec numShard 2); [reflexivity|lia].
Qed.

Lemma nextSgmentIndex_smallest_witness :
  let r := Uploader.nextSgmentIndex (ShardConfig.mk 1 4) 6 in
  (2 <= 4 /\ 0 <= 1 < 4 /\ 0 <= 6 /\ 6 + 4 < 2 ^ 53)
  /\ r mod 4 = 1 /\ 6 <= r
  /\ (forall r', 6 <= r' -> r' mod 4 = 1 -> r <= r')
  /\ (1 < 2 -> Uploader.nextSgmentIndex (ShardConfig.mk 0 1) 6 = 6).
Proof.
  cbv zeta. split; [cbn; lia|].
  destruct (nextSgmentIndex_smallest 1 4 6) as [H _].
  destruct (H ltac:(lia) ltac:(lia) ltac:(lia) ltac:(cbn; lia)) as (H1 & H2 & H3).
  split; [exact H1|]. split; [exact H2|]. split; [exact H3|].
  intros _. apply (proj2 (nextSgmentIndex_smallest 0 1 6)). lia.
Defined.

(** From [fromIndex = 2 ^ 53 - 1] on shard 0 of 2, the sum
    [fromIndex + numShard] is rounded to [2 ^ 53] and the index returned
    is [2 ^ 53 - 2], below [fromIndex]. *)
Lemma nextSgmentIndex_below_fromIndex :
  Uploader.nextSgmentIndex (ShardConfig.mk 0 2) (2 ^ 53 - 1) = 2 ^ 53 - 2
  /\ ~ smallest_for_all_indices.
Proof.
  assert (H : Uploader.nextSgmentIndex (ShardConfig.mk 0 2) (2 ^ 53 - 1) = 2 ^ 53 - 2)
    by (vm_compute; reflexivity).
  split; [exact H|]. intros Hall.
  destruct (Hall 0 2 (2 ^ 53 - 1)) as [Hshard _].
  destruct (Hshard ltac:(lia) ltac:(lia) ltac:(cbn; lia)) as (_ & Hle & _).
  rewrite H in Hle. cbn in Hle. lia.
Qed.

(** C9: for [startChunkIndex >= 0] and [fileSize >= 1] with
    [fileSize + 2 * chunkSize <= 2 ^ 52] and
    [startChunkIndex + maxChunksPerSegment + fileSize < 2 ^ 53],
    moving the start chunk index forward by one segment's worth of chunks
    moves both segment indices returned by [SegmentRange] forward by
    exactly 1. *)
Theorem SegmentRange_shift (c : Constants) (startChunkIndex fileSize s e : Z) :
  1 <= DEFAULT_CHUNK_SIZE c ->
  1 <= DEFAULT_SEGMENT_MAX_CHUNKS c ->
  0 <= startChunkIndex -> 1 <= fileSize ->
  fileSize + 2 * DEFAULT_CHUNK_SIZE c <= 2 ^ 52 ->
  startChunkIndex + DEFAULT_SEGMENT_MAX_CHUNKS c + fileSize < 2 ^ 53 ->
  Utils.SegmentRange c startChunkIndex fileSize = (s, e) ->
  Utils.SegmentRange c (startChunkIndex + DEFAULT_SEGMENT_MAX_CHUNKS c) fileSize
  = (s + 1, e + 1).
Proof.
  intros Hc Hm Hs Hf Hfc Hsum.
  rewrite !SegmentRange_div by lia.
  intros H. injection H as <- <-. f_equal.
  - rewrite <- (Z.mul_1_l (DEFAULT_SEGMENT_MAX_CHUNKS c)) at 1.
    apply Z.div_add; lia.
  - replace (startChunkIndex + DEFAULT_SEGMENT_MAX_CHUNKS c
             + Utils.GetSplitNum fileSize (DEFAULT_CHUNK_SIZE c) - 1)
      with (startChunkIndex + Utils.GetSplitNum fileSize (DEFAULT_CHUNK_SIZE c) - 1
            + 1 * DEFAULT_SEGMENT_MAX_CHUNKS c) by lia.
    apply Z.div_add; lia.
Qed.

Lemma SegmentRange_shift_witness :
  (1 <= DEFAULT_CHUNK_SIZE protocolConstants
   /\ 1 <= DEFAULT_SEGMENT_MAX_CHUNKS protocolConstants
   /\ 0 <= 1500 /\ 1 <= 600000
   /\ 600000 + 2 * DEFAULT_CHUNK_SIZE protocolConstants <= 2 ^ 52
   /\ 1500 + DEFAULT_SEGMENT_MAX_CHUNKS protocolConstants + 600000 < 2 ^ 53)
  /\ Utils.SegmentRange protocolConstants 1500 600000 = (1, 3)
  /\ Utils.SegmentRange protocolConstants
       (1500 + DEFAULT_SEGMENT_MAX_CHUNKS protocolConstants) 600000
     = (1 + 1, 3 + 1).
Proof.
  split; [cbn; lia|]. split; [vm_compute; reflexivity|].
  apply (SegmentRange_shift protocolConstants 1500 600000 1 3);
    [cbn; lia | cbn; lia | lia | lia | cbn; lia | cbn; lia | vm_compute; reflexivity].
Defined.

(** With the protocol's constants, a file of 524288 bytes (2048 chunks)
    and the start [2 ^ 53 - 2048], the end chunk index of the later start,
    [2 ^ 53 + 1023], is rounded to [2 ^ 53 + 1024]: the end segment moves
    by 2. *)
Lemma SegmentRange_end_moves_by_two :
  Utils.SegmentRange protocolConstants (2 ^ 53 - 2048) 524288
  = (8796093022206, 8796093022207)
  /\ Utils.SegmentRange protocolConstants
       (2 ^ 53 - 2048 + DEFAULT_SEGMENT_MAX_CHUNKS protocolConstants) 524288
     = (8796093022206 + 1, 8796093022207 + 2)
  /\ ~ shift_for_all_starts.
Proof.
  assert (H1 : Utils.SegmentRange protocolConstants (2 ^ 53 - 2048) 524288
               = (8796093022206, 8796093022207)) by (vm_compute; reflexivity).
  assert (H2 : Utils.SegmentRange protocolConstants
                 (2 ^ 53 - 2048 + DEFAULT_SEGMENT_MAX_CHUNKS protocolConstants) 524288
               = (8796093022206 + 1, 8796093022207 + 2)) by (vm_compute; reflexivity).
  split; [exact H1|]. split; [exact H2|]. intros Hall.
  specialize (Hall protocolConstants (2 ^ 53 - 2048) 524288 _ _
                ltac:(cbn; lia) ltac:(cbn; lia) ltac:(lia) H1).
  rewrite H2 in Hall. discriminate Hall.
Qed.

(** ** SegmentReader *)

Lemma reachesEnd_iff (c : Constants) (startIndex numChunks : Z) (segment : list Byte.byte) :
  0 < DEFAULT_CHUNK_SIZE c ->
  Uploader.reachesEnd c startIndex segment numChunks = true
  <-> numChunks * DEFAULT_CHUNK_SIZE c
      <= startIndex * DEFAULT_CHUNK_SIZE c + Z.of_nat (List.length segment).
Proof.
  intros Hc. unfold Uploader.reachesEnd.
  rewrite Qle_bool_iff. apply div_ge_iff, Hc.
Qed.

Lemma Qplus_swap (x y : Q) : (x + y)%Q = (y + x)%Q.
Proof.
  destruct x as [nx dx], y as [ny dy]. unfold Qplus. cbn [Qnum Qden].
  f_equal; [lia | apply Pos.mul_comm].
Qed.

(** The test of [getSegment] is stated on the exact quotient; evaluated in
    doubles it has the same outcome while the byte offset of the end of
    the window stays below [2 ^ 52]. *)
Lemma reachesEnd_in_doubles (c : Constants) (startIndex numChunks : Z)
    (segment : list Byte.byte) :
  1 <= DEFAULT_CHUNK_SIZE c -> 0 <= startIndex ->
  (startIndex + 1) * DEFAULT_CHUNK_SIZE c + Z.of_nat (List.length segment) <= 2 ^ 52 ->
  Qle_bool (inject_Z numChunks)
    (JS.fadd (inject_Z startIndex)
       (JS.fdiv (inject_Z (Z.of_nat (List.length segment)))
          (inject_Z (DEFAULT_CHUNK_SIZE c))))
  = Uploader.reachesEnd c startIndex segment numChunks.
Proof.
  intros Hc Hs Hb.
  set (len := Z.of_nat (List.length segment)) in *.
  set (u := DEFAULT_CHUNK_SIZE c) in *.
  assert (Hlen : 0 <= len) by (unfold len; lia).
  pose proof (Z.div_mod len u ltac:(lia)) as Hdm.
  pose proof (Z.mod_pos_bound len u ltac:(lia)) as Hmod.
  assert (Hk : 0 <= len / u) by (apply Z.div_pos; lia).
  pose proof (log2_up_lt_double u Hc) as Hpow.
  pose proof (log2_up_le_52 u Hc ltac:(nia)) as Ht.
  pose proof (within_fdiv _ _ _ _ (holds_inject len) (holds_inject u)
                Hlen Hc ltac:(nia)) as Hdiv.
  cbv zeta in Hdiv.
  set (t := Z.log2_up u) in *. set (k := len / u) in *.
  assert (HT : 0 < 2 ^ t) by (apply Z.pow_pos_nonneg; lia).
  assert (Hsum : within (JS.fadd (inject_Z startIndex)
                           (JS.fdiv (inject_Z len) (inject_Z u)))
                   ((startIndex + k) * 2 ^ t) ((startIndex + k + 1) * 2 ^ t - 1) t).
  { unfold JS.fadd. rewrite Qplus_swap. fold (JS.fadd (JS.fdiv (inject_Z len) (inject_Z u))
                                                (inject_Z startIndex)).
    replace ((startIndex + k) * 2 ^ t) with (k * 2 ^ t + startIndex * 2 ^ t) by ring.
    replace ((startIndex + k + 1) * 2 ^ t - 1)
      with ((k + 1) * 2 ^ t - 1 + startIndex * 2 ^ t) by ring.
    apply within_fadd; [exact Hdiv | apply holds_inject | lia | nia | nia]. }
  destruct Hsum as [Hlo Hhi].
  apply eq_true_iff_eq.
  rewrite Qle_bool_iff.
  pose proof (reachesEnd_iff c startIndex numChunks segment ltac:(lia)) as Hexact.
  fold len in Hexact. fold u in Hexact. rewrite Hexact.
  destruct (JS.fadd _ _) as [nx dx]. unfold Qle. cbn [Qnum Qden inject_Z] in *.
  pose proof (Pos2Z.is_pos dx). set (X := Z.pos dx) in *. set (T := 2 ^ t) in *.
  assert (Hx1 : (startIndex + k) * X <= nx) by nia.
  assert (Hx2 : nx < (startIndex + k + 1) * X) by nia.
  rewrite Z.mul_1_r.
  split; intros H1.
  - assert (numChunks < startIndex + k + 1) by nia. nia.
  - assert (numChunks <= startIndex + k) by nia. nia.
Qed.




(** ** Receipt polling *)

Lemma accepted_missingWhenReverted provider k :
  Utils.accepted (missingWhenReverted provider k) = Utils.accepted (provider k).
Proof.
  unfold missingWhenReverted.
  destruct (Utils.accepted (provider k)) eqn:E; [exact E | reflexivity].
Qed.

Section PollLoop.
Context {D : Type} (delay : D).

Lemma pollLoop_reverted_as_missing provider remaining nTries :
  Utils.pollLoop (missingWhenReverted provider) delay remaining nTries
  = Utils.pollLoop provider delay remaining nTries.
Proof.
  revert nTries. induction remaining as [|n IH]; intros nTries; [reflexivity|].
  cbn [Utils.pollLoop]. rewrite accepted_missingWhenReverted.
  destruct (Utils.accepted (provider nTries)) eqn:E.
  - unfold missingWhenReverted. rewrite E. reflexivity.
  - rewrite IH. reflexivity.
Qed.

Lemma pollLoop_polls_le provider remaining nTries :
  (Utils.polls (Utils.pollLoop provider delay remaining nTries) <= remaining)%nat.
Proof.
  revert nTries. induction remaining as [|n IH]; intros nTries; cbn [Utils.pollLoop].
  - cbn. lia.
  - destruct (Utils.accepted (provider nTries)); cbn; [lia|].
    specialize (IH (S nTries)). lia.
Qed.

Lemma pollLoop_delays provider remaining nTries :
  let run := Utils.pollLoop provider delay remaining nTries in
  let found := match Utils.receipt run with Some _ => 1%nat | None => 0%nat end in
  (found <= Utils.polls run)%nat
  /\ Utils.delays run = repeat delay (Utils.polls run - found).
Proof.
  cbv zeta. revert nTries.
  induction remaining as [|n IH]; intros nTries; cbn [Utils.pollLoop].
  - cbn. split; [lia | reflexivity].
  - destruct (provider nTries) as [r|] eqn:Ep; cbn [Utils.accepted].
    + destruct (match TxReceipt.status r with Some s => s =? 1 | None => false end).
      * cbn. split; [lia | reflexivity].
      * destruct (IH (S nTries)) as [Hle Hd]. cbn. rewrite Hd. split.
        -- destruct (Utils.receipt _); lia.
        -- change (delay :: repeat delay ?k) with (repeat delay (S k)).
           f_equal. destruct (Utils.receipt _); lia.
    + destruct (IH (S nTries)) as [Hle Hd]. cbn. rewrite Hd. split.
      * destruct (Utils.receipt _); lia.
      * change (delay :: repeat delay ?k) with (repeat delay (S k)).
        f_equal. destruct (Utils.receipt _); lia.
Qed.

Lemma pollLoop_never_accepted provider remaining nTries :
  (forall k, (nTries <= k < nTries + remaining)%nat ->
             Utils.accepted (provider k) = false) ->
  Utils.pollLoop provider delay remaining nTries
  = Utils.mkPolled None remaining (repeat delay remaining).
Proof.
  revert nTries. induction remaining as [|n IH]; intros nTries Hk; [reflexivity|].
  cbn [Utils.pollLoop]. rewrite Hk by lia.
  rewrite IH by (intros; apply Hk; lia). reflexivity.
Qed.
End PollLoop.

Lemma pollLoop_first_accepted {D : Type} (delay : D) provider (k : nat) :
  forall remaining nTries,
    (k < remaining)%nat ->
    (forall i, (i < k)%nat -> Utils.accepted (provider (nTries + i)%nat) = false) ->
    Utils.accepted (provider (nTries + k)%nat) = true ->
    Utils.pollLoop provider delay remaining nTries
    = Utils.mkPolled (provider (nTries + k)%nat) (S k) (repeat delay k).
Proof.
  induction k as [|k IH]; intros remaining nTries Hk Hbefore Hacc;
    (destruct remaining as [|remaining]; [lia|]); cbn [Utils.pollLoop].
  - rewrite Nat.add_0_r in *. rewrite Hacc. reflexivity.
  - pose proof (Hbefore O ltac:(lia)) as H0. rewrite Nat.add_0_r in H0. rewrite H0.
    rewrite (IH remaining (S nTries)); [| lia | |].
    + replace (S nTries + k)%nat with (nTries + S k)%nat by lia. reflexivity.
    + intros i Hi. replace (S nTries + i)%nat with (nTries + S i)%nat by lia.
      apply Hbefore. lia.
    + replace (S nTries + k)%nat with (nTries + S k)%nat by lia. exact Hacc.
Qed.

Lemma includes_here (needle rest : string) :
  JS.includes needle (needle ++ rest) = true.
Proof.
  assert (H : String.prefix needle (needle ++ rest) = true).
  { induction needle as [|a n IH]; cbn.
    - destruct rest; reflexivity.
    - destruct (ascii_dec a a); [exact IH | congruence]. }
  destruct needle, rest; cbn in *; try rewrite H; reflexivity.
Qed.

Lemma includes_later (needle before hay : string) :
  JS.includes needle hay = true -> JS.includes needle (before ++ hay) = true.
Proof.
  intros H. induction before as [|a b IH]; [exact H|].
  cbn [append JS.includes]. rewrite IH.
  destruct (String.prefix needle (String a (b ++ hay))); reflexivity.
Qed.

Lemma receiptOpts_Retries opts :
  Utils.num (RetryOpts.Retries (Utils.receiptOpts opts))
  = if Utils.undefinedOrZero (optField RetryOpts.Retries opts) then 10
    else Utils.num (optField RetryOpts.Retries opts).
Proof.
  unfold Utils.receiptOpts.
  destruct opts as [[r i m t]|]; cbn.
  - destruct (Utils.undefinedOrZero r) eqn:Er; cbn;
      destruct (Utils.undefinedOrZero i); cbn; reflexivity.
  - reflexivity.
Qed.

Lemma receiptOpts_Interval opts :
  Utils.num (RetryOpts.Interval (Utils.receiptOpts opts))
  = if Utils.undefinedOrZero (optField RetryOpts.Interval opts) then 5
    else Utils.num (optField RetryOpts.Interval opts).
Proof.
  unfold Utils.receiptOpts.
  destruct opts as [[r i m t]|]; cbn.
  - destruct (Utils.undefinedOrZero r) eqn:Er; cbn;
      destruct (Utils.undefinedOrZero i); cbn; reflexivity.
  - reflexivity.
Qed.

(** C10: [waitForReceipt] treats a receipt whose status is not 1 exactly
    like a missing receipt, in the function of [utils.js] and in the method
    of the uploader.  It polls at most [Retries] times (10 when unset or
    zero), sleeping [Interval] seconds (5 when unset or zero) after each
    unsuccessful poll; when no poll yields a status-1 receipt it returns
    [null] after [Retries] polls, and [txWithGasAdjustment] turns that
    [null] into the receipt-timeout error, which it classifies as a
    timeout.  The method of the uploader does the same with the options as
    given (10 and 5 only for undefined options): it polls past every
    receipt whose status is not 1, returns the first status-1 receipt
    within the budget, and [null] after [Retries] polls and as many sleeps
    when there is none. *)
Theorem waitForReceipt_reverted_is_missing
    (provider : nat -> option TxReceipt.t) (opts : option RetryOpts.t) (hash : string) :
  let retries := Utils.num (RetryOpts.Retries (Utils.receiptOpts opts)) in
  let interval := Utils.num (RetryOpts.Interval (Utils.receiptOpts opts)) in
  let run := Utils.waitForReceipt provider opts in
  let timeout := JS.VError (JS.newError "Get transaction receipt timeout") in
  let methodRetries :=
    match opts with
    | None => 10%nat
    | Some o => Z.to_nat (Utils.num (RetryOpts.Retries o))
    end in
  let methodDelay :=
    match opts with
    | None => Some 5000
    | Some o => option_map (fun i => i * 1000) (RetryOpts.Interval o)
    end in
  Utils.waitForReceipt (missingWhenReverted provider) opts = run
  /\ Uploader.waitForReceipt (missingWhenReverted provider) opts
     = Uploader.waitForReceipt provider opts
  /\ (Utils.polls (Uploader.waitForReceipt provider opts)
      <= match opts with
         | None => 10
         | Some o => Z.to_nat (Utils.num (RetryOpts.Retries o))
         end)%nat
  /\ retries = (if Utils.undefinedOrZero (optField RetryOpts.Retries opts) then 10
                else Utils.num (optField RetryOpts.Retries opts))
  /\ interval = (if Utils.undefinedOrZero (optField RetryOpts.Interval opts) then 5
                 else Utils.num (optField RetryOpts.Interval opts))
  /\ Z.of_nat (Utils.polls run) <= Z.max 0 retries
  /\ (exists sleeps : nat, (sleeps <= Utils.polls run)%nat
        /\ Utils.delays run = repeat (interval * 1000) sleeps)
  /\ ((forall k, Z.of_nat k < retries -> Utils.accepted (provider k) = false) ->
      run = Utils.mkPolled None (Z.to_nat retries)
              (repeat (interval * 1000) (Z.to_nat retries))
      /\ fst (Utils.trySend (Mined hash provider) opts) = inr timeout
      /\ Utils.isTimeout timeout = true)
  /\ ((forall k, (k < methodRetries)%nat -> Utils.accepted (provider k) = false) ->
      Uploader.waitForReceipt provider opts
      = Utils.mkPolled None methodRetries (repeat methodDelay methodRetries))
  /\ (forall k, (k < methodRetries)%nat ->
        (forall i, (i < k)%nat -> Utils.accepted (provider i) = false) ->
        Utils.accepted (provider k) = true ->
        Uploader.waitForReceipt provider opts
        = Utils.mkPolled (provider k) (S k) (repeat methodDelay k)).
Proof.
  cbv zeta.
  assert (Hmethod : Uploader.waitForReceipt provider opts
                    = Utils.pollLoop provider
                        match opts with
                        | None => Some 5000
                        | Some o => option_map (fun i => i * 1000) (RetryOpts.Interval o)
                        end
                        match opts with
                        | None => 10%nat
                        | Some o => Z.to_nat (Utils.num (RetryOpts.Retries o))
                        end O).
  { unfold Uploader.waitForReceipt. destruct opts as [o|]; [|reflexivity].
    destruct (RetryOpts.Retries o); reflexivity. }
  split; [apply pollLoop_reverted_as_missing|].
  split; [apply pollLoop_reverted_as_missing|].
  split.
  { unfold Uploader.waitForReceipt.
    destruct opts as [o|]; [|apply pollLoop_polls_le].
    destruct (RetryOpts.Retries o); apply pollLoop_polls_le. }
  split; [apply receiptOpts_Retries|].
  split; [apply receiptOpts_Interval|].
  split.
  { unfold Utils.waitForReceipt.
    pose proof (pollLoop_polls_le
                  (Utils.num (RetryOpts.Interval (Utils.receiptOpts opts)) * 1000)
                  provider
                  (Z.to_nat (Utils.num (RetryOpts.Retries (Utils.receiptOpts opts)))) O).
    lia. }
  split.
  { unfold Utils.waitForReceipt.
    destruct (pollLoop_delays
                (Utils.num (RetryOpts.Interval (Utils.receiptOpts opts)) * 1000)
                provider
                (Z.to_nat (Utils.num (RetryOpts.Retries (Utils.receiptOpts opts)))) O)
      as [_ Hd].
    eexists. split; [|exact Hd]. lia. }
  split.
  { intros Hnone.
    assert (Hrun : Utils.waitForReceipt provider opts
                   = Utils.mkPolled None
                       (Z.to_nat (Utils.num (RetryOpts.Retries (Utils.receiptOpts opts))))
                       (repeat
                          (Utils.num (RetryOpts.Interval (Utils.receiptOpts opts)) * 1000)
                          (Z.to_nat
                             (Utils.num (RetryOpts.Retries (Utils.receiptOpts opts)))))).
    { unfold Utils.waitForReceipt. apply pollLoop_never_accepted.
      intros k Hk. apply Hnone. lia. }
    split; [exact Hrun|]. split; [|reflexivity].
    cbn [Utils.trySend]. rewrite Hrun. reflexivity. }
  split.
  - intros Hnone. rewrite Hmethod. apply pollLoop_never_accepted.
    intros k Hk. apply Hnone. lia.
  - intros k Hk Hbefore Hacc. rewrite Hmethod.
    apply (pollLoop_first_accepted _ provider k _ O); [exact Hk | exact Hbefore | exact Hacc].
Qed.

Lemma waitForReceipt_reverted_is_missing_witness :
  let reverted := fun _ : nat => Some (TxReceipt.mk "0xabc" (Some 0)) in
  let opts := Some (RetryOpts.mk (Some 3) (Some 2) None None) in
  (forall k, Z.of_nat k < 10 -> Utils.accepted (reverted k) = false)
  /\ Utils.waitForReceipt reverted None = Utils.mkPolled None 10 (repeat 5000 10)
  /\ fst (Utils.trySend (Mined "0xabc" reverted) None)
     = inr (JS.VError (JS.newError "Get transaction receipt timeout"))
  /\ (forall k, (k < 3)%nat -> Utils.accepted (reverted k) = false)
  /\ Uploader.waitForReceipt reverted opts
     = Utils.mkPolled None 3 [Some 2000; Some 2000; Some 2000].
Proof.
  cbv zeta. split; [reflexivity|].
  destruct (waitForReceipt_reverted_is_missing
              (fun _ => Some (TxReceipt.mk "0xabc" (Some 0))) None "0xabc")
    as (_ & _ & _ & _ & _ & _ & _ & H & _).
  destruct H as (Hrun & Htry & _); [reflexivity|].
  split; [exact Hrun|]. split; [exact Htry|]. split; [reflexivity|].
  destruct (waitForReceipt_reverted_is_missing
              (fun _ => Some (TxReceipt.mk "0xabc" (Some 0)))
              (Some (RetryOpts.mk (Some 3) (Some 2) None None)) "0xabc")
    as (_ & _ & _ & _ & _ & _ & _ & _ & Hm & _).
  exact (Hm (fun _ _ => eq_refl)).
Defined.

(** ** Gas-price escalation *)

Lemma receiptOpts_idempotent opts :
  Utils.receiptOpts (Utils.receiptOptsWritten opts) = Utils.receiptOpts opts.
Proof.
  destruct opts as [[r i m t]|]; [|reflexivity].
  unfold Utils.receiptOptsWritten, Utils.receiptOpts. cbn.
  destruct (Utils.undefinedOrZero r) eqn:Er; cbn;
    destruct (Utils.undefinedOrZero i) eqn:Ei; cbn; rewrite ?Er, ?Ei; cbn;
    rewrite ?Er, ?Ei; reflexivity.
Qed.

Lemma trySend_same_opts o opts opts0 :
  Utils.receiptOpts opts = Utils.receiptOpts opts0 ->
  fst (Utils.trySend o opts) = fst (Utils.trySend o opts0)
  /\ Utils.receiptOpts (snd (Utils.trySend o opts)) = Utils.receiptOpts opts0.
Proof.
  intros H. destruct o as [t| |h provider]; cbn; try (split; [reflexivity | exact H]).
  unfold Utils.waitForReceipt. rewrite H.
  destruct (Utils.receipt _); cbn; rewrite receiptOpts_idempotent; auto.
Qed.

Lemma priceAt_succ gasPrice k :
  priceAt (escalate gasPrice) k = priceAt gasPrice (S k).
Proof. unfold priceAt. symmetry. apply Nat.iter_succ_r. Qed.

Lemma gasLoop_run chain opts0 maxGasPrice (n : nat) :
  forall fuel opts current k0 err,
    Utils.receiptOpts opts = Utils.receiptOpts opts0 ->
    (forall j, (j < n)%nat ->
       priceAt current j <= maxGasPrice
       /\ timesOut chain opts0 (k0 + j) (priceAt current j)) ->
    (n < fuel)%nat ->
    let prices := map (priceAt current) (seq 0 n) in
    let lastErr := match n with
                   | O => err
                   | S m => errorOf chain opts0 (k0 + m) (priceAt current m)
                   end in
    let run := Utils.gasLoop fuel chain opts maxGasPrice current k0 err in
    (maxGasPrice < priceAt current n ->
       run = Some (Utils.mkTxRun None lastErr prices))
    /\ (priceAt current n <= maxGasPrice ->
        forall r, attempt chain opts0 (k0 + n) (priceAt current n) = inl r ->
        run = Some (Utils.mkTxRun (Some r) None (prices ++ [priceAt current n])))
    /\ (priceAt current n <= maxGasPrice ->
        forall e, attempt chain opts0 (k0 + n) (priceAt current n) = inr e ->
        Utils.isTimeout e = false ->
        run = Some (Utils.mkTxRun None (Some e) (prices ++ [priceAt current n]))).
Proof.
  induction n as [|n IH]; intros fuel opts current k0 err Hopts Hfirst Hfuel; cbv zeta.
  - destruct fuel as [|fuel]; [lia|]. rewrite Nat.add_0_r.
    change (priceAt current 0) with current.
    cbn [map seq app Utils.gasLoop].
    unfold attempt.
    destruct (trySend_same_opts (chain k0 current) opts opts0 Hopts) as [Hfst _].
    destruct (Utils.trySend (chain k0 current) opts) as [res opts'].
    cbn [fst] in Hfst. rewrite <- Hfst.
    split; [|split].
    + intros Hgt. destruct (Z.leb_spec current maxGasPrice); [lia | reflexivity].
    + intros Hle r ->. destruct (Z.leb_spec current maxGasPrice); [reflexivity | lia].
    + intros Hle e -> Hto. destruct (Z.leb_spec current maxGasPrice); [|lia].
      rewrite Hto. reflexivity.
  - destruct fuel as [|fuel]; [lia|].
    destruct (Hfirst O ltac:(lia)) as [Hle0 (e0 & He0 & Hto0)].
    rewrite Nat.add_0_r in He0. change (priceAt current 0) with current in Hle0, He0.
    unfold attempt in He0.
    destruct (trySend_same_opts (chain k0 current) opts opts0 Hopts) as [Hfst Hsnd].
    assert (Hstep : Utils.gasLoop (S fuel) chain opts maxGasPrice current k0 err
                    = Utils.sentAt current
                        (Utils.gasLoop fuel chain
                           (snd (Utils.trySend (chain k0 current) opts))
                           maxGasPrice (escalate current) (S k0) (Some e0))).
    { cbn [Utils.gasLoop].
      destruct (Z.leb_spec current maxGasPrice); [|lia].
      destruct (Utils.trySend (chain k0 current) opts) as [res opts'].
      cbn [fst snd] in *. rewrite Hfst, He0, Hto0. reflexivity. }
    rewrite Hstep.
    specialize (IH fuel (snd (Utils.trySend (chain k0 current) opts))
                  (escalate current) (S k0) (Some e0) Hsnd).
    cbv zeta in IH.
    assert (Hshift : forall j, priceAt (escalate current) j = priceAt current (S j))
      by (intros; apply priceAt_succ).
    assert (Hk : forall j, (S k0 + j = k0 + S j)%nat) by (intros; lia).
    destruct IH as (IH1 & IH2 & IH3).
    { intros j Hj. rewrite Hshift, Hk. apply Hfirst. lia. }
    { lia. }
    rewrite Hshift in IH1, IH2, IH3. rewrite Hk in IH2, IH3.
    assert (Hprices : map (priceAt current) (seq 0 (S n))
                      = current :: map (priceAt (escalate current)) (seq 0 n)).
    { cbn [seq map]. f_equal. rewrite <- seq_shift, map_map.
      apply map_ext. intros j. symmetry. apply Hshift. }
    rewrite Hprices.
    assert (Hlast : match n with
                    | O => Some e0
                    | S m => errorOf chain opts0 (S k0 + m) (priceAt (escalate current) m)
                    end = errorOf chain opts0 (k0 + n) (priceAt current n)).
    { destruct n as [|m].
      - unfold errorOf, attempt. rewrite Nat.add_0_r.
        change (priceAt current 0) with current.
        rewrite He0. reflexivity.
      - rewrite Hshift, Hk. reflexivity. }
    rewrite Hlast in IH1.
    split; [|split].
    + intros Hgt. rewrite (IH1 Hgt). reflexivity.
    + intros Hle r Hr. rewrite (IH2 Hle r Hr). reflexivity.
    + intros Hle e He Hto. rewrite (IH3 Hle e He Hto). reflexivity.
Qed.

Lemma maxGasPriceOf_supplied gasPrice retryOpts :
  Utils.maxGasPriceOf gasPrice retryOpts
  = match suppliedMax retryOpts with Some m => m | None => gasPrice end.
Proof.
  unfold Utils.maxGasPriceOf, suppliedMax, optField.
  destruct retryOpts as [o|]; [|reflexivity].
  destruct (RetryOpts.MaxGasPrice o) as [m|]; [|reflexivity].
  destruct (0 <? m); reflexivity.
Qed.

(** C2, as the code has it: submissions are made at the prices
    [gasPrice], [11*gasPrice/10], ... in turn.  The cap is the caller's
    [MaxGasPrice] when it is positive and the starting price otherwise.
    While the submissions time out and the next price is within the cap,
    the next submission is made; a price above the cap ends the loop with
    the last timeout error; a receipt ends it with that receipt; an error
    that is not a timeout ends it with that error and no further
    submission. *)
Theorem txWithGasAdjustment_escalation
    (chain : nat -> Z -> SendOutcome) (gasPrice : Z)
    (retryOpts : option RetryOpts.t) (n fuel : nat) :
  let cap := match suppliedMax retryOpts with Some m => m | None => gasPrice end in
  let prices := map (priceAt gasPrice) (seq 0 n) in
  let run := Utils.txWithGasAdjustment fuel chain gasPrice retryOpts in
  (forall k, (k < n)%nat ->
     priceAt gasPrice k <= cap /\ timesOut chain retryOpts k (priceAt gasPrice k)) ->
  (n < fuel)%nat ->
  (cap < priceAt gasPrice n ->
     run = Some (Utils.mkTxRun None
                   match n with
                   | O => None
                   | S m => errorOf chain retryOpts m (priceAt gasPrice m)
                   end prices))
  /\ (priceAt gasPrice n <= cap ->
      forall r, attempt chain retryOpts n (priceAt gasPrice n) = inl r ->
      run = Some (Utils.mkTxRun (Some r) None (prices ++ [priceAt gasPrice n])))
  /\ (priceAt gasPrice n <= cap ->
      forall e, attempt chain retryOpts n (priceAt gasPrice n) = inr e ->
      Utils.isTimeout e = false ->
      run = Some (Utils.mkTxRun None (Some e) (prices ++ [priceAt gasPrice n]))).
Proof.
  cbv zeta. intros Hfirst Hfuel.
  unfold Utils.txWithGasAdjustment. rewrite maxGasPriceOf_supplied.
  exact (gasLoop_run chain retryOpts _ n fuel retryOpts gasPrice O None
           eq_refl Hfirst Hfuel).
Qed.

(** Two timeouts at 100 and 110, then a receipt at 121, under a supplied
    maximum of 125. *)
Lemma txWithGasAdjustment_escalation_witness :
  let receipt := TxReceipt.mk "0xabc" (Some 1) in
  let chain := fun (k : nat) (_ : Z) =>
                 if (k <? 2)%nat then WaitNull else Mined "0xabc" (fun _ => Some receipt) in
  let retryOpts := Some (RetryOpts.mk None None (Some 125) None) in
  ((forall k, (k < 2)%nat ->
      priceAt 100 k <= 125 /\ timesOut chain retryOpts k (priceAt 100 k))
   /\ (2 < 3)%nat)
  /\ Utils.txWithGasAdjustment 3 chain 100 retryOpts
     = Some (Utils.mkTxRun (Some receipt) None [100; 110; 121]).
Proof.
  cbv zeta.
  assert (H : forall k, (k < 2)%nat ->
                priceAt 100 k <= 125
                /\ timesOut
                     (fun (k : nat) (_ : Z) =>
                        if (k <? 2)%nat then WaitNull
                        else Mined "0xabc" (fun _ => Some (TxReceipt.mk "0xabc" (Some 1))))
                     (Some (RetryOpts.mk None None (Some 125) None)) k (priceAt 100 k)).
  { intros k Hk. destruct k as [|[|k]]; [| |lia].
    - split; [vm_compute; discriminate|].
      exists (JS.VError (JS.newError "Send transaction timeout")). split; reflexivity.
    - split; [vm_compute; discriminate|].
      exists (JS.VError (JS.newError "Send transaction timeout")). split; reflexivity. }
  split; [split; [exact H | lia]|].
  destruct (txWithGasAdjustment_escalation
              (fun (k : nat) (_ : Z) =>
                 if (k <? 2)%nat then WaitNull
                 else Mined "0xabc" (fun _ => Some (TxReceipt.mk "0xabc" (Some 1))))
              100 (Some (RetryOpts.mk None None (Some 125) None)) 2 3 H ltac:(lia))
    as (_ & Hok & _).
  exact (Hok ltac:(vm_compute; discriminate) (TxReceipt.mk "0xabc" (Some 1)) eq_refl).
Defined.

(** C2 fails without a supplied maximum: a first submission at 100 that
    times out is not retried at 110, although the next submission would
    have been mined. *)
Lemma txWithGasAdjustment_no_retry_without_max :
  ~ retries_every_timeout_within_supplied_max.
Proof.
  intros H.
  specialize (H (fun (k : nat) (_ : Z) =>
                   match k with
                   | O => WaitNull
                   | S _ => Mined "0xabc" (fun _ => Some (TxReceipt.mk "0xabc" (Some 1)))
                   end)
                100 None 5%nat
                (Utils.mkTxRun None
                   (Some (JS.VError (JS.newError "Send transaction timeout"))) [100])
                O eq_refl eq_refl).
  cbn [nth_error Utils.sent] in H.
  assert (Hno : None = Some (priceAt 100 1)); [|discriminate Hno].
  apply H.
  - exists (JS.VError (JS.newError "Send transaction timeout")). split; reflexivity.
  - intros m Hm. discriminate Hm.
Qed.

Lemma submitTransaction_sent fuel gasPrice suggestedGasPrice chain retryOpts price run :
  Uploader.startGasPrice gasPrice suggestedGasPrice = Some price ->
  Utils.txWithGasAdjustment fuel chain price retryOpts = Some run ->
  exists run', Uploader.submitTransaction fuel gasPrice suggestedGasPrice chain retryOpts
               = Some run'
               /\ Utils.sent run' = Utils.sent run
               /\ Utils.txReceipt run' = match Utils.txErr run with
                                         | None => Utils.txReceipt run
                                         | Some _ => None
                                         end.
Proof.
  intros Hs Hr. unfold Uploader.submitTransaction. rewrite Hs, Hr.
  destruct run as [[r|] [e|] s]; cbn; eexists; split; try reflexivity; split; reflexivity.
Qed.

Lemma startGasPrice_spec gasPrice suggestedGasPrice :
  (0 < gasPrice -> Uploader.startGasPrice gasPrice suggestedGasPrice = Some gasPrice)
  /\ (gasPrice <= 0 -> Uploader.startGasPrice gasPrice suggestedGasPrice = suggestedGasPrice).
Proof.
  unfold Uploader.startGasPrice.
  split; intros H; destruct (Z.ltb_spec 0 gasPrice); try lia; reflexivity.
Qed.

(** ** UploadExecutor *)

Lemma null_acknowledgement_retryable (node : StorageNode.t) :
  failsRetryably node (UploadResolves None).
Proof.
  assert (Hin : JS.includes "returned null for upload segments"
                  ("Node " ++ StorageNode.url node
                   ++ " returned null for upload segments") = true).
  { apply (includes_later _ "Node "), includes_later. reflexivity. }
  eexists. split; [reflexivity|].
  unfold classify, Uploader.isAlreadyUploadedError, Uploader.isRetryableError, JS.newError.
  cbn [JS.data JS.message]. rewrite Hin, orb_true_r. reflexivity.
Qed.

Lemma too_many_data_writing_retryable (node : StorageNode.t) (before after : string) :
  failsRetryably node
    (UploadRejects (JS.VError (JS.newError (before ++ "too many data writing" ++ after)))).
Proof.
  eexists. split; [reflexivity|].
  unfold classify, Uploader.isAlreadyUploadedError, Uploader.isRetryableError, JS.newError.
  cbn [JS.data JS.message].
  rewrite (includes_later _ before _ (includes_here "too many data writing" after)).
  reflexivity.
Qed.

Lemma already_uploaded_data (msg before after : string) :
  Uploader.isAlreadyUploadedError
    (JS.VError (JS.mkError msg
                  (Some (JS.DString (before ++ "already uploaded and finalized" ++ after)))))
  = true.
Proof.
  unfold Uploader.isAlreadyUploadedError. cbn [JS.data JS.message].
  rewrite (includes_later _ before _ (includes_here "already uploaded and finalized" after)).
  reflexivity.
Qed.

Lemma uploadLoop_first_throw fuel node segments txSeq retryOpts maxRetries attempt
      calls lastError e :
  attempt < maxRetries ->
  thrownOn node (StorageNode.uploadSegmentsByTxSeq node calls segments txSeq) = Some e ->
  Uploader.uploadLoop (S fuel) node segments txSeq retryOpts maxRetries attempt calls lastError
  = if Uploader.isAlreadyUploadedError e then Some (Uploader.mkTaskRun (Uploader.Returned 0) 1 [])
    else if Uploader.isRetryableError e then
      if attempt <? maxRetries - 1 then
        Uploader.retriedAfter (Uploader.intervalOf retryOpts * 1000 * (attempt + 1))
          (Uploader.uploadLoop fuel node segments txSeq retryOpts maxRetries
             (attempt + 1) (S calls) (Some e))
      else
        Some (Uploader.mkTaskRun
          (Uploader.ReturnedError (JS.VError (JS.newError
             ("Failed after " ++ JS.showZ maxRetries ++ " attempts: "
              ++ Uploader.errorMessage e)))) 1 [])
    else Some (Uploader.mkTaskRun (Uploader.ReturnedError e) 1 []).
Proof.
  intros Hlt Hth. cbn [Uploader.uploadLoop].
  destruct (Z.ltb_spec attempt maxRetries); [|lia].
  unfold thrownOn in Hth.
  destruct (StorageNode.uploadSegmentsByTxSeq node calls segments txSeq) as [[res|]|t];
    [discriminate | |]; injection Hth as <-; reflexivity.
Qed.

Lemma uploadLoop_resolves fuel node segments txSeq retryOpts maxRetries attempt
      calls lastError res :
  attempt < maxRetries ->
  StorageNode.uploadSegmentsByTxSeq node calls segments txSeq = UploadResolves (Some res) ->
  Uploader.uploadLoop (S fuel) node segments txSeq retryOpts maxRetries attempt calls lastError
  = Some (Uploader.mkTaskRun (Uploader.Returned res) 1 []).
Proof.
  intros Hlt Hres. cbn [Uploader.uploadLoop].
  destruct (Z.ltb_spec attempt maxRetries); [|lia].
  rewrite Hres. reflexivity.
Qed.

Lemma classify_retryable e :
  classify e = Retryable ->
  Uploader.isAlreadyUploadedError e = false /\ Uploader.isRetryableError e = true.
Proof.
  unfold classify.
  destruct (Uploader.isAlreadyUploadedError e); [discriminate|].
  destruct (Uploader.isRetryableError e); [auto | discriminate].
Qed.

(** C3: when the first two upload attempts fail with a retryable error and
    the third succeeds, [uploadTask] under the default retry options makes
    exactly 3 attempts, sleeps 3 s before the second and 6 s before the
    third (the interval times the attempt number), and returns the node's
    acknowledgement. *)
Theorem uploadTask_two_retries_then_success
    (c : Constants) (encodeBase64 : list Byte.byte -> string)
    (node : StorageNode.t) (file : ZgFile.t) (tree : MerkleTree.t)
    (task : UploadTask.t) (retryOpts : option RetryOpts.t)
    (segments : list SegWithProof.t) (res : Z) :
  Uploader.collectSegments c encodeBase64 file tree (UploadTask.numShard task)
    (Z.to_nat (UploadTask.taskSize task)) (UploadTask.segIndex task) = inr segments ->
  optField RetryOpts.TooManyDataRetries retryOpts = None ->
  optField RetryOpts.Interval retryOpts = None ->
  failsRetryably node
    (StorageNode.uploadSegmentsByTxSeq node 0 segments (UploadTask.txSeq task)) ->
  failsRetryably node
    (StorageNode.uploadSegmentsByTxSeq node 1 segments (UploadTask.txSeq task)) ->
  StorageNode.uploadSegmentsByTxSeq node 2 segments (UploadTask.txSeq task)
  = UploadResolves (Some res) ->
  Uploader.uploadTask c encodeBase64 node file tree task retryOpts
  = Some (Uploader.mkTaskRun (Uploader.Returned res) 3 [3 * 1000 * 1; 3 * 1000 * 2]).
Proof.
  intros Hseg Hmax Hint (e1 & Hth1 & Hc1) (e2 & Hth2 & Hc2) Hok.
  apply classify_retryable in Hc1, Hc2.
  destruct Hc1 as [Ha1 Hr1], Hc2 as [Ha2 Hr2].
  unfold Uploader.uploadTask. rewrite Hseg.
  assert (Hm : Uploader.maxRetriesOf retryOpts = 3).
  { unfold Uploader.maxRetriesOf. destruct retryOpts as [o|]; [|reflexivity].
    cbn in Hmax. rewrite Hmax. reflexivity. }
  assert (Hi : Uploader.intervalOf retryOpts = 3).
  { unfold Uploader.intervalOf. destruct retryOpts as [o|]; [|reflexivity].
    cbn in Hint. rewrite Hint. reflexivity. }
  rewrite Hm. change (Z.to_nat 3) with 3%nat.
  rewrite uploadLoop_first_throw with (e := e1) by (lia || exact Hth1).
  rewrite Ha1, Hr1. change (0 <? 3 - 1) with true. cbv iota.
  rewrite uploadLoop_first_throw with (e := e2) by (lia || exact Hth2).
  rewrite Ha2, Hr2. change (0 + 1 <? 3 - 1) with true. cbv iota.
  rewrite uploadLoop_resolves with (res := res) by (lia || exact Hok).
  rewrite Hi. reflexivity.
Qed.

Lemma uploadTask_two_retries_then_success_witness :
  (Uploader.collectSegments tinyConstants string_of_list_byte tinyFile tinyTree
     (UploadTask.numShard tinyTask) (Z.to_nat (UploadTask.taskSize tinyTask))
     (UploadTask.segIndex tinyTask) = inr tinySegments
   /\ optField RetryOpts.TooManyDataRetries None = None
   /\ optField RetryOpts.Interval None = None
   /\ failsRetryably busyTwiceNode
        (StorageNode.uploadSegmentsByTxSeq busyTwiceNode 0 tinySegments 7)
   /\ failsRetryably busyTwiceNode
        (StorageNode.uploadSegmentsByTxSeq busyTwiceNode 1 tinySegments 7)
   /\ StorageNode.uploadSegmentsByTxSeq busyTwiceNode 2 tinySegments 7
      = UploadResolves (Some 1))
  /\ Uploader.uploadTask tinyConstants string_of_list_byte busyTwiceNode tinyFile
       tinyTree tinyTask None
     = Some (Uploader.mkTaskRun (Uploader.Returned 1) 3 [3000; 6000]).
Proof.
  assert (H0 : failsRetryably busyTwiceNode
                 (StorageNode.uploadSegmentsByTxSeq busyTwiceNode 0 tinySegments 7)).
  { eexists. split; reflexivity. }
  assert (H1 : failsRetryably busyTwiceNode
                 (StorageNode.uploadSegmentsByTxSeq busyTwiceNode 1 tinySegments 7)).
  { eexists. split; reflexivity. }
  split.
  - repeat (split; [first [reflexivity | assumption]|]). reflexivity.
  - exact (uploadTask_two_retries_then_success tinyConstants string_of_list_byte
             busyTwiceNode tinyFile tinyTree tinyTask None tinySegments 1
             eq_refl eq_refl eq_refl H0 H1 eq_refl).
Defined.

(** C4, as the code has it: when the segments of the task are read and the
    retry budget allows at least one attempt ([TooManyDataRetries] unset or
    at least 1), a first upload that fails with an error classified as
    already uploaded makes [uploadTask] return success ([0]) after exactly
    one attempt and without sleeping. *)
Theorem uploadTask_already_uploaded
    (c : Constants) (encodeBase64 : list Byte.byte -> string)
    (node : StorageNode.t) (file : ZgFile.t) (tree : MerkleTree.t)
    (task : UploadTask.t) (retryOpts : option RetryOpts.t)
    (segments : list SegWithProof.t) (e : JS.Thrown) :
  Uploader.collectSegments c encodeBase64 file tree (UploadTask.numShard task)
    (Z.to_nat (UploadTask.taskSize task)) (UploadTask.segIndex task) = inr segments ->
  1 <= Uploader.maxRetriesOf retryOpts ->
  StorageNode.uploadSegmentsByTxSeq node 0 segments (UploadTask.txSeq task)
  = UploadRejects e ->
  Uploader.isAlreadyUploadedError e = true ->
  Uploader.uploadTask c encodeBase64 node file tree task retryOpts
  = Some (Uploader.mkTaskRun (Uploader.Returned 0) 1 []).
Proof.
  intros Hseg Hmax Hrej Hcls.
  unfold Uploader.uploadTask. rewrite Hseg.
  destruct (Z.to_nat (Uploader.maxRetriesOf retryOpts)) as [|fuel] eqn:Hfuel; [lia|].
  rewrite uploadLoop_first_throw with (e := e);
    [rewrite Hcls; reflexivity | lia | rewrite Hrej; reflexivity].
Qed.

Lemma uploadTask_already_uploaded_witness :
  (Uploader.collectSegments tinyConstants string_of_list_byte tinyFile tinyTree
     (UploadTask.numShard tinyTask) (Z.to_nat (UploadTask.taskSize tinyTask))
     (UploadTask.segIndex tinyTask) = inr tinySegments
   /\ 1 <= Uploader.maxRetriesOf None
   /\ Uploader.isAlreadyUploadedError
        (JS.VError (JS.mkError "Invalid params"
                      (Some (JS.DString "already uploaded and finalized")))) = true)
  /\ Uploader.uploadTask tinyConstants string_of_list_byte finalizedNode tinyFile
       tinyTree tinyTask None
     = Some (Uploader.mkTaskRun (Uploader.Returned 0) 1 []).
Proof.
  split.
  - split; [reflexivity|]. split; [cbn; lia | reflexivity].
  - apply (uploadTask_already_uploaded tinyConstants string_of_list_byte
             finalizedNode tinyFile tinyTree tinyTask None tinySegments
             (JS.VError (JS.mkError "Invalid params"
                           (Some (JS.DString "already uploaded and finalized")))));
      [reflexivity | cbn; lia | reflexivity | reflexivity].
Defined.

(** C4 fails for a retry budget of zero: no upload attempt is made and an
    error is returned. *)
Lemma uploadTask_already_uploaded_zero_budget :
  Uploader.uploadTask tinyConstants string_of_list_byte finalizedNode tinyFile
    tinyTree tinyTask (Some (RetryOpts.mk None None None (Some 0)))
  = Some (Uploader.mkTaskRun
            (Uploader.ReturnedError (JS.VError (JS.newError
               "Upload failed after 0 attempts to node http://node1"))) 0 [])
  /\ ~ already_uploaded_gives_one_attempt.
Proof.
  split; [reflexivity|].
  intros H.
  destruct (H tinyConstants string_of_list_byte finalizedNode tinyFile tinyTree
              tinyTask (Some (RetryOpts.mk None None None (Some 0)))) as [res Hres].
  - intros k segments txSeq. eexists. split; reflexivity.
  - discriminate Hres.
Qed.

(** ** TaskPlanner *)

Lemma nodeTasks_clientIndex fuel clientIndex shardConfig taskSize txSeq startSeg endSeg :
  forall segIndex tasks,
    Uploader.nodeTasks fuel clientIndex shardConfig taskSize txSeq startSeg endSeg segIndex
    = Some tasks ->
    Forall (fun t => UploadTask.clientIndex t = clientIndex) tasks.
Proof.
  induction fuel as [|fuel IH]; intros segIndex tasks; cbn [Uploader.nodeTasks];
    destruct (segIndex <=? endSeg); try discriminate;
    try (intros H; injection H as <-; constructor).
  destruct (Uploader.nodeTasks fuel _ _ _ _ _ _ _) as [rest|] eqn:E; [|discriminate].
  intros H. injection H as <-. constructor; [reflexivity|]. eapply IH, E.
Qed.

Lemma nodeTasks_returns clientIndex shardConfig taskSize txSeq startSeg endSeg fuel :
  0 < ShardConfig.numShard shardConfig * taskSize ->
  forall segIndex,
    (Z.to_nat (endSeg - segIndex + 1) <= fuel)%nat ->
    exists tasks,
      Uploader.nodeTasks fuel clientIndex shardConfig taskSize txSeq startSeg endSeg segIndex
      = Some tasks.
Proof.
  intros Hstep. induction fuel as [|fuel IH]; intros segIndex Hfuel;
    cbn [Uploader.nodeTasks]; destruct (Z.leb_spec segIndex endSeg);
    try (eexists; reflexivity); [lia|].
  destruct (IH (segIndex + ShardConfig.numShard shardConfig * taskSize)) as [rest ->];
    [lia|]. eexists; reflexivity.
Qed.

Lemma perNodeTasks_sources fuel getFileInfo taskSize txSeq startSeg endSeg shardConfigs :
  forall clientIndex uploadTasks,
    Uploader.perNodeTasks fuel getFileInfo taskSize txSeq startSeg endSeg
      clientIndex shardConfigs = Some uploadTasks ->
    Forall (Forall (fun t =>
              Uploader.alreadyFinalized (getFileInfo (UploadTask.clientIndex t)) = false))
           uploadTasks.
Proof.
  induction shardConfigs as [|cfg rest IH]; intros clientIndex uploadTasks;
    cbn [Uploader.perNodeTasks].
  - intros H. injection H as <-. constructor.
  - destruct (Uploader.alreadyFinalized (getFileInfo clientIndex)) eqn:Hfin.
    + apply IH.
    + destruct (Uploader.nodeTasks fuel clientIndex cfg taskSize txSeq startSeg endSeg _)
        as [tasks|] eqn:Hn; [|discriminate].
      destruct (Uploader.perNodeTasks fuel getFileInfo taskSize txSeq startSeg endSeg
                  (S clientIndex) rest) as [others|] eqn:Hp; [|discriminate].
      intros H. injection H as <-.
      specialize (IH _ _ Hp).
      destruct (0 <? Z.of_nat (List.length tasks)); [|exact IH].
      constructor; [|exact IH].
      eapply Forall_impl; [|eapply nodeTasks_clientIndex, Hn].
      cbn. intros t ->. exact Hfin.
Qed.

Lemma perNodeTasks_returns getFileInfo taskSize txSeq startSeg endSeg shardConfigs :
  0 < taskSize ->
  Forall (fun cfg => 0 < ShardConfig.numShard cfg) shardConfigs ->
  forall clientIndex,
  exists fuel0, forall fuel, (fuel0 <= fuel)%nat ->
    exists uploadTasks,
      Uploader.perNodeTasks fuel getFileInfo taskSize txSeq startSeg endSeg
        clientIndex shardConfigs = Some uploadTasks.
Proof.
  intros Hts Hall. induction Hall as [|cfg rest Hcfg _ IH]; intros clientIndex.
  - exists O. intros fuel _. eexists; reflexivity.
  - destruct (IH (S clientIndex)) as [fuelRest HRest].
    exists (Nat.max (Z.to_nat (endSeg - Uploader.nextSgmentIndex cfg startSeg + 1)) fuelRest).
    intros fuel Hfuel. cbn [Uploader.perNodeTasks].
    destruct (HRest fuel ltac:(lia)) as [others Hothers].
    destruct (Uploader.alreadyFinalized (getFileInfo clientIndex)).
    + exists others. exact Hothers.
    + destruct (nodeTasks_returns clientIndex cfg taskSize txSeq startSeg endSeg fuel
                  ltac:(nia) (Uploader.nextSgmentIndex cfg startSeg) ltac:(lia))
        as [tasks ->].
      rewrite Hothers. eexists; reflexivity.
Qed.

Lemma insertByLength_In {A : Type} (x l : list A) (sorted : list (list A)) :
  In x (Uploader.insertByLength l sorted) <-> x = l \/ In x sorted.
Proof.
  induction sorted as [|h t IH]; cbn [Uploader.insertByLength].
  - cbn. intuition congruence.
  - destruct (List.length h <=? List.length l)%nat; cbn [In]; [rewrite IH|];
      intuition congruence.
Qed.

Lemma sortByLength_In {A : Type} (x : list A) (ls : list (list A)) :
  In x (Uploader.sortByLength ls) <-> In x ls.
Proof.
  unfold Uploader.sortByLength.
  assert (H : forall acc, In x (fold_left (fun sorted l => Uploader.insertByLength l sorted)
                                  ls acc) <-> In x ls \/ In x acc).
  { induction ls as [|l rest IH]; intros acc; cbn [fold_left In].
    - intuition.
    - rewrite IH, insertByLength_In. intuition congruence. }
  rewrite H. cbn. intuition.
Qed.

Lemma round_In {A : Type} (t : A) (taskIndex : nat) (uploadTasks : list (list A)) :
  In t (Uploader.round taskIndex uploadTasks) ->
  exists l, In l uploadTasks /\ nth_error l taskIndex = Some t.
Proof.
  induction uploadTasks as [|l rest IH]; cbn [Uploader.round]; [intros []|].
  destruct (nth_error l taskIndex) as [task|] eqn:E; [|intros []].
  intros [<-|Hin].
  - exists l. split; [left; reflexivity | exact E].
  - destruct (IH Hin) as (l' & Hl' & Hn). exists l'. split; [right; exact Hl' | exact Hn].
Qed.

Lemma roundRobin_In {A : Type} (t : A) (uploadTasks : list (list A)) :
  In t (Uploader.roundRobin uploadTasks) ->
  exists l, In l uploadTasks /\ In t l.
Proof.
  unfold Uploader.roundRobin. destruct uploadTasks as [|first rest]; [intros []|].
  rewrite in_flat_map. intros (taskIndex & _ & Hin).
  destruct (round_In _ _ _ Hin) as (l & Hl & Hn).
  exists l. split; [exact Hl | eapply nth_error_In, Hn].
Qed.

Lemma insertByLength_ascending {A : Type} (l : list A) (sorted : list (list A)) :
  ascendingLength sorted -> ascendingLength (Uploader.insertByLength l sorted).
Proof.
  unfold ascendingLength. induction 1 as [|h t Ht IH Hall]; cbn [Uploader.insertByLength].
  - constructor; constructor.
  - destruct (Nat.leb_spec (List.length h) (List.length l)) as [Hle|Hgt].
    + constructor; [exact IH|].
      apply Forall_forall. intros x Hx. apply insertByLength_In in Hx.
      destruct Hx as [->|Hx]; [exact Hle|].
      rewrite Forall_forall in Hall. apply Hall, Hx.
    + constructor; [constructor; assumption|].
      constructor; [lia|].
      eapply Forall_impl; [|exact Hall]. cbn. intros; lia.
Qed.

Lemma sortByLength_ascending {A : Type} (ls : list (list A)) :
  ascendingLength (Uploader.sortByLength ls).
Proof.
  unfold Uploader.sortByLength.
  assert (H : forall acc, ascendingLength acc ->
                ascendingLength
                  (fold_left (fun sorted l => Uploader.insertByLength l sorted) ls acc)).
  { induction ls as [|l rest IH]; intros acc Hacc; cbn [fold_left]; [exact Hacc|].
    apply IH, insertByLength_ascending, Hacc. }
  apply H. constructor.
Qed.

Lemma round_full {A : Type} (taskIndex : nat) (uploadTasks : list (list A)) :
  Forall (fun l => (taskIndex < List.length l)%nat) uploadTasks ->
  List.length (Uploader.round taskIndex uploadTasks) = List.length uploadTasks.
Proof.
  induction 1 as [|l rest Hl _ IH]; cbn [Uploader.round]; [reflexivity|].
  destruct (nth_error l taskIndex) eqn:E.
  - cbn. rewrite IH. reflexivity.
  - apply nth_error_None in E. lia.
Qed.

(** The flat list holds as many tasks of each node as the shortest
    per-node list has: its length is the number of lists times the length
    of the first list in ascending order. *)
Lemma roundRobin_ascending_length {A : Type} (first : list A) (rest : list (list A)) :
  ascendingLength (first :: rest) ->
  List.length (Uploader.roundRobin (first :: rest))
  = (List.length first * List.length (first :: rest))%nat.
Proof.
  intros Hs. apply StronglySorted_inv in Hs. destruct Hs as [_ Hall].
  unfold Uploader.roundRobin.
  rewrite flat_map_constant_length with (c := List.length (first :: rest)).
  - rewrite length_seq. reflexivity.
  - intros taskIndex Hin. apply in_seq in Hin. apply round_full.
    constructor; [lia|].
    eapply Forall_impl; [|exact Hall]. cbn. intros; lia.
Qed.

(** C5: a node whose file-info lookup at the root hash returns a record
    with [finalized = true] gets no task: whenever [splitTasks] returns a
    task list, no task in it targets that node's client index.  And
    [splitTasks] does return, given enough fuel, whenever the task size and
    every [numShard] are positive. *)
Theorem splitTasks_skips_finalized (c : Constants)
    (checkReplica : list ShardConfig.t -> Z -> bool)
    (shardConfigs : option (list ShardConfig.t))
    (getFileInfo : nat -> option FileInfo.t)
    (info : FileInfo.t) (opts : UploadOption.t) (i : nat) (cInfo : FileInfo.t) :
  getFileInfo i = Some cInfo ->
  FileInfo.finalized cInfo = true ->
  (forall fuel tasks,
      Uploader.splitTasks c fuel checkReplica shardConfigs getFileInfo info opts
      = Some (Some tasks) ->
      Forall (fun t => UploadTask.clientIndex t <> i) tasks)
  /\ (0 < UploadOption.taskSize opts ->
      (forall cfgs, shardConfigs = Some cfgs ->
                    Forall (fun cfg => 0 < ShardConfig.numShard cfg) cfgs) ->
      exists fuel0, forall fuel, (fuel0 <= fuel)%nat ->
        exists planned,
          Uploader.splitTasks c fuel checkReplica shardConfigs getFileInfo info opts
          = Some planned).
Proof.
  intros Hinfo Hfin. split.
  - intros fuel tasks. unfold Uploader.splitTasks.
    destruct shardConfigs as [cfgs|]; [|discriminate].
    destruct (negb _); [discriminate|].
    destruct (Utils.SegmentRange c _ _) as [startSeg endSeg].
    destruct (Uploader.perNodeTasks fuel getFileInfo _ _ startSeg endSeg O cfgs)
      as [uploadTasks|] eqn:Hp; [|discriminate].
    intros H. injection H as <-.
    apply Forall_forall. intros t Ht.
    destruct (roundRobin_In _ _ Ht) as (l & Hl & Htl).
    apply (proj1 (sortByLength_In _ _)) in Hl.
    pose proof (perNodeTasks_sources _ _ _ _ _ _ _ _ _ Hp) as Hsrc.
    rewrite Forall_forall in Hsrc. specialize (Hsrc l Hl).
    rewrite Forall_forall in Hsrc. specialize (Hsrc t Htl).
    intros Heq. rewrite Heq, Hinfo in Hsrc. cbn in Hsrc. congruence.
  - intros Hts Hcfgs. unfold Uploader.splitTasks.
    destruct shardConfigs as [cfgs|]; [|exists O; intros; eexists; reflexivity].
    destruct (negb _); [exists O; intros; eexists; reflexivity|].
    destruct (Utils.SegmentRange c _ _) as [startSeg endSeg].
    destruct (perNodeTasks_returns getFileInfo (UploadOption.taskSize opts)
                (FileInfo.seq (FileInfo.tx info)) startSeg endSeg cfgs Hts
                (Hcfgs cfgs eq_refl) O) as [fuel0 Hret].
    exists fuel0. intros fuel Hfuel. destruct (Hret fuel Hfuel) as [uploadTasks ->].
    eexists; reflexivity.
Qed.

Lemma splitTasks_skips_finalized_witness :
  (secondFinalized 1 = Some (FileInfo.mk (FileInfo.mkTx 7 0 (3 * 1024 * 256)) true)
   /\ FileInfo.finalized (FileInfo.mk (FileInfo.mkTx 7 0 (3 * 1024 * 256)) true) = true)
  /\ Uploader.splitTasks protocolConstants 5 anyReplica (Some twoShards)
       secondFinalized threeSegmentsInfo oneSegmentTasks
     = Some (Some [taskFor 0 0; taskFor 0 2])
  /\ Forall (fun t => UploadTask.clientIndex t <> 1%nat) [taskFor 0 0; taskFor 0 2].
Proof.
  split; [split; reflexivity|]. split; [reflexivity|].
  destruct (splitTasks_skips_finalized protocolConstants anyReplica (Some twoShards)
              secondFinalized threeSegmentsInfo oneSegmentTasks 1
              (FileInfo.mk (FileInfo.mkTx 7 0 (3 * 1024 * 256)) true)
              eq_refl eq_refl) as [Hnone _].
  exact (Hnone 5%nat [taskFor 0 0; taskFor 0 2] eq_refl).
Defined.

(** C1 does not hold of the code: the per-node lists are sorted by
    ascending length and the rounds stop at the length of the first, that
    is the shortest, list.  With node 0 holding the tasks for segments 0
    and 2 and node 1 the task for segment 1, the flat list is the task of
    node 1 followed by the first task of node 0; the task of node 0 for
    segment 2 is in a per-node list and not in the flat list. *)
Theorem splitTasks_drops_longer_lists :
  Uploader.perNodeTasks 5 (fun _ => None) 1 7 0 2 0 twoShards
  = Some [[taskFor 0 0; taskFor 0 2]; [taskFor 1 1]]
  /\ Utils.SegmentRange protocolConstants 0 (3 * 1024 * 256) = (0, 2)
  /\ Uploader.splitTasks protocolConstants 5 anyReplica (Some twoShards)
       (fun _ => None) threeSegmentsInfo oneSegmentTasks
     = Some (Some [taskFor 1 1; taskFor 0 0])
  /\ ~ In (taskFor 0 2) [taskFor 1 1; taskFor 0 0].
Proof.
  split; [reflexivity|]. split; [reflexivity|]. split; [reflexivity|].
  cbn [In]. intros [H|[H|[]]]; discriminate H.
Qed.

(** ** UploadExecutor: the retry loop in general *)

Lemma backoff_cons interval attempt n :
  backoff interval attempt (S n)
  = interval * 1000 * (attempt + 1) :: backoff interval (attempt + 1) n.
Proof.
  unfold backoff. cbn [seq map]. f_equal; [f_equal; lia|].
  rewrite <- seq_shift, map_map. apply map_ext. intros j. f_equal. lia.
Qed.

Lemma uploadLoop_after_retries node segments txSeq retryOpts maxRetries (j : nat) :
  forall fuel attempt calls lastError,
    (forall i, (i < j)%nat ->
       failsRetryably node
         (StorageNode.uploadSegmentsByTxSeq node (calls + i) segments txSeq)) ->
    attempt + Z.of_nat j < maxRetries ->
    (j < fuel)%nat ->
    Uploader.uploadLoop fuel node segments txSeq retryOpts maxRetries attempt calls lastError
    = match Uploader.uploadLoop (fuel - j) node segments txSeq retryOpts maxRetries
              (attempt + Z.of_nat j) (calls + j)
              match j with
              | O => lastError
              | S i => thrownOn node
                         (StorageNode.uploadSegmentsByTxSeq node (calls + i) segments txSeq)
              end with
      | Some run =>
          Some (Uploader.mkTaskRun (Uploader.result run)
                  (j + Uploader.attempts run)
                  (backoff (Uploader.intervalOf retryOpts) attempt j ++ Uploader.sleeps run))
      | None => None
      end.
Proof.
  induction j as [|j IH]; intros fuel attempt calls lastError Hfail Hlt Hfuel.
  - rewrite Z.add_0_r, Nat.add_0_r, Nat.sub_0_r.
    destruct (Uploader.uploadLoop fuel _ _ _ _ _ _ _ _) as [[r a s]|]; reflexivity.
  - destruct fuel as [|fuel]; [lia|].
    destruct (Hfail O ltac:(lia)) as (e & Hth & Hcls).
    rewrite Nat.add_0_r in Hth.
    apply classify_retryable in Hcls. destruct Hcls as [Ha Hr].
    rewrite uploadLoop_first_throw with (e := e) by (lia || exact Hth).
    rewrite Ha, Hr.
    destruct (Z.ltb_spec attempt (maxRetries - 1)); [|lia].
    rewrite (IH fuel (attempt + 1) (S calls) (Some e)); [| |lia|lia].
    + replace (attempt + 1 + Z.of_nat j) with (attempt + Z.of_nat (S j)) by lia.
      replace (S calls + j)%nat with (calls + S j)%nat by lia.
      replace (S fuel - S j)%nat with (fuel - j)%nat by lia.
      assert (Hlast : match j with
                      | O => Some e
                      | S i => thrownOn node
                                 (StorageNode.uploadSegmentsByTxSeq node (S calls + i)
                                    segments txSeq)
                      end
                      = thrownOn node
                          (StorageNode.uploadSegmentsByTxSeq node (calls + j) segments txSeq)).
      { destruct j as [|i].
        - rewrite Nat.add_0_r. symmetry. exact Hth.
        - replace (S calls + i)%nat with (calls + S i)%nat by lia. reflexivity. }
      rewrite Hlast.
      destruct (Uploader.uploadLoop (fuel - j) _ _ _ _ _ _ _ _) as [[r a s]|];
        [|reflexivity].
      cbn [Uploader.retriedAfter Uploader.result Uploader.attempts Uploader.sleeps].
      rewrite backoff_cons. reflexivity.
    + intros i Hi. replace (S calls + i)%nat with (calls + S i)%nat by lia.
      apply Hfail. lia.
Qed.

(** X1: after [j] attempts that fail retryably, with the retry budget not
    used up, the next answer decides the task: an acknowledgement is
    returned as it is, an already-uploaded error gives [0], and an error
    that is neither already-uploaded nor retryable is returned as the
    failure.  In each case [j + 1] attempts were made and the sleeps were
    the interval times 1, 2, ..., [j] seconds. *)
Theorem uploadTask_ends_on_decisive_answer
    (c : Constants) (encodeBase64 : list Byte.byte -> string)
    (node : StorageNode.t) (file : ZgFile.t) (tree : MerkleTree.t)
    (task : UploadTask.t) (retryOpts : option RetryOpts.t)
    (segments : list SegWithProof.t) (j : nat) :
  Uploader.collectSegments c encodeBase64 file tree (UploadTask.numShard task)
    (Z.to_nat (UploadTask.taskSize task)) (UploadTask.segIndex task) = inr segments ->
  Z.of_nat j < Uploader.maxRetriesOf retryOpts ->
  (forall i, (i < j)%nat ->
     failsRetryably node
       (StorageNode.uploadSegmentsByTxSeq node i segments (UploadTask.txSeq task))) ->
  let answer := StorageNode.uploadSegmentsByTxSeq node j segments (UploadTask.txSeq task) in
  let ended result :=
    Uploader.uploadTask c encodeBase64 node file tree task retryOpts
    = Some (Uploader.mkTaskRun result (S j)
              (backoff (Uploader.intervalOf retryOpts) 0 j)) in
  (forall res, answer = UploadResolves (Some res) -> ended (Uploader.Returned res))
  /\ (forall e, thrownOn node answer = Some e -> classify e = AlreadyUploaded ->
      ended (Uploader.Returned 0))
  /\ (forall e, thrownOn node answer = Some e -> classify e = NonRetryable ->
      ended (Uploader.ReturnedError e)).
Proof.
  intros Hseg Hj Hfail. cbv zeta.
  unfold Uploader.uploadTask. rewrite Hseg.
  rewrite (uploadLoop_after_retries node segments (UploadTask.txSeq task) retryOpts
             (Uploader.maxRetriesOf retryOpts) j); [|exact Hfail|lia|lia].
  destruct (Z.to_nat (Uploader.maxRetriesOf retryOpts) - j)%nat as [|fuel] eqn:Hfuel; [lia|].
  cbn [Nat.add]. rewrite Z.add_0_l.
  split; [|split].
  - intros res Hres.
    rewrite uploadLoop_resolves with (res := res) by (lia || exact Hres).
    cbn [Uploader.result Uploader.attempts Uploader.sleeps].
    rewrite Nat.add_1_r, app_nil_r. reflexivity.
  - intros e Hth Hcls.
    rewrite uploadLoop_first_throw with (e := e) by (lia || exact Hth).
    unfold classify in Hcls.
    destruct (Uploader.isAlreadyUploadedError e);
      [|destruct (Uploader.isRetryableError e); discriminate].
    cbn [Uploader.result Uploader.attempts Uploader.sleeps].
    rewrite Nat.add_1_r, app_nil_r. reflexivity.
  - intros e Hth Hcls.
    rewrite uploadLoop_first_throw with (e := e) by (lia || exact Hth).
    unfold classify in Hcls.
    destruct (Uploader.isAlreadyUploadedError e); [discriminate|].
    destruct (Uploader.isRetryableError e); [discriminate|].
    cbn [Uploader.result Uploader.attempts Uploader.sleeps].
    rewrite Nat.add_1_r, app_nil_r. reflexivity.
Qed.

(** X2: when every attempt the retry budget allows fails retryably,
    [uploadTask] makes exactly [maxRetries] attempts, sleeps the interval
    times 1, ..., [maxRetries - 1] seconds between them, and returns the
    error [Failed after <maxRetries> attempts: <message of the last
    error>]. *)
Theorem uploadTask_retries_exhausted
    (c : Constants) (encodeBase64 : list Byte.byte -> string)
    (node : StorageNode.t) (file : ZgFile.t) (tree : MerkleTree.t)
    (task : UploadTask.t) (retryOpts : option RetryOpts.t)
    (segments : list SegWithProof.t) (n : nat) :
  Uploader.collectSegments c encodeBase64 file tree (UploadTask.numShard task)
    (Z.to_nat (UploadTask.taskSize task)) (UploadTask.segIndex task) = inr segments ->
  Uploader.maxRetriesOf retryOpts = Z.of_nat (S n) ->
  (forall i, (i <= n)%nat ->
     failsRetryably node
       (StorageNode.uploadSegmentsByTxSeq node i segments (UploadTask.txSeq task))) ->
  exists e,
    thrownOn node (StorageNode.uploadSegmentsByTxSeq node n segments (UploadTask.txSeq task))
    = Some e
    /\ Uploader.uploadTask c encodeBase64 node file tree task retryOpts
       = Some (Uploader.mkTaskRun
                 (Uploader.ReturnedError (failedAfter (Z.of_nat (S n)) e))
                 (S n) (backoff (Uploader.intervalOf retryOpts) 0 n)).
Proof.
  intros Hseg Hmax Hfail.
  destruct (Hfail n ltac:(lia)) as (e & Hth & Hcls).
  exists e. split; [exact Hth|].
  apply classify_retryable in Hcls. destruct Hcls as [Ha Hr].
  unfold Uploader.uploadTask. rewrite Hseg, Hmax.
  rewrite (uploadLoop_after_retries node segments (UploadTask.txSeq task) retryOpts
             (Z.of_nat (S n)) n); [| intros; apply Hfail; lia | lia | lia].
  replace (Z.to_nat (Z.of_nat (S n)) - n)%nat with 1%nat by lia.
  cbn [Nat.add]. rewrite Z.add_0_l.
  rewrite uploadLoop_first_throw with (e := e) by (lia || exact Hth).
  rewrite Ha, Hr.
  destruct (Z.ltb_spec (Z.of_nat n) (Z.of_nat (S n) - 1)); [lia|].
  cbn [Uploader.result Uploader.attempts Uploader.sleeps].
  rewrite Nat.add_1_r, app_nil_r. reflexivity.
Qed.

Lemma uploadLoop_bounded node segments txSeq retryOpts maxRetries fuel :
  forall attempt calls lastError,
    (Z.to_nat (maxRetries - attempt) <= fuel)%nat ->
    exists run,
      Uploader.uploadLoop fuel node segments txSeq retryOpts maxRetries attempt calls lastError
      = Some run
      /\ (Uploader.attempts run <= Z.to_nat (maxRetries - attempt))%nat
      /\ (attempt < maxRetries -> (1 <= Uploader.attempts run)%nat)
      /\ Uploader.sleeps run
         = backoff (Uploader.intervalOf retryOpts) attempt (Uploader.attempts run - 1).
Proof.
  induction fuel as [|fuel IH]; intros attempt calls lastError Hfuel.
  - cbn [Uploader.uploadLoop]. destruct (Z.ltb_spec attempt maxRetries); [lia|].
    eexists. split; [reflexivity|]. cbn. repeat split; lia.
  - cbn [Uploader.uploadLoop]. destruct (Z.ltb_spec attempt maxRetries) as [Hlt|Hge].
    2:{ eexists. split; [reflexivity|]. cbn. repeat split; lia. }
    assert (Hone : forall r,
               exists run, Some (Uploader.mkTaskRun r 1 []) = Some run
                 /\ (Uploader.attempts run <= Z.to_nat (maxRetries - attempt))%nat
                 /\ (attempt < maxRetries -> (1 <= Uploader.attempts run)%nat)
                 /\ Uploader.sleeps run
                    = backoff (Uploader.intervalOf retryOpts) attempt
                        (Uploader.attempts run - 1)).
    { intros r. eexists. split; [reflexivity|]. cbn. repeat split; lia. }
    destruct (StorageNode.uploadSegmentsByTxSeq node calls segments txSeq) as [[res|]|t];
      [apply Hone| |].
    + match goal with |- context [Uploader.isAlreadyUploadedError ?e] => set (err := e) end.
      destruct (Uploader.isAlreadyUploadedError err); [apply Hone|].
      destruct (Uploader.isRetryableError err); [|apply Hone].
      destruct (Z.ltb_spec attempt (maxRetries - 1)); [|apply Hone].
      destruct (IH (attempt + 1) (S calls) (Some err) ltac:(lia)) as (run & -> & Hle & Hpos & Hsl).
      eexists. split; [reflexivity|].
      cbn [Uploader.attempts Uploader.sleeps]. specialize (Hpos ltac:(lia)).
      repeat split; try lia.
      rewrite Hsl. replace (S (Uploader.attempts run) - 1)%nat
        with (S (Uploader.attempts run - 1)) by lia.
      rewrite backoff_cons. reflexivity.
    + destruct (Uploader.isAlreadyUploadedError t); [apply Hone|].
      destruct (Uploader.isRetryableError t); [|apply Hone].
      destruct (Z.ltb_spec attempt (maxRetries - 1)); [|apply Hone].
      destruct (IH (attempt + 1) (S calls) (Some t) ltac:(lia)) as (run & -> & Hle & Hpos & Hsl).
      eexists. split; [reflexivity|].
      cbn [Uploader.attempts Uploader.sleeps]. specialize (Hpos ltac:(lia)).
      repeat split; try lia.
      rewrite Hsl. replace (S (Uploader.attempts run) - 1)%nat
        with (S (Uploader.attempts run - 1)) by lia.
      rewrite backoff_cons. reflexivity.
Qed.

(** X3: whatever the node answers, [uploadTask] returns; it calls the
    node at most [maxRetries] times (never when [maxRetries <= 0]), and the
    sleeps between its attempts are the interval times 1, 2, ... seconds:
    the back-off is linear and there is one sleep fewer than attempts. *)
Theorem uploadTask_attempts_bounded
    (c : Constants) (encodeBase64 : list Byte.byte -> string)
    (node : StorageNode.t) (file : ZgFile.t) (tree : MerkleTree.t)
    (task : UploadTask.t) (retryOpts : option RetryOpts.t) :
  exists run,
    Uploader.uploadTask c encodeBase64 node file tree task retryOpts = Some run
    /\ Z.of_nat (Uploader.attempts run) <= Z.max 0 (Uploader.maxRetriesOf retryOpts)
    /\ Uploader.sleeps run
       = backoff (Uploader.intervalOf retryOpts) 0 (Uploader.attempts run - 1).
Proof.
  unfold Uploader.uploadTask.
  destruct (Uploader.collectSegments _ _ _ _ _ _ _) as [err|segments].
  - eexists. split; [reflexivity|]. cbn. split; [lia | reflexivity].
  - destruct (uploadLoop_bounded node segments (UploadTask.txSeq task) retryOpts
                (Uploader.maxRetriesOf retryOpts)
                (Z.to_nat (Uploader.maxRetriesOf retryOpts)) 0 O None ltac:(lia))
      as (run & -> & Hle & _ & Hsl).
    exists run. split; [reflexivity|]. split; [lia | exact Hsl].
Qed.

Lemma uploadTask_ends_on_decisive_answer_witness :
  (Uploader.collectSegments tinyConstants string_of_list_byte tinyFile tinyTree
     (UploadTask.numShard tinyTask) (Z.to_nat (UploadTask.taskSize tinyTask))
     (UploadTask.segIndex tinyTask) = inr tinySegments
   /\ Z.of_nat 1 < Uploader.maxRetriesOf None
   /\ (forall i, (i < 1)%nat ->
         failsRetryably refusingNode
           (StorageNode.uploadSegmentsByTxSeq refusingNode i tinySegments 7)))
  /\ Uploader.uploadTask tinyConstants string_of_list_byte refusingNode tinyFile
       tinyTree tinyTask None
     = Some (Uploader.mkTaskRun
               (Uploader.ReturnedError (JS.VError (JS.newError "segment proof is invalid")))
               2 [3000]).
Proof.
  assert (H : forall i, (i < 1)%nat ->
                failsRetryably refusingNode
                  (StorageNode.uploadSegmentsByTxSeq refusingNode i tinySegments 7)).
  { intros i Hi. destruct i as [|i]; [|lia]. eexists. split; reflexivity. }
  split; [split; [reflexivity | split; [cbn; lia | exact H]]|].
  destruct (uploadTask_ends_on_decisive_answer tinyConstants string_of_list_byte
              refusingNode tinyFile tinyTree tinyTask None tinySegments 1
              eq_refl ltac:(cbn; lia) H) as (_ & _ & Hfail).
  exact (Hfail (JS.VError (JS.newError "segment proof is invalid")) eq_refl eq_refl).
Defined.

Lemma uploadTask_retries_exhausted_witness :
  (Uploader.collectSegments tinyConstants string_of_list_byte tinyFile tinyTree
     (UploadTask.numShard tinyTask) (Z.to_nat (UploadTask.taskSize tinyTask))
     (UploadTask.segIndex tinyTask) = inr tinySegments
   /\ Uploader.maxRetriesOf None = Z.of_nat 3
   /\ (forall i, (i <= 2)%nat ->
         failsRetryably alwaysBusyNode
           (StorageNode.uploadSegmentsByTxSeq alwaysBusyNode i tinySegments 7)))
  /\ Uploader.uploadTask tinyConstants string_of_list_byte alwaysBusyNode tinyFile
       tinyTree tinyTask None
     = Some (Uploader.mkTaskRun
               (Uploader.ReturnedError (JS.VError (JS.newError
                  "Failed after 3 attempts: too many data writing")))
               3 [3000; 6000]).
Proof.
  assert (H : forall i, (i <= 2)%nat ->
                failsRetryably alwaysBusyNode
                  (StorageNode.uploadSegmentsByTxSeq alwaysBusyNode i tinySegments 7)).
  { intros i _. eexists. split; reflexivity. }
  split; [split; [reflexivity | split; [reflexivity | exact H]]|].
  destruct (uploadTask_retries_exhausted tinyConstants string_of_list_byte
              alwaysBusyNode tinyFile tinyTree tinyTask None tinySegments 2
              eq_refl eq_refl H) as (e & He & Hrun).
  cbn in He. injection He as <-. exact Hrun.
Defined.

(** ** UploadExecutor: the segments of a task *)

Lemma getSegment_fields c encodeBase64 file tree segIndex all s err :
  Uploader.getSegment c encodeBase64 file tree segIndex = (all, Some s, err) ->
  SegWithProof.root s = MerkleTree.rootHash tree
  /\ SegWithProof.index s = segIndex
  /\ SegWithProof.proof s = MerkleTree.proofAt tree segIndex
  /\ SegWithProof.fileSize s = ZgFile.size file
  /\ err = None.
Proof.
  unfold Uploader.getSegment.
  destruct (ZgFile.numChunks file <=? _); [discriminate|].
  destruct (ZgFile.iterateWithOffsetAndBatch file _ _) as [segment|e]; [|discriminate].
  destruct (Uploader.reachesEnd c _ segment _); intros H; injection H as _ <- <-;
    cbn; auto.
Qed.

(** X4: the batch the first loop of [uploadTask] collects has at most
    [taskSize] segments; each carries the root hash of the tree, the size
    of the file and the proof at its own index, and its index is the
    task's segment index plus a multiple [k < taskSize] of [numShard]. *)
Theorem collectSegments_batch (c : Constants) (encodeBase64 : list Byte.byte -> string)
    (file : ZgFile.t) (tree : MerkleTree.t) (numShard : Z) (n : nat) :
  forall (segIndex : Z) (segments : list SegWithProof.t),
    Uploader.collectSegments c encodeBase64 file tree numShard n segIndex = inr segments ->
    (List.length segments <= n)%nat
    /\ Forall (fun s =>
                 SegWithProof.root s = MerkleTree.rootHash tree
                 /\ SegWithProof.fileSize s = ZgFile.size file
                 /\ SegWithProof.proof s = MerkleTree.proofAt tree (SegWithProof.index s)
                 /\ exists k, (k < n)%nat
                      /\ SegWithProof.index s = segIndex + Z.of_nat k * numShard)
              segments.
Proof.
  induction n as [|n IH]; intros segIndex segments; cbn [Uploader.collectSegments].
  - intros H. injection H as <-. split; [cbn; lia | constructor].
  - destruct (Uploader.getSegment c encodeBase64 file tree segIndex)
      as [[all seg] err] eqn:Hget.
    destruct err as [e|]; [discriminate|].
    assert (Hhere : Forall (fun s =>
                        SegWithProof.root s = MerkleTree.rootHash tree
                        /\ SegWithProof.fileSize s = ZgFile.size file
                        /\ SegWithProof.proof s
                           = MerkleTree.proofAt tree (SegWithProof.index s)
                        /\ exists k, (k < S n)%nat
                             /\ SegWithProof.index s = segIndex + Z.of_nat k * numShard)
                      match seg with Some s => [s] | None => [] end).
    { destruct seg as [s|]; [|constructor].
      destruct (getSegment_fields _ _ _ _ _ _ _ _ Hget) as (Hr & Hi & Hp & Hf & _).
      constructor; [|constructor].
      rewrite Hi. repeat split; try assumption. exists O. split; [lia|]. lia. }
    destruct all.
    + intros H. injection H as <-. split; [destruct seg; cbn; lia | exact Hhere].
    + destruct (Uploader.collectSegments c encodeBase64 file tree numShard n
                  (segIndex + numShard)) as [e|rest] eqn:Hrest; [discriminate|].
      intros H. injection H as <-.
      destruct (IH _ _ Hrest) as [Hlen Hall].
      split; [rewrite length_app; destruct seg; cbn; lia|].
      apply Forall_app. split; [exact Hhere|].
      eapply Forall_impl; [|exact Hall]. cbn.
      intros s (Hr & Hf & Hp & k & Hk & Hi).
      repeat split; try assumption. exists (S k). split; [lia|]. lia.
Qed.

Lemma collectSegments_batch_witness :
  Uploader.collectSegments tinyConstants string_of_list_byte tinyFile tinyTree 1 1 0
  = inr tinySegments
  /\ (List.length tinySegments <= 1)%nat.
Proof.
  split; [reflexivity|].
  exact (proj1 (collectSegments_batch tinyConstants string_of_list_byte tinyFile
                  tinyTree 1 1 0 tinySegments eq_refl)).
Defined.

Lemma collectSegments_error c encodeBase64 file tree numShard (n : nat) :
  forall segIndex e,
    Uploader.collectSegments c encodeBase64 file tree numShard n segIndex = inl e ->
    exists k, (k < n)%nat
      /\ ZgFile.iterateWithOffsetAndBatch file
           ((segIndex + Z.of_nat k * numShard) * DEFAULT_SEGMENT_SIZE c)
           (DEFAULT_SEGMENT_SIZE c) = ReadFail (Some e).
Proof.
  induction n as [|n IH]; intros segIndex e; cbn [Uploader.collectSegments];
    [discriminate|].
  destruct (Uploader.getSegment c encodeBase64 file tree segIndex)
    as [[all seg] err] eqn:Hget.
  destruct err as [e'|].
  - intros H. injection H as <-. exists O. split; [lia|].
    replace (segIndex + Z.of_nat 0 * numShard) with segIndex by lia.
    unfold Uploader.getSegment in Hget.
    destruct (ZgFile.numChunks file <=? _); [discriminate|].
    destruct (ZgFile.iterateWithOffsetAndBatch file _ _) as [segment|e0].
    + destruct (Uploader.reachesEnd c _ segment _); discriminate.
    + injection Hget as _ _ ->. reflexivity.
  - destruct all; [discriminate|].
    destruct (Uploader.collectSegments c encodeBase64 file tree numShard n
                (segIndex + numShard)) as [e'|rest] eqn:Hrest; [|discriminate].
    intros H. injection H as <-.
    destruct (IH _ _ Hrest) as (k & Hk & Hread).
    exists (S k). split; [lia|].
    replace (segIndex + Z.of_nat (S k) * numShard)
      with (segIndex + numShard + Z.of_nat k * numShard) by lia.
    exact Hread.
Qed.

(** X5: when reading the segments of a task fails, [uploadTask] returns
    the error of the failed read and never calls the node; the failed read
    is that of one of the task's windows. *)
Theorem uploadTask_read_error
    (c : Constants) (encodeBase64 : list Byte.byte -> string)
    (node : StorageNode.t) (file : ZgFile.t) (tree : MerkleTree.t)
    (task : UploadTask.t) (retryOpts : option RetryOpts.t) (e : JS.Thrown) :
  Uploader.collectSegments c encodeBase64 file tree (UploadTask.numShard task)
    (Z.to_nat (UploadTask.taskSize task)) (UploadTask.segIndex task) = inl e ->
  Uploader.uploadTask c encodeBase64 node file tree task retryOpts
  = Some (Uploader.mkTaskRun (Uploader.ReturnedError e) 0 [])
  /\ exists k, Z.of_nat k < UploadTask.taskSize task
       /\ ZgFile.iterateWithOffsetAndBatch file
            ((UploadTask.segIndex task + Z.of_nat k * UploadTask.numShard task)
             * DEFAULT_SEGMENT_SIZE c)
            (DEFAULT_SEGMENT_SIZE c) = ReadFail (Some e).
Proof.
  intros Hseg. split.
  - unfold Uploader.uploadTask. rewrite Hseg. reflexivity.
  - destruct (collectSegments_error _ _ _ _ _ _ _ _ Hseg) as (k & Hk & Hread).
    exists k. split; [lia | exact Hread].
Qed.

Lemma uploadTask_read_error_witness :
  Uploader.collectSegments tinyConstants string_of_list_byte brokenFile tinyTree
    (UploadTask.numShard twoSegmentTask) (Z.to_nat (UploadTask.taskSize twoSegmentTask))
    (UploadTask.segIndex twoSegmentTask)
  = inl (JS.VError (JS.newError "read failed"))
  /\ Uploader.uploadTask tinyConstants string_of_list_byte alwaysBusyNode brokenFile
       tinyTree twoSegmentTask None
     = Some (Uploader.mkTaskRun
               (Uploader.ReturnedError (JS.VError (JS.newError "read failed"))) 0 []).
Proof.
  split; [reflexivity|].
  exact (proj1 (uploadTask_read_error tinyConstants string_of_list_byte alwaysBusyNode
                  brokenFile tinyTree twoSegmentTask None
                  (JS.VError (JS.newError "read failed")) eq_refl)).
Defined.

(** ** TaskPlanner: the tasks of one node *)

Lemma nodeTasks_planned clientIndex shardConfig taskSize txSeq startSeg endSeg fuel :
  0 < ShardConfig.numShard shardConfig * taskSize ->
  forall first,
    (taskCount first endSeg (ShardConfig.numShard shardConfig * taskSize) <= fuel)%nat ->
    Uploader.nodeTasks fuel clientIndex shardConfig taskSize txSeq startSeg endSeg first
    = Some (map (plannedTask clientIndex shardConfig taskSize txSeq startSeg first)
              (seq 0 (taskCount first endSeg (ShardConfig.numShard shardConfig * taskSize)))).
Proof.
  intros Hstep. set (step := ShardConfig.numShard shardConfig * taskSize) in *.
  assert (Hcount : forall first, first <= endSeg ->
            taskCount first endSeg step = S (taskCount (first + step) endSeg step)).
  { intros first Hle. unfold taskCount.
    destruct (Z.leb_spec first endSeg); [|lia].
    destruct (Z.leb_spec (first + step) endSeg).
    - replace (endSeg - first) with (endSeg - (first + step) + 1 * step) by lia.
      rewrite Z.div_add by lia.
      pose proof (Z.div_pos (endSeg - (first + step)) step ltac:(lia) ltac:(lia)). lia.
    - rewrite Z.div_small by lia. reflexivity. }
  induction fuel as [|fuel IH]; intros first Hfuel; cbn [Uploader.nodeTasks].
  - destruct (Z.leb_spec first endSeg) as [Hle|Hgt].
    + rewrite (Hcount first Hle) in Hfuel. lia.
    + unfold taskCount. destruct (Z.leb_spec first endSeg); [lia | reflexivity].
  - destruct (Z.leb_spec first endSeg) as [Hle|Hgt].
    + rewrite (Hcount first Hle) in *.
      fold step. rewrite (IH (first + step)) by lia.
      cbn [seq map]. f_equal. f_equal.
      * unfold plannedTask. fold step. f_equal. lia.
      * rewrite <- seq_shift, map_map. apply map_ext. intros k.
        unfold plannedTask. fold step. f_equal. lia.
    + unfold taskCount. destruct (Z.leb_spec first endSeg); [lia | reflexivity].
Qed.

Lemma nextSgmentIndex_bounds (shardConfig : ShardConfig.t) (startSeg : Z) :
  1 <= ShardConfig.numShard shardConfig ->
  (2 <= ShardConfig.numShard shardConfig ->
   0 <= ShardConfig.shardId shardConfig < ShardConfig.numShard shardConfig) ->
  0 <= startSeg ->
  startSeg + ShardConfig.numShard shardConfig < 2 ^ 53 ->
  let first := Uploader.nextSgmentIndex shardConfig startSeg in
  startSeg <= first < startSeg + ShardConfig.numShard shardConfig
  /\ (2 <= ShardConfig.numShard shardConfig ->
      first mod ShardConfig.numShard shardConfig = ShardConfig.shardId shardConfig).
Proof.
  intros Hn Hs H0 Hb. cbv zeta.
  destruct (Z.lt_ge_cases (ShardConfig.numShard shardConfig) 2) as [Hlt|Hge].
  - unfold Uploader.nextSgmentIndex.
    destruct (Z.ltb_spec (ShardConfig.numShard shardConfig) 2); [|lia].
    split; [lia|]. intros; lia.
  - specialize (Hs Hge). rewrite nextSgmentIndex_div by assumption.
    set (n := ShardConfig.numShard shardConfig) in *.
    set (sh := ShardConfig.shardId shardConfig) in *.
    pose proof (Z.div_mod (startSeg + n - 1 - sh) n ltac:(lia)) as Hdm.
    pose proof (Z.mod_pos_bound (startSeg + n - 1 - sh) n ltac:(lia)) as Hm.
    split; [nia|].
    intros _. rewrite Z.add_comm, Z.mod_add by lia. apply Z.mod_small; lia.
Qed.

(** X6: the tasks planned for one node stay on the node's shard and inside
    the file: with [numShard >= 1], a positive task size, for
    [numShard >= 2] a shard id in [0, numShard), and segment indices in
    the range where the arithmetic of the planner is exact
    ([0 <= startSegmentIndex], [startSegmentIndex + numShard < 2 ^ 53]
    and [endSegmentIndex + numShard * taskSize < 2 ^ 53]), every task
    starts at a segment between [startSegmentIndex] and [endSegmentIndex],
    and for [numShard >= 2] that segment is congruent to the shard id
    modulo [numShard].  The loop returns for every fuel above the task
    count. *)
Theorem nodeTasks_on_shard (clientIndex : nat) (shardConfig : ShardConfig.t)
    (taskSize txSeq startSeg endSeg : Z) (fuel : nat) :
  1 <= ShardConfig.numShard shardConfig ->
  1 <= taskSize ->
  (2 <= ShardConfig.numShard shardConfig ->
   0 <= ShardConfig.shardId shardConfig < ShardConfig.numShard shardConfig) ->
  0 <= startSeg ->
  startSeg + ShardConfig.numShard shardConfig < 2 ^ 53 ->
  endSeg + ShardConfig.numShard shardConfig * taskSize < 2 ^ 53 ->
  (Z.to_nat (endSeg - startSeg + 1) <= fuel)%nat ->
  exists tasks,
    Uploader.nodeTasks fuel clientIndex shardConfig taskSize txSeq startSeg endSeg
      (Uploader.nextSgmentIndex shardConfig startSeg) = Some tasks
    /\ Forall (fun t =>
         startSeg <= startSeg + UploadTask.segIndex t <= endSeg
         /\ UploadTask.clientIndex t = clientIndex
         /\ UploadTask.taskSize t = taskSize
         /\ UploadTask.numShard t = ShardConfig.numShard shardConfig
         /\ (2 <= ShardConfig.numShard shardConfig ->
             (startSeg + UploadTask.segIndex t) mod ShardConfig.numShard shardConfig
             = ShardConfig.shardId shardConfig)) tasks.
Proof.
  intros Hn Hts Hs H0 Hb _ Hfuel.
  destruct (nextSgmentIndex_bounds shardConfig startSeg Hn Hs H0 Hb) as [Hfirst Hmod].
  set (first := Uploader.nextSgmentIndex shardConfig startSeg) in *.
  set (n := ShardConfig.numShard shardConfig) in *.
  assert (Hstep : 0 < n * taskSize) by nia.
  assert (Hcount : forall k, (k < taskCount first endSeg (n * taskSize))%nat ->
                             first + Z.of_nat k * (n * taskSize) <= endSeg).
  { intros k Hk. unfold taskCount in Hk.
    destruct (Z.leb_spec first endSeg); [|lia].
    pose proof (Z.div_pos (endSeg - first) (n * taskSize) ltac:(lia) ltac:(lia)).
    pose proof (Z.mul_div_le (endSeg - first) (n * taskSize) ltac:(lia)).
    nia. }
  assert (Hcf : (taskCount first endSeg (n * taskSize) <= fuel)%nat).
  { unfold taskCount. destruct (Z.leb_spec first endSeg); [|lia].
    assert ((endSeg - first) / (n * taskSize) <= endSeg - first)
      by (apply Z.div_le_upper_bound; nia).
    lia. }
  eexists. split; [apply nodeTasks_planned; assumption|].
  apply Forall_forall. intros t Ht. apply in_map_iff in Ht.
  destruct Ht as (k & <- & Hk). apply in_seq in Hk.
  fold n in Hk. fold first in Hk.
  specialize (Hcount k ltac:(lia)).
  unfold plannedTask; cbn [UploadTask.segIndex UploadTask.clientIndex
                             UploadTask.taskSize UploadTask.numShard]. fold n.
  split; [nia|]. repeat split.
  intros Hge.
  replace (startSeg + (first + Z.of_nat k * (n * taskSize) - startSeg))
    with (first + Z.of_nat k * taskSize * n) by lia.
  rewrite Z.mod_add by lia. apply Hmod, Hge.
Qed.

Lemma taskCount_within_fuel (first startSeg endSeg step : Z) (fuel : nat) :
  1 <= step -> startSeg <= first ->
  (Z.to_nat (endSeg - startSeg + 1) <= fuel)%nat ->
  (taskCount first endSeg step <= fuel)%nat.
Proof.
  intros Hstep Hfirst Hfuel. unfold taskCount.
  destruct (Z.leb_spec first endSeg); [|lia].
  assert ((endSeg - first) / step <= endSeg - first)
    by (apply Z.div_le_upper_bound; nia).
  lia.
Qed.

Lemma planned_cover_once (clientIndex : nat) (shardConfig : ShardConfig.t)
    (taskSize txSeq startSeg endSeg first m : Z) :
  1 <= ShardConfig.numShard shardConfig ->
  1 <= taskSize ->
  0 <= m ->
  first + m * ShardConfig.numShard shardConfig <= endSeg ->
  let tasks := map (plannedTask clientIndex shardConfig taskSize txSeq startSeg first)
                 (seq 0 (taskCount first endSeg
                           (ShardConfig.numShard shardConfig * taskSize))) in
  exists t, In t tasks
    /\ covers startSeg t (first + m * ShardConfig.numShard shardConfig)
    /\ forall t', In t' tasks ->
         covers startSeg t' (first + m * ShardConfig.numShard shardConfig) -> t' = t.
Proof.
  intros Hn Hts Hm Hend. cbv zeta.
  set (n := ShardConfig.numShard shardConfig) in *.
  assert (Hstep : 0 < n * taskSize) by nia.
  pose proof (Z.div_mod m taskSize ltac:(lia)) as Hdm.
  pose proof (Z.mod_pos_bound m taskSize ltac:(lia)) as Hmb.
  pose proof (Z.div_pos m taskSize Hm ltac:(lia)) as Hq.
  exists (plannedTask clientIndex shardConfig taskSize txSeq startSeg first
            (Z.to_nat (m / taskSize))).
  split; [|split].
  - apply in_map, in_seq. split; [lia|]. cbn [Nat.add].
    unfold taskCount. destruct (Z.leb_spec first endSeg); [|nia].
    assert (m / taskSize <= (endSeg - first) / (n * taskSize)).
    { apply Z.div_le_lower_bound; [lia|]. nia. }
    lia.
  - exists (m mod taskSize).
    unfold plannedTask; cbn [UploadTask.segIndex UploadTask.taskSize UploadTask.numShard].
    fold n. split; [lia|]. rewrite Z2Nat.id by lia. nia.
  - intros t' Hin (j & Hj & Hcov). apply in_map_iff in Hin.
    destruct Hin as (k & <- & _).
    unfold plannedTask in *;
      cbn [UploadTask.segIndex UploadTask.taskSize UploadTask.numShard] in *.
    fold n in Hcov.
    assert (Hmk : m = Z.of_nat k * taskSize + j) by nia.
    assert (Hk : m / taskSize = Z.of_nat k).
    { symmetry. apply Z.div_unique with j; lia. }
    rewrite Hk, Nat2Z.id. reflexivity.
Qed.

(** X7: the tasks planned for one node cover the node's share of the
    file with no gap and no overlap, for segment indices in the range
    where the arithmetic of the planner is exact
    ([0 <= startSegmentIndex], [startSegmentIndex + numShard < 2 ^ 53]
    and [endSegmentIndex + numShard * taskSize < 2 ^ 53]): every segment
    of the form [first + m * numShard] up to [endSegmentIndex], [first]
    being the node's first segment, is uploaded by exactly one of the
    node's tasks. *)
Theorem nodeTasks_cover_once (clientIndex : nat) (shardConfig : ShardConfig.t)
    (taskSize txSeq startSeg endSeg : Z) (fuel : nat) (m : Z) :
  1 <= ShardConfig.numShard shardConfig ->
  1 <= taskSize ->
  (2 <= ShardConfig.numShard shardConfig ->
   0 <= ShardConfig.shardId shardConfig < ShardConfig.numShard shardConfig) ->
  0 <= startSeg ->
  startSeg + ShardConfig.numShard shardConfig < 2 ^ 53 ->
  endSeg + ShardConfig.numShard shardConfig * taskSize < 2 ^ 53 ->
  (Z.to_nat (endSeg - startSeg + 1) <= fuel)%nat ->
  let first := Uploader.nextSgmentIndex shardConfig startSeg in
  let s := first + m * ShardConfig.numShard shardConfig in
  0 <= m -> s <= endSeg ->
  exists tasks,
    Uploader.nodeTasks fuel clientIndex shardConfig taskSize txSeq startSeg endSeg first
    = Some tasks
    /\ exists t, In t tasks
         /\ covers startSeg t s
         /\ forall t', In t' tasks -> covers startSeg t' s -> t' = t.
Proof.
  intros Hn Hts Hs H0 Hb _ Hfuel. cbv zeta. intros Hm Hend.
  destruct (nextSgmentIndex_bounds shardConfig startSeg Hn Hs H0 Hb) as [Hfirst _].
  assert (Hcf : (taskCount (Uploader.nextSgmentIndex shardConfig startSeg) endSeg
                   (ShardConfig.numShard shardConfig * taskSize) <= fuel)%nat).
  { apply taskCount_within_fuel with startSeg; [nia | lia | exact Hfuel]. }
  eexists. split; [apply nodeTasks_planned; [nia | exact Hcf]|].
  apply planned_cover_once; assumption.
Qed.

Lemma nodeTasks_cover_once_witness :
  let cfg := ShardConfig.mk 1 2 in
  (1 <= ShardConfig.numShard cfg /\ 1 <= 2
   /\ (2 <= ShardConfig.numShard cfg ->
       0 <= ShardConfig.shardId cfg < ShardConfig.numShard cfg)
   /\ 0 <= 0 /\ 0 + ShardConfig.numShard cfg < 2 ^ 53
   /\ 9 + ShardConfig.numShard cfg * 2 < 2 ^ 53
   /\ (Z.to_nat (9 - 0 + 1) <= 10)%nat
   /\ 0 <= 3 /\ Uploader.nextSgmentIndex cfg 0 + 3 * ShardConfig.numShard cfg <= 9)
  /\ Uploader.nodeTasks 10 1 cfg 2 7 0 9 (Uploader.nextSgmentIndex cfg 0)
     = Some [UploadTask.mk 1 2 1 2 7; UploadTask.mk 1 2 5 2 7; UploadTask.mk 1 2 9 2 7]
  /\ exists t, In t [UploadTask.mk 1 2 1 2 7; UploadTask.mk 1 2 5 2 7; UploadTask.mk 1 2 9 2 7]
       /\ covers 0 t 7.
Proof.
  cbv zeta.
  assert (Hfirst : Uploader.nextSgmentIndex (ShardConfig.mk 1 2) 0 = 1)
    by (vm_compute; reflexivity).
  split; [rewrite Hfirst; cbn; repeat split; lia|].
  split; [rewrite Hfirst; reflexivity|].
  destruct (nodeTasks_cover_once 1 (ShardConfig.mk 1 2) 2 7 0 9 10 3)
    as (tasks & Htasks & t & Hin & Hcov & _);
    try rewrite Hfirst; try (cbn; lia).
  rewrite Hfirst in Htasks, Hcov.
  injection Htasks as <-. exists t. split; [exact Hin | exact Hcov].
Defined.

Lemma nodeTasks_on_shard_witness :
  let cfg := ShardConfig.mk 1 2 in
  (1 <= ShardConfig.numShard cfg /\ 1 <= 2
   /\ (2 <= ShardConfig.numShard cfg ->
       0 <= ShardConfig.shardId cfg < ShardConfig.numShard cfg)
   /\ 0 <= 0 /\ 0 + ShardConfig.numShard cfg < 2 ^ 53
   /\ 9 + ShardConfig.numShard cfg * 2 < 2 ^ 53
   /\ (Z.to_nat (9 - 0 + 1) <= 10)%nat)
  /\ Forall (fun t => (0 + UploadTask.segIndex t) mod 2 = 1)
       [UploadTask.mk 1 2 1 2 7; UploadTask.mk 1 2 5 2 7; UploadTask.mk 1 2 9 2 7].
Proof.
  cbv zeta. split; [cbn; repeat split; lia|].
  assert (Hfirst : Uploader.nextSgmentIndex (ShardConfig.mk 1 2) 0 = 1)
    by (vm_compute; reflexivity).
  destruct (nodeTasks_on_shard 1 (ShardConfig.mk 1 2) 2 7 0 9 10)
    as (tasks & Htasks & Hall); try (cbn; lia).
  rewrite Hfirst in Htasks.
  injection Htasks as <-.
  eapply Forall_impl; [|exact Hall]. cbn.
  intros t (_ & _ & _ & _ & Hmod). apply Hmod. lia.
Defined.

(** ** TaskPlanner: sorting and interleaving the per-node lists *)

Lemma insertByLength_Permutation {A : Type} (l : list A) (sorted : list (list A)) :
  Permutation (Uploader.insertByLength l sorted) (l :: sorted).
Proof.
  induction sorted as [|h t IH]; cbn [Uploader.insertByLength]; [reflexivity|].
  destruct (List.length h <=? List.length l)%nat; [|reflexivity].
  rewrite IH. apply perm_swap.
Qed.

Lemma sortByLength_Permutation {A : Type} (ls : list (list A)) :
  Permutation (Uploader.sortByLength ls) ls.
Proof.
  unfold Uploader.sortByLength.
  assert (H : forall acc,
             Permutation (fold_left (fun sorted l => Uploader.insertByLength l sorted) ls acc)
                         (acc ++ ls)).
  { induction ls as [|l rest IH]; intros acc; cbn [fold_left].
    - rewrite app_nil_r. reflexivity.
    - rewrite IH, insertByLength_Permutation. apply Permutation_middle. }
  apply (H []).
Qed.

Lemma insertByLength_stable {A : Type} (n : nat) (l : list A) (sorted : list (list A)) :
  ascendingLength sorted ->
  filter (fun x => (List.length x =? n)%nat) (Uploader.insertByLength l sorted)
  = filter (fun x => (List.length x =? n)%nat) sorted
    ++ filter (fun x => (List.length x =? n)%nat) [l].
Proof.
  unfold ascendingLength. induction 1 as [|h t Ht IH Hall]; cbn [Uploader.insertByLength].
  - reflexivity.
  - destruct (Nat.leb_spec (List.length h) (List.length l)) as [Hle|Hgt].
    + cbn [filter] in *. rewrite IH.
      destruct (List.length h =? n)%nat; reflexivity.
    + cbn [filter app].
      destruct (Nat.eqb_spec (List.length l) n) as [Hn|Hn]; [|rewrite app_nil_r; reflexivity].
      destruct (Nat.eqb_spec (List.length h) n) as [Hh|Hh]; [lia|].
      assert (Hnone : filter (fun x => (List.length x =? n)%nat) t = []).
      { clear IH Ht. induction Hall as [|x t Hx _ IHt]; [reflexivity|].
        cbn [filter]. destruct (Nat.eqb_spec (List.length x) n); [lia | exact IHt]. }
      rewrite Hnone. reflexivity.
Qed.

(** X8: [uploadTasks.sort((a, b) => a.length - b.length)] rearranges the
    per-node lists without losing or duplicating one, leaves them in
    ascending order of length, and keeps lists of the same length in the
    order they had (the sort is stable). *)
Theorem sortByLength_sorts {A : Type} (ls : list (list A)) :
  Permutation (Uploader.sortByLength ls) ls
  /\ ascendingLength (Uploader.sortByLength ls)
  /\ forall n, filter (fun x => (List.length x =? n)%nat) (Uploader.sortByLength ls)
               = filter (fun x => (List.length x =? n)%nat) ls.
Proof.
  split; [apply sortByLength_Permutation|].
  split; [apply sortByLength_ascending|].
  intros n. unfold Uploader.sortByLength.
  assert (H : forall acc, ascendingLength acc ->
             filter (fun x => (List.length x =? n)%nat)
               (fold_left (fun sorted l => Uploader.insertByLength l sorted) ls acc)
             = filter (fun x => (List.length x =? n)%nat) acc
               ++ filter (fun x => (List.length x =? n)%nat) ls).
  { induction ls as [|l rest IH]; intros acc Hacc; cbn [fold_left].
    - cbn [filter]. rewrite app_nil_r. reflexivity.
    - rewrite IH by (apply insertByLength_ascending, Hacc).
      rewrite insertByLength_stable by exact Hacc.
      rewrite <- app_assoc. f_equal. cbn [filter].
      destruct (List.length l =? n)%nat; reflexivity. }
  apply (H []). constructor.
Qed.

Lemma round_succ {A : Type} (k : nat) (ls : list (list A)) :
  Uploader.round (S k) ls = Uploader.round k (map (@tl A) ls).
Proof.
  induction ls as [|l rest IH]; [reflexivity|].
  cbn [Uploader.round map]. rewrite IH.
  destruct l as [|a l]; [destruct k|]; reflexivity.
Qed.

Lemma concat_heads_tails {A : Type} (n : nat) (ls : list (list A)) :
  Forall (fun l => List.length l = S n) ls ->
  Permutation (List.concat ls) (Uploader.round 0 ls ++ List.concat (map (@tl A) ls)).
Proof.
  induction 1 as [|l rest Hl _ IH]; [reflexivity|].
  destruct l as [|a l]; [discriminate|].
  cbn [List.concat Uploader.round nth_error map tl app].
  apply perm_skip. rewrite IH.
  apply Permutation_app_swap_app.
Qed.

Lemma rounds_equal_length {A : Type} (n : nat) :
  forall ls : list (list A),
    Forall (fun l => List.length l = n) ls ->
    Permutation (flat_map (fun k => Uploader.round k ls) (seq 0 n)) (List.concat ls).
Proof.
  induction n as [|n IH]; intros ls Hall.
  - cbn [seq flat_map].
    induction Hall as [|l rest Hl _ IHl]; [reflexivity|].
    destruct l; [exact IHl | discriminate].
  - cbn [seq flat_map].
    rewrite (concat_heads_tails n ls Hall).
    apply Permutation_app_head.
    rewrite <- seq_shift, flat_map_concat_map, map_map, <- flat_map_concat_map.
    erewrite flat_map_ext; [|intros k; apply round_succ].
    apply IH.
    apply Forall_map. eapply Forall_impl; [|exact Hall].
    cbn. intros l Hl. destruct l; [discriminate|]. cbn in *. lia.
Qed.

Lemma round_firstn {A : Type} (n k : nat) (ls : list (list A)) :
  (k < n)%nat ->
  Uploader.round k (map (firstn n) ls) = Uploader.round k ls.
Proof.
  intros Hk. induction ls as [|l rest IH]; [reflexivity|].
  cbn [Uploader.round map]. rewrite IH, nth_error_firstn.
  destruct (Nat.ltb_spec k n); [reflexivity | lia].
Qed.

Lemma roundRobin_ascending_prefixes {A : Type}
    (first : list A) (rest : list (list A)) :
  ascendingLength (first :: rest) ->
  Permutation (Uploader.roundRobin (first :: rest))
              (List.concat (map (firstn (List.length first)) (first :: rest))).
Proof.
  intros Hs. apply StronglySorted_inv in Hs. destruct Hs as [_ Hall].
  unfold Uploader.roundRobin.
  assert (Hrounds : flat_map (fun k => Uploader.round k (first :: rest))
                      (seq 0 (List.length first))
                    = flat_map (fun k => Uploader.round k
                                           (map (firstn (List.length first)) (first :: rest)))
                        (seq 0 (List.length first))).
  { rewrite !flat_map_concat_map. f_equal. apply map_ext_in.
    intros k Hk. apply in_seq in Hk. symmetry. apply round_firstn. lia. }
  rewrite Hrounds.
  apply rounds_equal_length.
  apply Forall_map. constructor.
  - rewrite length_firstn. lia.
  - eapply Forall_impl; [|exact Hall]. cbn. intros l Hl.
    rewrite length_firstn. lia.
Qed.

Lemma concat_Permutation {A : Type} (ls ls' : list (list A)) :
  Permutation ls ls' -> Permutation (List.concat ls) (List.concat ls').
Proof.
  induction 1 as [|l ls ls' _ IH|l l' ls|ls ls' ls'' _ IH1 _ IH2]; cbn [List.concat].
  - reflexivity.
  - apply Permutation_app_head, IH.
  - apply Permutation_app_swap_app.
  - etransitivity; eassumption.
Qed.

(** X9: the flat list [splitTasks] builds holds, of every per-node list,
    the first [n] tasks and nothing else, [n] being the length of the
    shortest list: after the sort the first list is a shortest one, and the
    flat list is a permutation of the prefixes of length [n] of all
    lists. *)
Theorem roundRobin_takes_shortest_prefixes {A : Type} (ls : list (list A)) :
  ls <> [] ->
  exists shortest rest,
    Uploader.sortByLength ls = shortest :: rest
    /\ Forall (fun l => (List.length shortest <= List.length l)%nat) ls
    /\ Permutation (Uploader.roundRobin (Uploader.sortByLength ls))
         (List.concat (map (firstn (List.length shortest)) ls)).
Proof.
  intros Hne.
  pose proof (sortByLength_Permutation ls) as Hperm.
  pose proof (sortByLength_ascending ls) as Hsorted.
  destruct (Uploader.sortByLength ls) as [|shortest rest] eqn:Hs.
  - apply Permutation_nil in Hperm. congruence.
  - exists shortest, rest. split; [reflexivity|]. split.
    + eapply Permutation_Forall; [exact Hperm|].
      pose proof Hsorted as Hinv. apply StronglySorted_inv in Hinv.
      destruct Hinv as [_ Hall]. constructor; [lia | exact Hall].
    + rewrite (roundRobin_ascending_prefixes shortest rest Hsorted).
      apply concat_Permutation, Permutation_map, Hperm.
Qed.

Lemma roundRobin_takes_shortest_prefixes_witness :
  [[3; 4; 5]; [1; 2]] <> []
  /\ Uploader.sortByLength [[3; 4; 5]; [1; 2]] = [[1; 2]; [3; 4; 5]]
  /\ Permutation (Uploader.roundRobin (Uploader.sortByLength [[3; 4; 5]; [1; 2]]))
       (List.concat (map (firstn 2) [[3; 4; 5]; [1; 2]])).
Proof.
  assert (Hne : [[3; 4; 5]; [1; 2]] <> []) by discriminate.
  split; [exact Hne|]. split; [reflexivity|].
  destruct (roundRobin_takes_shortest_prefixes [[3; 4; 5]; [1; 2]] Hne)
    as (shortest & rest & Hs & _ & Hperm).
  injection Hs as <- _. exact Hperm.
Defined.

(** X10: when all per-node lists have the same length, the flat list
    returned after sorting and interleaving contains every task of every
    list exactly once: it is a permutation of their concatenation. *)
Theorem roundRobin_equal_lengths_keeps_all {A : Type} (n : nat) (ls : list (list A)) :
  Forall (fun l => List.length l = n) ls ->
  Permutation (Uploader.roundRobin (Uploader.sortByLength ls)) (List.concat ls).
Proof.
  intros Hall.
  pose proof (sortByLength_Permutation ls) as Hperm.
  assert (Hall' : Forall (fun l => List.length l = n) (Uploader.sortByLength ls)).
  { eapply Permutation_Forall; [symmetry; exact Hperm | exact Hall]. }
  assert (Hconcat : Permutation (List.concat (Uploader.sortByLength ls)) (List.concat ls)).
  { apply concat_Permutation, Hperm. }
  rewrite <- Hconcat.
  destruct (Uploader.sortByLength ls) as [|first rest]; [reflexivity|].
  unfold Uploader.roundRobin.
  inversion Hall' as [|? ? Hfirst _]. rewrite Hfirst.
  apply rounds_equal_length, Hall'.
Qed.

Lemma roundRobin_equal_lengths_keeps_all_witness :
  Forall (fun l => List.length l = 2%nat) [[1; 2]; [3; 4]]
  /\ Permutation (Uploader.roundRobin (Uploader.sortByLength [[1; 2]; [3; 4]]))
                 (List.concat [[1; 2]; [3; 4]]).
Proof.
  assert (H : Forall (fun l => List.length l = 2%nat) [[1; 2]; [3; 4]]).
  { repeat constructor. }
  split; [exact H|].
  exact (roundRobin_equal_lengths_keeps_all 2 [[1; 2]; [3; 4]] H).
Defined.




(** ** Gas-price escalation: termination and the shape of the result *)

Lemma escalate_small (p : Z) : 0 <= p < 10 -> escalate p = p.
Proof.
  intros Hp. unfold escalate. rewrite Z.quot_div_nonneg by lia.
  symmetry. apply Z.div_unique with p; lia.
Qed.

Lemma escalate_grows (p : Z) : 10 <= p -> p + 1 <= escalate p.
Proof.
  intros Hp. unfold escalate. rewrite Z.quot_div_nonneg by lia.
  apply Z.div_le_lower_bound; lia.
Qed.

Lemma gasLoop_stuck chain opts0 maxGasPrice price fuel :
  escalate price = price ->
  price <= maxGasPrice ->
  (forall k, timesOut chain opts0 k price) ->
  forall opts k err,
    Utils.receiptOpts opts = Utils.receiptOpts opts0 ->
    Utils.gasLoop fuel chain opts maxGasPrice price k err = None.
Proof.
  intros Hesc Hle Hto. induction fuel as [|fuel IH]; intros opts k err Hopts;
    cbn [Utils.gasLoop]; destruct (Z.leb_spec price maxGasPrice); try lia;
    [reflexivity|].
  destruct (Hto k) as (e & He & Htimeout). unfold attempt in He.
  destruct (trySend_same_opts (chain k price) opts opts0 Hopts) as [Hfst Hsnd].
  destruct (Utils.trySend (chain k price) opts) as [res opts'].
  cbn [fst snd] in *. rewrite Hfst, He, Htimeout.
  change (Z.quot (11 * price) 10) with (escalate price). rewrite Hesc.
  rewrite (IH opts' (S k) (Some e) Hsnd). reflexivity.
Qed.

(** X12: at a starting gas price below 10 the escalation [11*price/10]
    leaves the price unchanged, so while every submission times out
    [txWithGasAdjustment] keeps resubmitting at the same price and never
    returns, whatever the number of iterations allowed. *)
Theorem txWithGasAdjustment_stuck_below_ten
    (chain : nat -> Z -> SendOutcome) (gasPrice : Z)
    (retryOpts : option RetryOpts.t) (fuel : nat) :
  0 <= gasPrice < 10 ->
  gasPrice <= Utils.maxGasPriceOf gasPrice retryOpts ->
  (forall k, timesOut chain retryOpts k gasPrice) ->
  Utils.txWithGasAdjustment fuel chain gasPrice retryOpts = None.
Proof.
  intros Hp Hcap Hto. unfold Utils.txWithGasAdjustment.
  apply gasLoop_stuck with (opts0 := retryOpts); auto using escalate_small.
Qed.

Lemma txWithGasAdjustment_stuck_below_ten_witness :
  let chain := fun (_ : nat) (_ : Z) => WaitNull in
  (0 <= 5 < 10
   /\ 5 <= Utils.maxGasPriceOf 5 None
   /\ (forall k, timesOut chain None k 5))
  /\ Utils.txWithGasAdjustment 1000 chain 5 None = None.
Proof.
  cbv zeta.
  assert (H : forall k : nat, timesOut (fun (_ : nat) (_ : Z) => WaitNull) None k 5).
  { intros k. eexists. split; reflexivity. }
  split; [split; [lia | split; [cbn; lia | exact H]]|].
  apply (txWithGasAdjustment_stuck_below_ten (fun _ _ => WaitNull) 5 None 1000);
    [lia | cbn; lia | exact H].
Defined.

Lemma pollLoop_receipt_accepted {D : Type} (delay : D) provider remaining nTries r :
  Utils.receipt (Utils.pollLoop provider delay remaining nTries) = Some r ->
  Utils.accepted (Some r) = true.
Proof.
  revert nTries. induction remaining as [|n IH]; intros nTries; cbn [Utils.pollLoop].
  - discriminate.
  - destruct (Utils.accepted (provider nTries)) eqn:E.
    + cbn [Utils.receipt]. intros H. rewrite <- H. exact E.
    + cbn [Utils.receipt Utils.polledAfter]. apply IH.
Qed.

Lemma trySend_receipt_accepted o opts r :
  fst (Utils.trySend o opts) = inl r -> Utils.accepted (Some r) = true.
Proof.
  destruct o as [t| |h provider]; cbn [Utils.trySend fst]; try discriminate.
  destruct (Utils.receipt (Utils.waitForReceipt provider opts)) as [r'|] eqn:E;
    cbn [fst]; [|discriminate].
  intros H. injection H as <-.
  unfold Utils.waitForReceipt in E. eapply pollLoop_receipt_accepted, E.
Qed.

Lemma gasLoop_shape chain maxGasPrice fuel :
  forall opts current k err run,
    Utils.gasLoop fuel chain opts maxGasPrice current k err = Some run ->
    Utils.sent run = map (priceAt current) (seq 0 (List.length (Utils.sent run)))
    /\ Forall (fun p => p <= maxGasPrice) (Utils.sent run)
    /\ (forall r, Utils.txReceipt run = Some r ->
          Utils.accepted (Some r) = true /\ Utils.txErr run = None)
    /\ (Utils.txReceipt run = None -> Utils.txErr run = None ->
        Utils.sent run = [] /\ err = None).
Proof.
  assert (Hstop : forall current err run,
             Some (Utils.mkTxRun None err []) = Some run ->
             Utils.sent run = map (priceAt current) (seq 0 (List.length (Utils.sent run)))
             /\ Forall (fun p => p <= maxGasPrice) (Utils.sent run)
             /\ (forall r, Utils.txReceipt run = Some r ->
                   Utils.accepted (Some r) = true /\ Utils.txErr run = None)
             /\ (Utils.txReceipt run = None -> Utils.txErr run = None ->
                 Utils.sent run = [] /\ err = None)).
  { intros current err run H. injection H as <-.
    cbn [Utils.sent Utils.txReceipt Utils.txErr List.length seq map].
    split; [reflexivity|]. split; [constructor|]. split; [discriminate|].
    intros _ H. split; [reflexivity | exact H]. }
  induction fuel as [|fuel IH]; intros opts current k err run; cbn [Utils.gasLoop];
    destruct (Z.leb_spec current maxGasPrice) as [Hle|Hgt];
    try discriminate; try apply Hstop.
  destruct (Utils.trySend (chain k current) opts) as [[receipt|e] opts'] eqn:Htry.
  - intros H. injection H as <-.
    cbn [Utils.sent Utils.txReceipt Utils.txErr List.length seq map].
    split; [reflexivity|]. split; [repeat constructor; exact Hle|]. split.
    + intros r Hr. injection Hr as <-. split; [|reflexivity].
      eapply trySend_receipt_accepted. rewrite Htry. reflexivity.
    + discriminate.
  - destruct (Utils.isTimeout e).
    + destruct (Utils.gasLoop fuel chain opts' maxGasPrice _ (S k) (Some e))
        as [run'|] eqn:Hrec; [|discriminate].
      cbn [Utils.sentAt]. intros H. injection H as <-.
      destruct (IH _ _ _ _ _ Hrec) as (Hs & Hall & Hr & Hnone).
      cbn [Utils.sent Utils.txReceipt Utils.txErr List.length seq map].
      split; [|split; [|split]].
      * f_equal. rewrite <- seq_shift, map_map.
        rewrite Hs at 1. apply map_ext. intros j. apply priceAt_succ.
      * constructor; assumption.
      * exact Hr.
      * intros H1 H2. destruct (Hnone H1 H2) as [_ Habs]. discriminate Habs.
    + intros H. injection H as <-.
      cbn [Utils.sent Utils.txReceipt Utils.txErr List.length seq map].
      split; [reflexivity|]. split; [repeat constructor; exact Hle|].
      split; discriminate.
Qed.

(** X13: whenever [txWithGasAdjustment] returns, the submissions it made
    were at the prices [gasPrice], [11*gasPrice/10], ... in this order, none
    above the cap; a returned receipt has status 1 and comes without an
    error; and the pair of two nulls is returned only when no submission
    was made at all. *)
Theorem txWithGasAdjustment_result_shape
    (chain : nat -> Z -> SendOutcome) (gasPrice : Z)
    (retryOpts : option RetryOpts.t) (fuel : nat) (run : Utils.TxRun) :
  Utils.txWithGasAdjustment fuel chain gasPrice retryOpts = Some run ->
  Utils.sent run = map (priceAt gasPrice) (seq 0 (List.length (Utils.sent run)))
  /\ Forall (fun p => p <= Utils.maxGasPriceOf gasPrice retryOpts) (Utils.sent run)
  /\ (forall r, Utils.txReceipt run = Some r ->
        TxReceipt.status r = Some 1 /\ Utils.txErr run = None)
  /\ (Utils.txReceipt run = None -> Utils.txErr run = None -> Utils.sent run = []).
Proof.
  intros H. apply gasLoop_shape in H. destruct H as (Hs & Hall & Hr & Hnone).
  split; [exact Hs|]. split; [exact Hall|]. split.
  - intros r Hrun. destruct (Hr r Hrun) as [Hacc Herr]. split; [|exact Herr].
    cbn in Hacc. destruct (TxReceipt.status r) as [st|]; [|discriminate].
    apply Z.eqb_eq in Hacc. congruence.
  - intros H1 H2. apply (Hnone H1 H2).
Qed.

Lemma txWithGasAdjustment_result_shape_witness :
  let receipt := TxReceipt.mk "0xabc" (Some 1) in
  let chain := fun (k : nat) (_ : Z) =>
                 if (k <? 2)%nat then WaitNull else Mined "0xabc" (fun _ => Some receipt) in
  let retryOpts := Some (RetryOpts.mk None None (Some 125) None) in
  Utils.txWithGasAdjustment 3 chain 100 retryOpts
  = Some (Utils.mkTxRun (Some receipt) None [100; 110; 121])
  /\ Forall (fun p => p <= 125) [100; 110; 121].
Proof.
  cbv zeta. split; [reflexivity|].
  exact (proj1 (proj2 (txWithGasAdjustment_result_shape
                         (fun (k : nat) (_ : Z) =>
                            if (k <? 2)%nat then WaitNull
                            else Mined "0xabc"
                                   (fun _ => Some (TxReceipt.mk "0xabc" (Some 1))))
                         100 (Some (RetryOpts.mk None None (Some 125) None)) 3 _ eq_refl))).
Defined.

Lemma gasLoop_returns chain maxGasPrice fuel :
  forall opts current k err,
    10 <= current ->
    (Z.to_nat (maxGasPrice - current + 1) <= fuel)%nat ->
    exists run,
      Utils.gasLoop fuel chain opts maxGasPrice current k err = Some run
      /\ (List.length (Utils.sent run) <= Z.to_nat (maxGasPrice - current + 1))%nat
      /\ StronglySorted Z.lt (Utils.sent run)
      /\ Forall (fun p => current <= p) (Utils.sent run).
Proof.
  induction fuel as [|fuel IH]; intros opts current k err Hcur Hfuel;
    cbn [Utils.gasLoop]; destruct (Z.leb_spec current maxGasPrice) as [Hle|Hgt];
    try lia;
    try (eexists; split; [reflexivity|]; cbn; repeat split; try lia; constructor).
  assert (Hone : forall r e,
            exists run, Some (Utils.mkTxRun r e [current]) = Some run
              /\ (List.length (Utils.sent run) <= Z.to_nat (maxGasPrice - current + 1))%nat
              /\ StronglySorted Z.lt (Utils.sent run)
              /\ Forall (fun p => current <= p) (Utils.sent run)).
  { intros r e. eexists. split; [reflexivity|]. cbn. repeat split; try lia.
    - repeat constructor.
    - repeat constructor. lia. }
  destruct (Utils.trySend (chain k current) opts) as [[receipt|e] opts']; [apply Hone|].
  destruct (Utils.isTimeout e); [|apply Hone].
  pose proof (escalate_grows current Hcur) as Hgrow.
  change (Z.quot (11 * current) 10) with (escalate current).
  destruct (IH opts' (escalate current) (S k) (Some e) ltac:(lia) ltac:(lia))
    as (run & -> & Hlen & Hsorted & Hall).
  eexists. split; [reflexivity|]. cbn [Utils.sentAt Utils.sent List.length].
  split; [lia|]. split.
  - constructor; [exact Hsorted|].
    eapply Forall_impl; [|exact Hall]. cbn. intros; lia.
  - constructor; [lia|]. eapply Forall_impl; [|exact Hall]. cbn. intros; lia.
Qed.

(** X14: from a starting gas price of at least 10 every escalation raises
    the price, so [txWithGasAdjustment] returns whatever the chain does:
    [cap - gasPrice + 1] iterations are enough, it makes at most that many
    submissions, and their prices are strictly increasing from
    [gasPrice]. *)
Theorem txWithGasAdjustment_returns
    (chain : nat -> Z -> SendOutcome) (gasPrice : Z)
    (retryOpts : option RetryOpts.t) (fuel : nat) :
  10 <= gasPrice ->
  (Z.to_nat (Utils.maxGasPriceOf gasPrice retryOpts - gasPrice + 1) <= fuel)%nat ->
  exists run,
    Utils.txWithGasAdjustment fuel chain gasPrice retryOpts = Some run
    /\ (List.length (Utils.sent run)
        <= Z.to_nat (Utils.maxGasPriceOf gasPrice retryOpts - gasPrice + 1))%nat
    /\ StronglySorted Z.lt (Utils.sent run)
    /\ Forall (fun p => gasPrice <= p) (Utils.sent run).
Proof.
  intros Hp Hfuel. unfold Utils.txWithGasAdjustment.
  apply gasLoop_returns; assumption.
Qed.

Lemma txWithGasAdjustment_returns_witness :
  let chain := fun (_ : nat) (_ : Z) => WaitNull in
  let retryOpts := Some (RetryOpts.mk None None (Some 125) None) in
  (10 <= 100 /\ (Z.to_nat (Utils.maxGasPriceOf 100 retryOpts - 100 + 1) <= 26)%nat)
  /\ Utils.txWithGasAdjustment 26 chain 100 retryOpts
     = Some (Utils.mkTxRun None
               (Some (JS.VError (JS.newError "Send transaction timeout")))
               [100; 110; 121])
  /\ StronglySorted Z.lt [100; 110; 121].
Proof.
  cbv zeta. split; [split; [lia | cbn; lia]|]. split; [reflexivity|].
  destruct (txWithGasAdjustment_returns (fun _ _ => WaitNull) 100
              (Some (RetryOpts.mk None None (Some 125) None)) 26)
    as (run & Hrun & _ & Hsorted & _); [lia | cbn; lia |].
  injection Hrun as <-. exact Hsorted.
Defined.

(** ** Receipt polling and submission: what is returned *)

(** X15: [waitForReceipt] returns the first receipt with status 1 that the
    provider yields within the retry budget: if poll [k] is the first such
    poll and [k < Retries], the call returns that receipt after [k + 1]
    polls and [k] sleeps of [Interval] seconds; and a receipt it returns
    always has status 1. *)
Theorem waitForReceipt_first_accepted
    (provider : nat -> option TxReceipt.t) (opts : option RetryOpts.t) (k : nat) :
  let retries := Utils.num (RetryOpts.Retries (Utils.receiptOpts opts)) in
  let interval := Utils.num (RetryOpts.Interval (Utils.receiptOpts opts)) in
  (Z.of_nat k < retries ->
   (forall i, (i < k)%nat -> Utils.accepted (provider i) = false) ->
   Utils.accepted (provider k) = true ->
   Utils.waitForReceipt provider opts
   = Utils.mkPolled (provider k) (S k) (repeat (interval * 1000) k))
  /\ (forall r, Utils.receipt (Utils.waitForReceipt provider opts) = Some r ->
      TxReceipt.status r = Some 1).
Proof.
  cbv zeta. split.
  - intros Hk Hbefore Hacc. unfold Utils.waitForReceipt.
    apply (pollLoop_first_accepted _ provider k _ O); [lia | exact Hbefore | exact Hacc].
  - intros r Hr. unfold Utils.waitForReceipt in Hr.
    apply pollLoop_receipt_accepted in Hr. cbn in Hr.
    destruct (TxReceipt.status r) as [st|]; [|discriminate].
    apply Z.eqb_eq in Hr. congruence.
Qed.

Lemma waitForReceipt_first_accepted_witness :
  let provider := fun k : nat =>
                    match k with
                    | O => None
                    | S O => Some (TxReceipt.mk "0xabc" (Some 0))
                    | _ => Some (TxReceipt.mk "0xabc" (Some 1))
                    end in
  (Z.of_nat 2 < Utils.num (RetryOpts.Retries (Utils.receiptOpts None))
   /\ (forall i, (i < 2)%nat -> Utils.accepted (provider i) = false)
   /\ Utils.accepted (provider 2%nat) = true)
  /\ Utils.waitForReceipt provider None
     = Utils.mkPolled (Some (TxReceipt.mk "0xabc" (Some 1))) 3 [5000; 5000].
Proof.
  cbv zeta.
  assert (H : forall i, (i < 2)%nat ->
                Utils.accepted
                  (match i with
                   | O => None
                   | S O => Some (TxReceipt.mk "0xabc" (Some 0))
                   | _ => Some (TxReceipt.mk "0xabc" (Some 1))
                   end) = false).
  { intros i Hi. destruct i as [|[|i]]; [reflexivity | reflexivity | lia]. }
  split; [split; [cbn; lia | split; [exact H | reflexivity]]|].
  exact (proj1 (waitForReceipt_first_accepted
                  (fun k : nat =>
                     match k with
                     | O => None
                     | S O => Some (TxReceipt.mk "0xabc" (Some 0))
                     | _ => Some (TxReceipt.mk "0xabc" (Some 1))
                     end) None 2)
           ltac:(cbn; lia) H eq_refl).
Defined.

Lemma submitTransaction_not_two_nulls fuel gasPrice suggestedGasPrice chain retryOpts run :
  Uploader.submitTransaction fuel gasPrice suggestedGasPrice chain retryOpts = Some run ->
  Utils.txErr run = None -> Utils.txReceipt run <> None.
Proof.
  unfold Uploader.submitTransaction.
  destruct (Uploader.startGasPrice gasPrice suggestedGasPrice) as [price|].
  - destruct (Utils.txWithGasAdjustment fuel chain price retryOpts) as [run0|];
      [|discriminate].
    destruct (Utils.txReceipt run0) as [r|]; [destruct (Utils.txErr run0)|];
      intros H; injection H as <-; cbn; congruence.
  - intros H. injection H as <-. cbn. discriminate.
Qed.

(** X16: [submitTransaction] never returns two nulls: whenever it
    returns, it returns either a receipt of status 1 and no error, or no
    receipt and an [Error]; and when the uploader has no gas price of its
    own and the provider suggests none, it fails without submitting
    anything. *)
Theorem submitTransaction_receipt_or_error
    (fuel : nat) (gasPrice : Z) (suggestedGasPrice : option Z)
    (chain : nat -> Z -> SendOutcome) (retryOpts : option RetryOpts.t) :
  (forall run,
      Uploader.submitTransaction fuel gasPrice suggestedGasPrice chain retryOpts = Some run ->
      (exists r, Utils.txReceipt run = Some r /\ Utils.txErr run = None
                 /\ TxReceipt.status r = Some 1)
      \/ (Utils.txReceipt run = None /\ exists e, Utils.txErr run = Some (JS.VError e)))
  /\ (gasPrice <= 0 -> suggestedGasPrice = None ->
      Uploader.submitTransaction fuel gasPrice suggestedGasPrice chain retryOpts
      = Some (Utils.mkTxRun None
                (Some (JS.VError (JS.newError
                   "Failed to get suggested gas price, set your own gas price"))) [])).
Proof.
  split.
  - intros run. unfold Uploader.submitTransaction.
    destruct (Uploader.startGasPrice gasPrice suggestedGasPrice) as [price|].
    + destruct (Utils.txWithGasAdjustment fuel chain price retryOpts) as [run0|] eqn:Hrun;
        [|discriminate].
      unfold Utils.txWithGasAdjustment in Hrun.
      destruct (gasLoop_shape _ _ _ _ _ _ _ _ Hrun) as (_ & _ & Hr & _).
      destruct (Utils.txReceipt run0) as [r|] eqn:Er.
      * destruct (Hr r eq_refl) as [Hacc Herr]. rewrite Herr.
        intros H. injection H as <-. left. exists r. cbn [Utils.txReceipt Utils.txErr].
        split; [reflexivity|]. split; [reflexivity|].
        cbn in Hacc. destruct (TxReceipt.status r) as [st|]; [|discriminate].
        apply Z.eqb_eq in Hacc. congruence.
      * intros H. injection H as <-. right. cbn. split; [reflexivity|].
        unfold Uploader.submitError. eexists; reflexivity.
    + intros H. injection H as <-. right. cbn. split; [reflexivity|].
      eexists; reflexivity.
  - intros Hg ->. unfold Uploader.submitTransaction, Uploader.startGasPrice.
    destruct (Z.ltb_spec 0 gasPrice); [lia | reflexivity].
Qed.

Lemma submitTransaction_receipt_or_error_witness :
  (0 <= 0 /\ @None Z = None)
  /\ Uploader.submitTransaction 5 0 None (fun _ _ => WaitNull) None
     = Some (Utils.mkTxRun None
               (Some (JS.VError (JS.newError
                  "Failed to get suggested gas price, set your own gas price"))) []).
Proof.
  split; [split; [lia | reflexivity]|].
  apply (proj2 (submitTransaction_receipt_or_error 5 0 None (fun _ _ => WaitNull) None));
    [lia | reflexivity].
Defined.

(** ** Looking for the file, waiting for the log entry, reading the logs *)

(** X17: [findExistingFileInfo] returns the record of the first node, in
    the order of the node list, whose lookup resolves to a record; nodes
    whose lookup rejects or resolves to [null] are passed over and the nodes
    after the first hit are not asked.  When no lookup resolves to a record
    it returns [null] after asking every node. *)
Theorem findExistingFileInfo_first_hit
    (before after : list Uploader.Lookup) (info : FileInfo.t) :
  forallb (fun a => negb (foundRecord a)) before = true ->
  Uploader.findExistingFileInfo
    (before ++ Uploader.LookupResolves (Some info) :: after)
  = (Some info, S (List.length before))
  /\ Uploader.findExistingFileInfo before = (None, List.length before).
Proof.
  induction before as [|a before IH]; intros Hnone; cbn [forallb] in Hnone.
  - split; reflexivity.
  - apply andb_true_iff in Hnone. destruct Hnone as [Ha Hrest].
    destruct (IH Hrest) as [IH1 IH2].
    cbn [app Uploader.findExistingFileInfo List.length].
    destruct a as [[i|]|]; [discriminate Ha | |]; rewrite IH1, IH2; split; reflexivity.
Qed.

Lemma findExistingFileInfo_first_hit_witness :
  let info := FileInfo.mk (FileInfo.mkTx 7 0 100) false in
  let before := [Uploader.LookupRejects; Uploader.LookupResolves None] in
  forallb (fun a => negb (foundRecord a)) before = true
  /\ Uploader.findExistingFileInfo
       (before ++ Uploader.LookupResolves (Some info) :: [Uploader.LookupRejects])
     = (Some info, 3%nat).
Proof.
  cbv zeta. split; [reflexivity|].
  exact (proj1 (findExistingFileInfo_first_hit
                  [Uploader.LookupRejects; Uploader.LookupResolves None]
                  [Uploader.LookupRejects]
                  (FileInfo.mk (FileInfo.mkTx 7 0 100) false) eq_refl)).
Defined.

Lemma scanNodes_complete finalityRequired answers :
  forall info,
    fst (Uploader.scanNodes finalityRequired answers info)
    = roundComplete finalityRequired answers
    /\ (roundComplete finalityRequired answers = true ->
        snd (Uploader.scanNodes finalityRequired answers info) = last answers info).
Proof.
  induction answers as [|a rest IH]; intros info; cbn [Uploader.scanNodes roundComplete forallb].
  - split; reflexivity.
  - destruct a as [i|]; [|split; [reflexivity | discriminate]].
    destruct (finalityRequired && negb (FileInfo.finalized i)) eqn:E; cbn [negb andb].
    + split; [reflexivity | discriminate].
    + destruct (IH (Some i)) as [IH1 IH2]. split; [exact IH1|].
      intros Hc. rewrite (IH2 Hc).
      destruct rest as [|b rest]; [reflexivity|]. cbn [last].
      clear. revert b. induction rest as [|b' rest IHr]; intros b; [reflexivity|].
      cbn [last]. apply IHr.
Qed.

Lemma waitLoop_first_complete rounds finalityRequired (n : nat) :
  forall fuel round info,
    (n < fuel)%nat ->
    (forall r, (r < n)%nat -> roundComplete finalityRequired (rounds (round + r)%nat) = false) ->
    roundComplete finalityRequired (rounds (round + n)%nat) = true ->
    exists prev,
      Uploader.waitLoop fuel rounds finalityRequired round info
      = Some (last (rounds (round + n)%nat) prev, S (round + n)).
Proof.
  induction n as [|n IH]; intros fuel round info Hfuel Hbefore Hdone;
    (destruct fuel as [|fuel]; [lia|]); cbn [Uploader.waitLoop].
  - rewrite Nat.add_0_r in *.
    destruct (scanNodes_complete finalityRequired (rounds round) info) as [Hok Hinfo].
    destruct (Uploader.scanNodes finalityRequired (rounds round) info) as [ok info'].
    cbn [fst snd] in *. rewrite Hok, Hdone. rewrite (Hinfo Hdone).
    exists info. reflexivity.
  - pose proof (Hbefore O ltac:(lia)) as H0. rewrite Nat.add_0_r in H0.
    destruct (scanNodes_complete finalityRequired (rounds round) info) as [Hok _].
    destruct (Uploader.scanNodes finalityRequired (rounds round) info) as [ok info'].
    cbn [fst] in Hok. rewrite Hok, H0.
    destruct (IH fuel (S round) info' ltac:(lia)) as [prev Hprev].
    + intros r Hr. replace (S round + r)%nat with (round + S r)%nat by lia.
      apply Hbefore. lia.
    + replace (S round + n)%nat with (round + S n)%nat by lia. exact Hdone.
    + exists prev. rewrite Hprev.
      replace (S round + n)%nat with (round + S n)%nat by lia. reflexivity.
Qed.

Lemma waitLoop_returned rounds finalityRequired fuel :
  forall round info result n,
    Uploader.waitLoop fuel rounds finalityRequired round info = Some (result, n) ->
    (round < n)%nat
    /\ roundComplete finalityRequired (rounds (n - 1)%nat) = true
    /\ (forall r, (round <= r < n - 1)%nat ->
                  roundComplete finalityRequired (rounds r) = false).
Proof.
  induction fuel as [|fuel IH]; intros round info result n; cbn [Uploader.waitLoop];
    [discriminate|].
  destruct (scanNodes_complete finalityRequired (rounds round) info) as [Hok _].
  destruct (Uploader.scanNodes finalityRequired (rounds round) info) as [ok info'].
  cbn [fst] in Hok. destruct ok.
  - intros H. injection H as <- <-. split; [lia|].
    replace (S round - 1)%nat with round by lia. split; [auto|]. intros; lia.
  - intros H. destruct (IH _ _ _ _ H) as (Hlt & Hdone & Hbefore).
    split; [lia|]. split; [exact Hdone|].
    intros r Hr. destruct (Nat.eq_dec r round) as [->|Hne]; [auto|].
    apply Hbefore. lia.
Qed.

(** X18: [waitForLogEntry] returns in the first round in which every node
    answers with a log entry (a finalized one when finality is required),
    after one sleep of a second per round, and returns the answer of the
    last node of that round; with no node at all it returns [null] after
    the first round.  Conversely it only ever returns in such a round, all
    earlier rounds having had a node without the entry (or not finalized). *)
Theorem waitForLogEntry_first_complete_round
    (rounds : nat -> list (option FileInfo.t)) (finalityRequired : bool)
    (fuel n : nat) :
  ((n < fuel)%nat ->
   (forall r, (r < n)%nat -> roundComplete finalityRequired (rounds r) = false) ->
   roundComplete finalityRequired (rounds n) = true ->
   exists prev,
     Uploader.waitForLogEntry fuel rounds finalityRequired
     = Some (last (rounds n) prev, S n)
     /\ (n = O -> prev = None))
  /\ (forall result,
        Uploader.waitForLogEntry fuel rounds finalityRequired = Some (result, S n) ->
        roundComplete finalityRequired (rounds n) = true
        /\ forall r, (r < n)%nat -> roundComplete finalityRequired (rounds r) = false).
Proof.
  split.
  - intros Hfuel Hbefore Hdone. unfold Uploader.waitForLogEntry.
    destruct n as [|n].
    + destruct fuel as [|fuel]; [lia|]. cbn [Uploader.waitLoop].
      destruct (scanNodes_complete finalityRequired (rounds O) None) as [Hok Hinfo].
      destruct (Uploader.scanNodes finalityRequired (rounds O) None) as [ok info'].
      cbn [fst snd] in *. rewrite Hok, Hdone, (Hinfo Hdone).
      exists None. split; reflexivity.
    + destruct (waitLoop_first_complete rounds finalityRequired (S n) fuel O None
                  Hfuel Hbefore Hdone) as [prev Hprev].
      exists prev. split; [exact Hprev | discriminate].
  - intros result H. unfold Uploader.waitForLogEntry in H.
    destruct (waitLoop_returned _ _ _ _ _ _ _ H) as (_ & Hdone & Hbefore).
    replace (S n - 1)%nat with n in * by lia.
    split; [exact Hdone|]. intros r Hr. apply Hbefore. lia.
Qed.

Lemma waitForLogEntry_first_complete_round_witness :
  let pending := FileInfo.mk (FileInfo.mkTx 7 0 100) false in
  let final := FileInfo.mk (FileInfo.mkTx 7 0 100) true in
  let rounds := fun r : nat =>
                  match r with
                  | O => [Some pending; None]
                  | S O => [Some final; Some pending]
                  | _ => [Some final; Some final]
                  end in
  ((2 < 5)%nat
   /\ (forall r, (r < 2)%nat -> roundComplete true (rounds r) = false)
   /\ roundComplete true (rounds 2%nat) = true)
  /\ Uploader.waitForLogEntry 5 rounds true = Some (Some final, 3%nat).
Proof.
  cbv zeta.
  assert (H : forall r, (r < 2)%nat ->
                roundComplete true
                  (match r with
                   | O => [Some (FileInfo.mk (FileInfo.mkTx 7 0 100) false); None]
                   | S O => [Some (FileInfo.mk (FileInfo.mkTx 7 0 100) true);
                             Some (FileInfo.mk (FileInfo.mkTx 7 0 100) false)]
                   | _ => [Some (FileInfo.mk (FileInfo.mkTx 7 0 100) true);
                           Some (FileInfo.mk (FileInfo.mkTx 7 0 100) true)]
                   end) = false).
  { intros r Hr. destruct r as [|[|r]]; [reflexivity | reflexivity | lia]. }
  split; [split; [lia | split; [exact H | reflexivity]]|].
  destruct (proj1 (waitForLogEntry_first_complete_round
                     (fun r : nat =>
                        match r with
                        | O => [Some (FileInfo.mk (FileInfo.mkTx 7 0 100) false); None]
                        | S O => [Some (FileInfo.mk (FileInfo.mkTx 7 0 100) true);
                                  Some (FileInfo.mk (FileInfo.mkTx 7 0 100) false)]
                        | _ => [Some (FileInfo.mk (FileInfo.mkTx 7 0 100) true);
                                Some (FileInfo.mk (FileInfo.mkTx 7 0 100) true)]
                        end) true 5 2) ltac:(lia) H eq_refl) as (prev & Hrun & _).
  rewrite Hrun. reflexivity.
Defined.

Lemma lowerAscii_idempotent (ch : ascii) :
  Uploader.lowerAscii (Uploader.lowerAscii ch) = Uploader.lowerAscii ch.
Proof. destruct ch as [[] [] [] [] [] [] [] []]; reflexivity. Qed.

Lemma toLowerCase_idempotent (s : string) :
  Uploader.toLowerCase (Uploader.toLowerCase s) = Uploader.toLowerCase s.
Proof.
  induction s as [|ch s IH]; [reflexivity|].
  cbn [Uploader.toLowerCase]. rewrite lowerAscii_idempotent, IH. reflexivity.
Qed.

(** X19: [processLogs] returns the submission index of exactly those logs
    of the receipt that were emitted by the flow contract, the addresses
    being compared without regard to letter case, whose first topic is the
    [Submit] topic and which parse as a [Submit] event; logs whose parsing
    throws or gives [null] are passed over.  The indices come in the order
    of the logs. *)
Theorem processLogs_submit_events (flowAddress topicHash : string) (logs more : list Uploader.Log) :
  (forall txSeq,
      In txSeq (Uploader.processLogs flowAddress topicHash logs)
      <-> exists log, In log logs
            /\ Uploader.toLowerCase (Uploader.address log) = Uploader.toLowerCase flowAddress
            /\ hd_error (Uploader.topics log) = Some topicHash
            /\ Uploader.parseLog log = Uploader.Parsed "Submit" txSeq)
  /\ Uploader.processLogs flowAddress topicHash (logs ++ more)
     = Uploader.processLogs flowAddress topicHash logs
       ++ Uploader.processLogs flowAddress topicHash more
  /\ Uploader.processLogs (Uploader.toLowerCase flowAddress) topicHash logs
     = Uploader.processLogs flowAddress topicHash logs.
Proof.
  split; [|split].
  - intros txSeq. induction logs as [|log rest IH]; cbn [Uploader.processLogs In].
    + split; [intros [] | intros (log & [] & _)].
    + destruct (String.eqb_spec (Uploader.toLowerCase (Uploader.address log))
                  (Uploader.toLowerCase flowAddress)) as [Haddr|Haddr]; cbn [negb].
      2:{ rewrite IH. split.
          - intros (l & Hl & H). exists l. split; [right; exact Hl | exact H].
          - intros (l & [<-|Hl] & Ha & H); [contradiction|]. exists l. auto. }
      destruct (hd_error (Uploader.topics log)) as [topic|] eqn:Htopic.
      2:{ rewrite IH. split.
          - intros (l & Hl & H). exists l. split; [right; exact Hl | exact H].
          - intros (l & [<-|Hl] & Ha & Ht & H); [congruence|]. exists l. auto. }
      destruct (String.eqb_spec topic topicHash) as [->|Hne]; cbn [negb].
      2:{ rewrite IH. split.
          - intros (l & Hl & H). exists l. split; [right; exact Hl | exact H].
          - intros (l & [<-|Hl] & Ha & Ht & H); [congruence|]. exists l. auto. }
      destruct (Uploader.parseLog log) as [| |name idx] eqn:Hparse.
      1,2: rewrite IH; split;
        [intros (l & Hl & H); exists l; split; [right; exact Hl | exact H]
        |intros (l & [<-|Hl] & Ha & Ht & H); [congruence | exists l; auto]].
      destruct (String.eqb_spec name "Submit") as [->|Hname].
      * cbn [In]. rewrite IH. split.
        -- intros [<-|(l & Hl & H)].
           ++ exists log. auto.
           ++ exists l. split; [right; exact Hl | exact H].
        -- intros (l & [<-|Hl] & Ha & Ht & H).
           ++ left. congruence.
           ++ right. exists l. auto.
      * rewrite IH. split.
        -- intros (l & Hl & H). exists l. split; [right; exact Hl | exact H].
        -- intros (l & [<-|Hl] & Ha & Ht & H); [congruence|]. exists l. auto.
  - induction logs as [|log rest IH]; [reflexivity|].
    cbn [app Uploader.processLogs]. rewrite IH.
    destruct (negb _); [reflexivity|].
    destruct (match hd_error (Uploader.topics log) with
              | Some topic => negb (String.eqb topic topicHash)
              | None => true
              end); [reflexivity|].
    destruct (Uploader.parseLog log) as [| |name idx]; try reflexivity.
    destruct (String.eqb name "Submit"); reflexivity.
  - induction logs as [|log rest IH]; [reflexivity|].
    cbn [Uploader.processLogs]. rewrite IH, toLowerCase_idempotent. reflexivity.
Qed.

(** X20: [checkExist] answers [false] only when the parent directory of
    the path exists and the path itself does not; when the parent directory
    is missing it answers [true] although nothing exists at the path. *)
Theorem checkExist_false_iff (fs : Utils.FileSystem) (dirname : string -> string)
    (inputPath : string) :
  Utils.checkExist fs dirname inputPath = false
  <-> Utils.existsSync fs (dirname inputPath) = true
      /\ Utils.existsSync fs inputPath = false.
Proof.
  unfold Utils.checkExist.
  destruct (Utils.existsSync fs (dirname inputPath));
    destruct (Utils.existsSync fs inputPath);
    destruct (Utils.isDirectory fs inputPath); cbn; intuition congruence.
Qed.

(** ** The retry options after a submission *)

Lemma gasLoopOpts_written chain maxGasPrice fuel :
  forall opts current k,
    Utils.receiptOptsWritten opts = opts ->
    Utils.gasLoopOpts fuel chain opts maxGasPrice current k = opts.
Proof.
  induction fuel as [|fuel IH]; intros opts current k Hw; cbn [Utils.gasLoopOpts];
    destruct (current <=? maxGasPrice); try reflexivity.
  assert (Hsnd : snd (Utils.trySend (chain k current) opts) = opts).
  { destruct (chain k current) as [t| |h provider]; cbn [Utils.trySend snd];
      try reflexivity.
    destruct (Utils.receipt _); cbn [snd]; exact Hw. }
  destruct (Utils.trySend (chain k current) opts) as [[r|e] opts']; cbn [snd] in Hsnd;
    subst opts'; [reflexivity|].
  destruct (Utils.isTimeout e); [apply IH, Hw | reflexivity].
Qed.

(** X21: [waitForReceipt] writes its defaults into the caller's retry
    options, and the same object later reaches [uploadTask].  So once a
    submission has been mined and its receipt polled, the caller's object
    holds [Retries] and [Interval] with 10 and 5 in place of unset or zero
    values, and the back-off interval of the upload tasks is 5 seconds, not
    the default 3, when the caller left [Interval] unset.  With undefined
    retry options nothing is written and the default stays 3. *)
Theorem retryOpts_after_mined_submission
    (chain : nat -> Z -> SendOutcome) (gasPrice : Z) (o : RetryOpts.t)
    (fuel : nat) (hash : string) (provider : nat -> option TxReceipt.t) :
  chain O gasPrice = Mined hash provider ->
  gasPrice <= Utils.maxGasPriceOf gasPrice (Some o) ->
  (0 < fuel)%nat ->
  Utils.retryOptsAfterTx fuel chain gasPrice (Some o) = Some (Utils.receiptOpts (Some o))
  /\ Uploader.intervalOf (Utils.retryOptsAfterTx fuel chain gasPrice (Some o))
     = (if Utils.undefinedOrZero (RetryOpts.Interval o) then 5
        else Utils.num (RetryOpts.Interval o))
  /\ Uploader.intervalOf (Utils.retryOptsAfterTx fuel chain gasPrice None) = 3.
Proof.
  intros Hchain Hcap Hfuel.
  assert (Hafter : Utils.retryOptsAfterTx fuel chain gasPrice (Some o)
                   = Some (Utils.receiptOpts (Some o))).
  { unfold Utils.retryOptsAfterTx. destruct fuel as [|fuel]; [lia|].
    cbn [Utils.gasLoopOpts].
    destruct (Z.leb_spec gasPrice (Utils.maxGasPriceOf gasPrice (Some o))); [|lia].
    rewrite Hchain. cbn [Utils.trySend].
    assert (Hw : Utils.receiptOptsWritten (Some (Utils.receiptOpts (Some o)))
                 = Some (Utils.receiptOpts (Some o))).
    { cbn [Utils.receiptOptsWritten]. f_equal.
      apply (receiptOpts_idempotent (Some o)). }
    destruct (Utils.receipt (Utils.waitForReceipt provider (Some o))).
    - reflexivity.
    - change (Utils.isTimeout
                (JS.VError (JS.newError "Get transaction receipt timeout"))) with true.
      cbv iota. cbn [Utils.receiptOptsWritten]. apply gasLoopOpts_written, Hw. }
  split; [exact Hafter|]. split.
  - rewrite Hafter. unfold Uploader.intervalOf, Utils.receiptOpts.
    destruct o as [r i m t]. cbn [RetryOpts.Retries RetryOpts.Interval
                                   RetryOpts.MaxGasPrice RetryOpts.TooManyDataRetries].
    destruct (Utils.undefinedOrZero r);
      cbn [RetryOpts.Retries RetryOpts.Interval RetryOpts.MaxGasPrice
           RetryOpts.TooManyDataRetries];
      destruct (Utils.undefinedOrZero i) eqn:Ei;
      cbn [RetryOpts.Interval]; try reflexivity;
      destruct i as [v|]; try reflexivity; discriminate Ei.
  - unfold Utils.retryOptsAfterTx.
    rewrite gasLoopOpts_written by reflexivity. reflexivity.
Qed.

Lemma retryOpts_after_mined_submission_witness :
  let receipt := TxReceipt.mk "0xabc" (Some 1) in
  let chain := fun (_ : nat) (_ : Z) => Mined "0xabc" (fun _ => Some receipt) in
  let o := RetryOpts.mk None None None None in
  (chain O 100 = Mined "0xabc" (fun _ => Some receipt)
   /\ 100 <= Utils.maxGasPriceOf 100 (Some o)
   /\ (0 < 1)%nat)
  /\ Uploader.intervalOf (Some o) = 3
  /\ Uploader.intervalOf (Utils.retryOptsAfterTx 1 chain 100 (Some o)) = 5.
Proof.
  cbv zeta. split; [split; [reflexivity | split; [cbn; lia | lia]]|].
  split; [reflexivity|].
  exact (proj1 (proj2 (retryOpts_after_mined_submission
                         (fun _ _ => Mined "0xabc"
                                       (fun _ => Some (TxReceipt.mk "0xabc" (Some 1))))
                         100 (RetryOpts.mk None None None None) 1 "0xabc"
                         (fun _ => Some (TxReceipt.mk "0xabc" (Some 1)))
                         eq_refl ltac:(cbn; lia) ltac:(lia)))).
Defined.

(** ** The whole upload *)

Lemma allRuns_length results :
  forall runs, Uploader.allRuns results = Some runs ->
               List.length runs = List.length results.
Proof.
  induction results as [|r rest IH]; intros runs; cbn [Uploader.allRuns].
  - intros H. injection H as <-. reflexivity.
  - destruct r as [run|]; [|discriminate].
    destruct (Uploader.allRuns rest) as [runs'|]; [|discriminate].
    intros H. injection H as <-. cbn. f_equal. apply IH. reflexivity.
Qed.

Lemma firstError_none results :
  Uploader.firstError results = None <-> Forall notAnError results.
Proof.
  induction results as [|run rest IH]; cbn [Uploader.firstError].
  - split; [constructor | reflexivity].
  - destruct (Uploader.result run) as [res|[e|s]] eqn:Hres.
    + rewrite IH. split.
      * intros H. constructor; [|exact H]. intros e. rewrite Hres. discriminate.
      * intros H. inversion H. assumption.
    + split; [discriminate|]. intros H. inversion H as [|? ? Hrun _].
      exfalso. apply (Hrun e). exact Hres.
    + rewrite IH. split.
      * intros H. constructor; [|exact H]. intros e. rewrite Hres. discriminate.
      * intros H. inversion H. assumption.
Qed.

(** X22: when [uploadFile] ran upload tasks and resolved, the error it
    reports is the first [Error] instance among the task results, in task
    order, and it reports success exactly when no task returned an [Error]
    instance: a task that returned a thrown value which is not an [Error]
    does not fail the upload.  The wait for finality is made exactly when
    no task failed. *)
Theorem uploadFile_reports_first_task_error
    (c : Constants) (encodeBase64 : list Byte.byte -> string) (fuel : nat)
    (net : Uploader.Network) (file : ZgFile.t) (skipTx : bool)
    (opts : UploadOption.t) (retryOpts : option RetryOpts.t)
    (upload : Uploader.FileUpload) :
  Uploader.uploadFile c encodeBase64 fuel net file skipTx opts retryOpts
  = Some (Uploader.Fulfilled upload) ->
  Uploader.taskRuns upload <> [] ->
  Uploader.err upload = Uploader.firstError (Uploader.taskRuns upload)
  /\ (Uploader.err upload = None <-> Forall notAnError (Uploader.taskRuns upload))
  /\ (Uploader.err upload = None <-> Uploader.finalityWait upload <> None).
Proof.
  intros H Hruns. unfold Uploader.uploadFile in H. cbv beta zeta in H.
  break_upload H; injection H as <-;
    cbn [Uploader.taskRuns Uploader.err Uploader.finalityWait] in *;
    try (exfalso; apply Hruns; reflexivity);
    (split; [solve [auto] |]); rewrite <- firstError_none;
    match goal with E : Uploader.firstError _ = _ |- _ => rewrite E end;
    split; split; congruence.
Qed.

Lemma uploadFile_reports_first_task_error_witness :
  let failure := JS.VError (JS.newError "Failed after 3 attempts: too many data writing") in
  let run := Uploader.mkTaskRun (Uploader.ReturnedError failure) 3 [3000; 6000] in
  let upload := Uploader.mkFileUpload "0xabc" "0xroot" (Some failure) [100] [run] None in
  (Uploader.uploadFile tinyConstants string_of_list_byte 5
     (demoNetwork alwaysBusyNode []) tinyFile false oneSegmentTasks None
   = Some (Uploader.Fulfilled upload)
   /\ Uploader.taskRuns upload <> [])
  /\ Uploader.err upload = Uploader.firstError (Uploader.taskRuns upload).
Proof.
  cbv zeta.
  assert (Hne : [Uploader.mkTaskRun
                   (Uploader.ReturnedError
                      (JS.VError (JS.newError
                         "Failed after 3 attempts: too many data writing")))
                   3 [3000; 6000]] <> []) by discriminate.
  assert (Hrun : Uploader.uploadFile tinyConstants string_of_list_byte 5
                   (demoNetwork alwaysBusyNode []) tinyFile false oneSegmentTasks None
                 = Some (Uploader.Fulfilled
                           (Uploader.mkFileUpload "0xabc" "0xroot"
                              (Some (JS.VError (JS.newError
                                 "Failed after 3 attempts: too many data writing")))
                              [100]
                              [Uploader.mkTaskRun
                                 (Uploader.ReturnedError
                                    (JS.VError (JS.newError
                                       "Failed after 3 attempts: too many data writing")))
                                 3 [3000; 6000]]
                              None)))
    by (vm_compute; reflexivity).
  split; [split; [exact Hrun | exact Hne]|].
  exact (proj1 (uploadFile_reports_first_task_error tinyConstants string_of_list_byte 5
                  (demoNetwork alwaysBusyNode []) tinyFile false oneSegmentTasks None
                  _ Hrun Hne)).
Defined.

(** X23: with [skipTx] set and the file already known to a node,
    [uploadFile] submits no transaction: no gas price is offered to the
    chain, the transaction hash it returns is empty and the root hash is
    that of the tree. *)
Theorem uploadFile_skips_transaction
    (c : Constants) (encodeBase64 : list Byte.byte -> string) (fuel : nat)
    (net : Uploader.Network) (file : ZgFile.t)
    (opts : UploadOption.t) (retryOpts : option RetryOpts.t)
    (tree : MerkleTree.t) (info : FileInfo.t) (upload : Uploader.FileUpload) :
  Uploader.merkleTree net = (Some tree, None) ->
  fst (Uploader.findExistingFileInfo (Uploader.existing net)) = Some info ->
  Uploader.uploadFile c encodeBase64 fuel net file true opts retryOpts
  = Some (Uploader.Fulfilled upload) ->
  Uploader.submitted upload = []
  /\ Uploader.txHash upload = EmptyString
  /\ Uploader.rootHash upload = MerkleTree.rootHash tree.
Proof.
  intros Htree Hinfo H. unfold Uploader.uploadFile in H. cbv beta zeta in H.
  rewrite Htree, Hinfo in H. cbn [negb orb] in H.
  break_upload H; injection H as <-; cbn; auto.
Qed.

Lemma uploadFile_skips_transaction_witness :
  let known := [Uploader.LookupResolves (Some (demoEntry false))] in
  let run := Uploader.mkTaskRun (Uploader.Returned 1) 3 [3000; 6000] in
  (Uploader.merkleTree (demoNetwork busyTwiceNode known) = (Some tinyTree, None)
   /\ fst (Uploader.findExistingFileInfo (Uploader.existing (demoNetwork busyTwiceNode known)))
      = Some (demoEntry false)
   /\ Uploader.uploadFile tinyConstants string_of_list_byte 5
        (demoNetwork busyTwiceNode known) tinyFile true oneSegmentTasks None
      = Some (Uploader.Fulfilled
                (Uploader.mkFileUpload EmptyString "0xroot" None [] [run] (Some 1%nat))))
  /\ Uploader.submitted
       (Uploader.mkFileUpload EmptyString "0xroot" None [] [run] (Some 1%nat)) = [].
Proof.
  cbv zeta.
  assert (Hrun : Uploader.uploadFile tinyConstants string_of_list_byte 5
                   (demoNetwork busyTwiceNode
                      [Uploader.LookupResolves (Some (demoEntry false))])
                   tinyFile true oneSegmentTasks None
                 = Some (Uploader.Fulfilled
                           (Uploader.mkFileUpload EmptyString "0xroot" None []
                              [Uploader.mkTaskRun (Uploader.Returned 1) 3 [3000; 6000]]
                              (Some 1%nat))))
    by (vm_compute; reflexivity).
  split; [split; [reflexivity | split; [reflexivity | exact Hrun]]|].
  exact (proj1 (uploadFile_skips_transaction tinyConstants string_of_list_byte 5
                  (demoNetwork busyTwiceNode
                     [Uploader.LookupResolves (Some (demoEntry false))])
                  tinyFile oneSegmentTasks None tinyTree (demoEntry false) _
                  eq_refl eq_refl Hrun)).
Defined.

(** X24: [uploadFile] reports success after uploading only once a round of
    the final wait had every node answer with a finalized log entry: when
    the final wait was made and took [n] rounds, round [n] (counted from 1)
    was complete with finality, no earlier round was, and the result
    carries no error and at least one task run. *)
Theorem uploadFile_success_after_finality
    (c : Constants) (encodeBase64 : list Byte.byte -> string) (fuel : nat)
    (net : Uploader.Network) (file : ZgFile.t) (skipTx : bool)
    (opts : UploadOption.t) (retryOpts : option RetryOpts.t)
    (upload : Uploader.FileUpload) (n : nat) :
  Uploader.uploadFile c encodeBase64 fuel net file skipTx opts retryOpts
  = Some (Uploader.Fulfilled upload) ->
  Uploader.finalityWait upload = Some n ->
  Uploader.err upload = None
  /\ Forall notAnError (Uploader.taskRuns upload)
  /\ exists txSeq,
       (0 < n)%nat
       /\ roundComplete true (Uploader.finalityRounds net txSeq (n - 1)%nat) = true
       /\ forall r, (r < n - 1)%nat ->
            roundComplete true (Uploader.finalityRounds net txSeq r) = false.
Proof.
  intros H Hwait. unfold Uploader.uploadFile in H. cbv beta zeta in H.
  break_upload H; injection H as <-;
    cbn [Uploader.taskRuns Uploader.err Uploader.finalityWait] in *;
    try discriminate Hwait; injection Hwait as <-;
    (split; [reflexivity|]);
    (split; [apply firstError_none; assumption|]);
    match goal with
    | E : Uploader.waitForLogEntry _ (Uploader.finalityRounds net ?seq) true = Some _ |- _ =>
        exists seq; unfold Uploader.waitForLogEntry in E;
        destruct (waitLoop_returned _ _ _ _ _ _ _ E) as (Hpos & Hdone & Hbefore);
        split; [lia|]; split; [exact Hdone|];
        intros r Hr; apply Hbefore; lia
    end.
Qed.

Lemma uploadFile_success_after_finality_witness :
  let run := Uploader.mkTaskRun (Uploader.Returned 1) 3 [5000; 10000] in
  let upload := Uploader.mkFileUpload "0xabc" "0xroot" None [100] [run] (Some 1%nat) in
  (Uploader.uploadFile tinyConstants string_of_list_byte 5
     (demoNetwork busyTwiceNode []) tinyFile false oneSegmentTasks
     (Some (RetryOpts.mk None None None None))
   = Some (Uploader.Fulfilled upload)
   /\ Uploader.finalityWait upload = Some 1%nat)
  /\ Uploader.err upload = None.
Proof.
  cbv zeta.
  assert (Hrun : Uploader.uploadFile tinyConstants string_of_list_byte 5
                   (demoNetwork busyTwiceNode []) tinyFile false oneSegmentTasks
                   (Some (RetryOpts.mk None None None None))
                 = Some (Uploader.Fulfilled
                           (Uploader.mkFileUpload "0xabc" "0xroot" None [100]
                              [Uploader.mkTaskRun (Uploader.Returned 1) 3 [5000; 10000]]
                              (Some 1%nat))))
    by (vm_compute; reflexivity).
  split; [split; [exact Hrun | reflexivity]|].
  exact (proj1 (uploadFile_success_after_finality tinyConstants string_of_list_byte 5
                  (demoNetwork busyTwiceNode []) tinyFile false oneSegmentTasks
                  (Some (RetryOpts.mk None None None None)) _ 1 Hrun eq_refl)).
Defined.

(** X25: [uploadFile] never reads the hash of a null receipt: a
    submission that comes back without an error comes back with a receipt,
    so whenever [uploadFile] returns, its promise resolves to the pair and
    does not reject. *)
Theorem uploadFile_never_rejects
    (c : Constants) (encodeBase64 : list Byte.byte -> string) (fuel : nat)
    (net : Uploader.Network) (file : ZgFile.t) (skipTx : bool)
    (opts : UploadOption.t) (retryOpts : option RetryOpts.t) :
  Uploader.uploadFile c encodeBase64 fuel net file skipTx opts retryOpts
  <> Some Uploader.RejectedTypeError.
Proof.
  intros H. unfold Uploader.uploadFile in H. cbv beta zeta in H.
  break_upload H.
  match goal with
  | E : Uploader.submitTransaction _ _ _ _ _ = Some ?run |- _ =>
      apply (submitTransaction_not_two_nulls _ _ _ _ _ run E); assumption
  end.
Qed.
